(** * Clipped, ratio-based pixel blitter ([image_utils.c])

    A shallow embedding of [library/src/main/jni/image/image_utils.c] and the
    properties of its four layers: the channel codec ([convert_color],
    [color_to_rgba], [rgba_to_color]), the block averager ([average_step],
    [bilinear_color]), the row copier ([copy_color]) and the region blitter
    ([copy_pixels_internal], [copy_pixels]).

    Conventions of the embedding.
    - [int] is a 32-bit two's complement integer: a [Z] on which every
      arithmetic operation is followed by [wrap32], the result that the
      compiled code computes where C leaves signed overflow undefined.
      [/] and [%] are C's truncating [Z.quot] and [Z.rem].
    - [unsigned char] is a [Z] reduced by [to_uchar] (modulo 256) on every
      store; [size_t] is a 64-bit unsigned integer ([to_size_t]).
    - A pointer is a buffer (block) together with a byte offset from the
      start of that buffer.  Pointer arithmetic moves the offset and never
      checks it; memory is a total map from (block, byte offset) to a byte.
      The two buffers are separate objects: what the code does to one
      buffer through an out-of-bounds pointer into the other is not
      represented, and the statements about the contents of a buffer are
      made for calls whose accesses are in bounds.
    - Addresses are 64 bits wide.  Adding an [int] to a pointer does not
      wrap the address space; adding a [size_t], as [dst + size] in
      [memset_int] does, is taken modulo [2 ^ 64] ([wrap64]), the offset
      being kept as a signed distance from the start of the buffer.  Two
      pointers into the same buffer compare as their offsets do.  Both
      assume that a buffer does not lie next to either end of the address
      space.
    - A division by zero is not represented as a trap: [Z.quot] and [Z.rem]
      return a value.  The statements about the block averager are made for
      a [ratio] whose square does not wrap to 0.
    - Every load and store is recorded in an access log, so that "no access
      outside the buffer" is a property of the log.

    The file has three parts: the embedding of the source, the notions the
    statements are written with, and the properties. *)

From Stdlib Require Import ZArith List Bool Lia Permutation.
Import ListNotations.
Local Open Scope Z_scope.

(* ================================================================= *)
(** ** Machine integers *)

Definition INT_MIN : Z := - 2 ^ 31.
Definition INT_MAX : Z := 2 ^ 31 - 1.

(** Reduction of a mathematical integer to the [int] it is stored as. *)
Definition wrap32 (z : Z) : Z := (z + 2 ^ 31) mod 2 ^ 32 - 2 ^ 31.

Definition add32 (a b : Z) : Z := wrap32 (a + b).
Definition sub32 (a b : Z) : Z := wrap32 (a - b).
Definition mul32 (a b : Z) : Z := wrap32 (a * b).
Definition neg32 (a : Z) : Z := wrap32 (- a).
Definition div32 (a b : Z) : Z := wrap32 (Z.quot a b).
Definition rem32 (a b : Z) : Z := wrap32 (Z.rem a b).

(** Conversion to [unsigned char] and to [size_t]. *)
Definition to_uchar (z : Z) : Z := z mod 256.
Definition to_size_t (z : Z) : Z := z mod 2 ^ 64.

Definition in_int (z : Z) : Prop := INT_MIN <= z <= INT_MAX.

(* ================================================================= *)
(** ** Object representation of an [int] *)

Inductive byte_order := LittleEndian | BigEndian.

(** [byte_at host v k] is [((unsigned char * ) &v)[k]] for an [int v]. *)
Definition byte_at (host : byte_order) (v k : Z) : Z :=
  match host with
  | LittleEndian => Z.land (Z.shiftr v (8 * k)) 255
  | BigEndian => Z.land (Z.shiftr v (8 * (3 - k))) 255
  end.

(** The [int] whose four bytes, in memory order, are [b0 b1 b2 b3]. *)
Definition int_of_bytes (host : byte_order) (b0 b1 b2 b3 : Z) : Z :=
  match host with
  | LittleEndian => wrap32 (b0 + b1 * 2 ^ 8 + b2 * 2 ^ 16 + b3 * 2 ^ 24)
  | BigEndian => wrap32 (b3 + b2 * 2 ^ 8 + b1 * 2 ^ 16 + b0 * 2 ^ 24)
  end.

(* ================================================================= *)
(** ** Memory, pointers and the access log *)

Inductive block := Src | Dst.

Definition block_eqb (a b : block) : bool :=
  match a, b with
  | Src, Src | Dst, Dst => true
  | _, _ => false
  end.

(** A pointer: the buffer it points into and a byte offset from its start. *)
Definition ptr : Type := block * Z.

(** [void * + n] moves by [n] bytes, [int * + n] by [n] ints. *)
Definition padd (p : ptr) (n : Z) : ptr := (fst p, snd p + n).
Definition padd_int (p : ptr) (n : Z) : ptr := (fst p, snd p + 4 * n).

(** Reduction of a signed byte distance to the 64 bits of an address. *)
Definition wrap64 (z : Z) : Z := (z + 2 ^ 63) mod 2 ^ 64 - 2 ^ 63.

(** [int * + n] for a [size_t n]: the address moves by [4 * n] modulo
    [2 ^ 64]. *)
Definition padd_size (p : ptr) (n : Z) : ptr := (fst p, wrap64 (snd p + 4 * n)).

(** [p < q] for two pointers into the same buffer. *)
Definition ptr_ltb (p q : ptr) : bool := snd p <? snd q.

Definition memory : Type := block -> Z -> Z.

Inductive access :=
| Load (p : ptr) (len : Z)
| Store (p : ptr) (len : Z).

Definition is_store (a : access) : bool :=
  match a with Store _ _ => true | Load _ _ => false end.

Definition is_load (a : access) : bool := negb (is_store a).

(** An access of [len] bytes at offset [o] stays inside a buffer of [size]
    bytes when every byte it touches has an offset in [[0, size)]. *)
Definition in_bounds (size : block -> Z) (a : access) : Prop :=
  match a with
  | Load (b, o) len | Store (b, o) len =>
      len <= 0 \/ (0 <= o /\ o + len <= size b)
  end.

(** The state threaded through the code: the two buffers, the log of the
    accesses made so far (oldest first), and the file-level [endian] cache. *)
Record state := mkState {
  st_mem : memory;
  st_log : list access;
  st_endian : Z
}.

Definition write_bytes (p : ptr) (bs : list Z) (m : memory) : memory :=
  fun b o =>
    if block_eqb b (fst p) && (snd p <=? o) && (o <? snd p + Z.of_nat (length bs))
    then nth (Z.to_nat (o - snd p)) bs 0
    else m b o.

(** [*p] for an [int * p]. *)
Definition load_int (host : byte_order) (p : ptr) (s : state) : Z * state :=
  let m := st_mem s in
  let b := fst p in
  let o := snd p in
  (int_of_bytes host (m b o) (m b (o + 1)) (m b (o + 2)) (m b (o + 3)),
   mkState m (st_log s ++ [Load p 4]) (st_endian s)).

(** [*p = v] for an [int * p]. *)
Definition store_int (host : byte_order) (p : ptr) (v : Z) (s : state) : state :=
  mkState
    (write_bytes p [byte_at host v 0; byte_at host v 1;
                    byte_at host v 2; byte_at host v 3] (st_mem s))
    (st_log s ++ [Store p 4])
    (st_endian s).

(** [memcpy(dst, src, n)] of the C library, for regions that do not overlap. *)
Definition memcpy (dst src : ptr) (n : Z) (s : state) : state :=
  let m := st_mem s in
  mkState
    (fun b o =>
       if block_eqb b (fst dst) && (snd dst <=? o) && (o <? snd dst + n)
       then m (fst src) (snd src + (o - snd dst))
       else m b o)
    (st_log s ++ [Load src n; Store dst n])
    (st_endian s).

(* ================================================================= *)
(** ** Channel codec *)

Definition LITTLE_ENDIAN : Z := 0.
Definition BIG_ENDIAN : Z := 1.

(** [~0U], the value of [endian] before the first call of [get_endian]. *)
Definition ENDIAN_UNSET : Z := 2 ^ 32 - 1.

Definition get_endian (host : byte_order) (s : state) : Z * state :=
  let x := 1 in
  let s' :=
    if st_endian s =? ENDIAN_UNSET then
      if 1 =? byte_at host x 0
      then mkState (st_mem s) (st_log s) LITTLE_ENDIAN
      else mkState (st_mem s) (st_log s) BIG_ENDIAN
    else s in
  (st_endian s', s').

Definition convert_color (host : byte_order) (origin : Z) (s : state) : Z * state :=
  let orPtr := byte_at host origin in
  let (e, s') := get_endian host s in
  let result :=
    if e =? BIG_ENDIAN
    then int_of_bytes host (orPtr 1) (orPtr 2) (orPtr 3) (orPtr 0)
    else int_of_bytes host (orPtr 2) (orPtr 1) (orPtr 0) (orPtr 3) in
  (result, s').

(** A pixel as its four channel bytes. *)
Record rgba := mkRgba { chR : Z; chG : Z; chB : Z; chA : Z }.

Definition color_to_rgba (host : byte_order) (color : Z) : rgba :=
  let p := byte_at host color in
  mkRgba (p 0) (p 1) (p 2) (p 3).

(** [rgba_to_color(r, g, b, a, color)] stores the four bytes at [color]. *)
Definition rgba_to_color (r g b a : Z) (color : ptr) (s : state) : state :=
  mkState (write_bytes color [r; g; b; a] (st_mem s))
          (st_log s ++ [Store color 4])
          (st_endian s).

(* ================================================================= *)
(** ** Small helpers of the source *)

(** The loop [while (ptr < maxPtr) { *ptr++ = val; }], given [fuel] for at
    most [fuel] iterations. *)
Fixpoint memset_loop (host : byte_order) (fuel : nat) (maxPtr p : ptr) (val : Z)
  (s : state) : state :=
  match fuel with
  | O => s
  | S fuel' =>
      if ptr_ltb p maxPtr
      then memset_loop host fuel' maxPtr (padd_int p 1) val (store_int host p val s)
      else s
  end.

(** [maxPtr = dst + size] with a [size_t size].  The loop advances by 4
    bytes per iteration, so the distance in bytes from [dst] to [maxPtr] is
    fuel enough for it to run until [ptr < maxPtr] fails. *)
Definition memset_int (host : byte_order) (dst : ptr) (val size : Z)
  (s : state) : state :=
  let maxPtr := padd_size dst size in
  memset_loop host (Z.to_nat (snd maxPtr - snd dst)) maxPtr dst val s.

Definition ceil (num multiple : Z) : Z :=
  let remainder := rem32 num multiple in
  if remainder =? 0 then num
  else add32 (sub32 num remainder) multiple.

Definition floor (num multiple : Z) : Z :=
  let remainder := rem32 num multiple in
  if remainder =? 0 then num
  else sub32 num remainder.

(* ================================================================= *)
(** ** Block averager *)

(** One accumulator pair [( *x, *y)] of [average_step]; both are
    [unsigned char]. *)
Definition average_step (num count : Z) (xy : Z * Z) : Z * Z :=
  let x := to_uchar (fst xy + Z.quot num count) in
  let y := to_uchar (snd xy + Z.rem num count) in
  if count <=? y then (to_uchar (x + 1), to_uchar (y - count))
  else (x, y).

(** The eight accumulators [r1 r2 g1 g2 b1 b2 a1 a2], as four pairs. *)
Record accum := mkAccum {
  accR : Z * Z; accG : Z * Z; accB : Z * Z; accA : Z * Z
}.

Definition accum0 : accum := mkAccum (0, 0) (0, 0) (0, 0) (0, 0).

Definition accumulate (count : Z) (px : rgba) (acc : accum) : accum :=
  mkAccum (average_step (chR px) count (accR acc))
          (average_step (chG px) count (accG acc))
          (average_step (chB px) count (accB acc))
          (average_step (chA px) count (accA acc)).

(** The inner loop [for (j = ...; j < ratio; j++)] with [n] iterations left. *)
Fixpoint bilinear_row (host : byte_order) (n : nat) (p : ptr) (w i j count : Z)
  (acc : accum) (s : state) : accum * state :=
  match n with
  | O => (acc, s)
  | S n' =>
      let (color, s1) := load_int host (padd_int (padd_int p (mul32 w i)) j) s in
      let acc1 := accumulate count (color_to_rgba host color) acc in
      bilinear_row host n' p w i (add32 j 1) count acc1 s1
  end.

(** The outer loop [for (i = ...; i < ratio; i++)] with [n] iterations left. *)
Fixpoint bilinear_rows (host : byte_order) (n : nat) (p : ptr) (w i ratio count : Z)
  (acc : accum) (s : state) : accum * state :=
  match n with
  | O => (acc, s)
  | S n' =>
      let (acc1, s1) := bilinear_row host (Z.to_nat ratio) p w i 0 count acc s in
      bilinear_rows host n' p w (add32 i 1) ratio count acc1 s1
  end.

Definition bilinear_color (host : byte_order) (p : ptr) (w ratio : Z)
  (result : ptr) (s : state) : state :=
  let count := mul32 ratio ratio in
  let (acc, s1) := bilinear_rows host (Z.to_nat ratio) p w 0 ratio count accum0 s in
  rgba_to_color (fst (accR acc)) (fst (accG acc)) (fst (accB acc)) (fst (accA acc))
                result s1.

(* ================================================================= *)
(** ** Row copier *)

(** [for (i = 0; i < count; ++i, ++dst, src += ratio)] with [n] iterations
    left. *)
Fixpoint copy_color_loop (host : byte_order) (n : nat) (dst src : ptr)
  (src_w ratio : Z) (s : state) : state :=
  match n with
  | O => s
  | S n' =>
      copy_color_loop host n' (padd_int dst 1) (padd_int src ratio) src_w ratio
                      (bilinear_color host src src_w ratio dst s)
  end.

Definition copy_color_internal (host : byte_order) (dst src : ptr)
  (src_w count ratio : Z) (s : state) : state :=
  copy_color_loop host (Z.to_nat count) dst src src_w ratio s.

Definition copy_color (host : byte_order) (dst src : ptr)
  (src_w count ratio : Z) (s : state) : state :=
  if ratio =? 1 then memcpy dst src (to_size_t (mul32 count 4)) s
  else copy_color_internal host dst src src_w (div32 count ratio) ratio s.

(* ================================================================= *)
(** ** Region blitter: clipping *)

(** The rectangle as [copy_pixels_internal] holds it in its parameters
    [src_x], [src_y], [dst_x], [dst_y], [width] and [height]. *)
Record geometry := mkGeometry {
  gsrc_x : Z; gsrc_y : Z;
  gdst_x : Z; gdst_y : Z;
  gwidth : Z; gheight : Z
}.

(** "Check ratio", "Make width and height is multiple of ratio" and
    "Avoid ratio is too big to render". *)
Definition clip_ratio (ratio : Z) (g : geometry) : option geometry :=
  if ratio <=? 0 then None
  else
    let width := floor (gwidth g) ratio in
    let height := floor (gheight g) ratio in
    if (ratio >? width) || (ratio >? height) then None
    else Some (mkGeometry (gsrc_x g) (gsrc_y g) (gdst_x g) (gdst_y g) width height).

(** "Make sure x >= 0" on one axis: source offset [sp], destination offset
    [dp] and extent [len].  The source writes this block once for
    [src_x], [dst_x], [width] and once for [src_y], [dst_y], [height]. *)
Definition clip_low (ratio : Z) (a : Z * Z * Z) : option (Z * Z * Z) :=
  let '(sp, dp, len) := a in
  let '(sp, dp, len) :=
    if sp <? 0 then
      let temp := ceil (neg32 sp) ratio in
      (add32 sp temp, add32 dp (div32 temp ratio), sub32 len temp)
    else (sp, dp, len) in
  let '(sp, dp, len) :=
    if dp <? 0 then
      let temp := mul32 (neg32 dp) ratio in
      (add32 sp temp, 0, sub32 len temp)
    else (sp, dp, len) in
  if len <=? 0 then None else Some (sp, dp, len).

(** "Make sure x + width <= w" on one axis, against the source extent
    [smax] and the destination extent [dmax]; only [len] changes. *)
Definition clip_high (ratio smax dmax : Z) (a : Z * Z * Z) : option (Z * Z * Z) :=
  let '(sp, dp, len) := a in
  let temp := sub32 (add32 sp len) smax in
  let len := if temp >? 0 then sub32 len (ceil temp ratio) else len in
  let temp := sub32 (add32 dp (div32 len ratio)) dmax in
  let len := if temp >? 0 then sub32 len (mul32 temp ratio) else len in
  if len <=? 0 then None else Some (sp, dp, len).

Definition x_axis (g : geometry) : Z * Z * Z := (gsrc_x g, gdst_x g, gwidth g).
Definition y_axis (g : geometry) : Z * Z * Z := (gsrc_y g, gdst_y g, gheight g).

Definition set_x_axis (g : geometry) (a : Z * Z * Z) : geometry :=
  let '(sp, dp, len) := a in
  mkGeometry sp (gsrc_y g) dp (gdst_y g) len (gheight g).

Definition set_y_axis (g : geometry) (a : Z * Z * Z) : geometry :=
  let '(sp, dp, len) := a in
  mkGeometry (gsrc_x g) sp (gdst_x g) dp (gwidth g) len.

Definition clip_x_low (ratio : Z) (g : geometry) : option geometry :=
  option_map (set_x_axis g) (clip_low ratio (x_axis g)).

Definition clip_y_low (ratio : Z) (g : geometry) : option geometry :=
  option_map (set_y_axis g) (clip_low ratio (y_axis g)).

Definition clip_x_high (ratio src_w dst_w : Z) (g : geometry) : option geometry :=
  option_map (set_x_axis g) (clip_high ratio src_w dst_w (x_axis g)).

Definition clip_y_high (ratio src_h dst_h : Z) (g : geometry) : option geometry :=
  option_map (set_y_axis g) (clip_high ratio src_h dst_h (y_axis g)).

Definition obind {A B : Type} (o : option A) (f : A -> option B) : option B :=
  match o with Some a => f a | None => None end.

(** Lines 160 to 232 of the source: every [return false] is a [None]. *)
Definition clip (dst_w dst_h src_w src_h ratio : Z) (g : geometry) : option geometry :=
  obind (clip_ratio ratio g) (fun g0 =>
  obind (clip_x_low ratio g0) (fun g1 =>
  obind (clip_y_low ratio g1) (fun g2 =>
  obind (clip_x_high ratio src_w dst_w g2) (fun g3 =>
  clip_y_high ratio src_h dst_h g3)))).

(* ================================================================= *)
(** ** Region blitter: rows and fills *)

(** [dst_pos += dst_blank_length] for an [int dst_pos] and a [size_t]
    right-hand side: the sum is taken in [size_t] and converted back. *)
Definition add_size_to_int (a n : Z) : Z :=
  wrap32 (to_size_t (to_size_t a + n)).

(** The loop "Other lines" with [n] iterations left; it returns the final
    [dst_pos], [src_pos] and state. *)
Fixpoint other_lines (host : byte_order) (n : nat) (dst src : ptr)
  (src_w width ratio : Z) (fill_blank : bool) (fill_color : Z)
  (dst_blank_length src_stride dst_pos src_pos : Z) (s : state)
  : Z * Z * state :=
  match n with
  | O => (dst_pos, src_pos, s)
  | S n' =>
      let s1 :=
        if fill_blank && negb (dst_blank_length =? 0)
        then memset_int host (padd dst dst_pos) fill_color (dst_blank_length / 4) s
        else s in
      let dst_pos1 := add_size_to_int dst_pos dst_blank_length in
      let s2 := copy_color host (padd dst dst_pos1) (padd src src_pos) src_w width ratio s1 in
      other_lines host n' dst src src_w width ratio fill_blank fill_color
                  dst_blank_length src_stride
                  (add32 dst_pos1 (mul32 width 4)) (add32 src_pos src_stride) s2
  end.

(** Lines 234 to 267 of the source, run on the clipped rectangle. *)
Definition blit (host : byte_order) (dst : ptr) (dst_w dst_h : Z) (src : ptr)
  (src_w ratio : Z) (fill_blank : bool) (fill_color : Z) (g : geometry)
  (s : state) : state :=
  let src_x := gsrc_x g in
  let src_y := gsrc_y g in
  let dst_x := gdst_x g in
  let dst_y := gdst_y g in
  let width := gwidth g in
  let height := gheight g in
  (* Init *)
  let src_pos := mul32 (add32 (mul32 src_y src_w) src_x) 4 in
  let dst_pos := 0 in
  let src_stride := mul32 (mul32 src_w 4) ratio in
  (* Start blank *)
  let dst_blank_length := to_size_t (to_size_t (add32 (mul32 dst_y dst_w) dst_x) * 4) in
  let s1 :=
    if fill_blank
    then memset_int host (padd dst dst_pos) fill_color (dst_blank_length / 4) s
    else s in
  (* First line *)
  let dst_pos := add_size_to_int dst_pos dst_blank_length in
  let s2 := copy_color host (padd dst dst_pos) (padd src src_pos) src_w width ratio s1 in
  let dst_pos := add32 dst_pos (mul32 width 4) in
  let src_pos := add32 src_pos src_stride in
  (* Other lines *)
  let dst_blank_length := to_size_t (mul32 (sub32 dst_w width) 4) in
  let '(dst_pos, src_pos, s3) :=
    other_lines host (Z.to_nat (div32 height ratio - 1)) dst src src_w width ratio
                fill_blank fill_color dst_blank_length src_stride dst_pos src_pos s2 in
  (* Fill left blank if necessary *)
  if fill_blank
  then memset_int host (padd dst dst_pos) fill_color
         (to_size_t (sub32 (mul32 (mul32 dst_w dst_h) 4) dst_pos) / 4) s3
  else s3.

Definition copy_pixels_internal (host : byte_order)
  (dst : ptr) (dst_w dst_h dst_x dst_y : Z)
  (src : ptr) (src_w src_h src_x src_y : Z)
  (width height ratio : Z) (fill_blank : bool) (fill_color : Z)
  (s : state) : bool * state :=
  match clip dst_w dst_h src_w src_h ratio
             (mkGeometry src_x src_y dst_x dst_y width height) with
  | None => (false, s)
  | Some g => (true, blit host dst dst_w dst_h src src_w ratio fill_blank fill_color g s)
  end.

Definition copy_pixels (host : byte_order)
  (dst : ptr) (dst_w dst_h dst_x dst_y : Z)
  (src : ptr) (src_w src_h src_x src_y : Z)
  (width height ratio : Z) (fill_blank : bool) (fill_color : Z)
  (s : state) : state :=
  let (color, s1) :=
    if fill_blank then convert_color host fill_color s else (0, s) in
  let (ok, s2) :=
    copy_pixels_internal host dst dst_w dst_h dst_x dst_y
                         src src_w src_h src_x src_y
                         width height ratio fill_blank color s1 in
  if negb ok && fill_blank
  then memset_int host dst color (to_size_t (mul32 dst_w dst_h)) s2
  else s2.

(** The two buffers of a call and a state in which nothing has been logged. *)
Definition dst_buf : ptr := (Dst, 0).
Definition src_buf : ptr := (Src, 0).

Definition start (m : memory) (cache : Z) : state := mkState m [] cache.

(** Byte sizes of the two buffers, from their stated widths and heights. *)
Definition buffer_size (dst_w dst_h src_w src_h : Z) (b : block) : Z :=
  match b with
  | Dst => dst_w * dst_h * 4
  | Src => src_w * src_h * 4
  end.

(** The pixel stored at byte offset [o] of buffer [b]. *)
Definition pixel_at (host : byte_order) (m : memory) (b : block) (o : Z) : Z :=
  int_of_bytes host (m b o) (m b (o + 1)) (m b (o + 2)) (m b (o + 3)).

(* ================================================================= *)
(** ** Notions used in the statements *)

Definition is_byte (b : Z) : Prop := 0 <= b <= 255.

(** The channels a caller means by an external colour value: the spec's
    A,R,G,B convention, that is the bytes of [0xAARRGGBB] from the most
    significant one down. *)
Definition external_channels (value : Z) : rgba :=
  mkRgba (Z.land (Z.shiftr value 16) 255)
         (Z.land (Z.shiftr value 8) 255)
         (Z.land value 255)
         (Z.land (Z.shiftr value 24) 255).

Definition endian_code (host : byte_order) : Z :=
  match host with
  | LittleEndian => LITTLE_ENDIAN
  | BigEndian => BIG_ENDIAN
  end.

(** The [endian] cache is either still unset or holds what [get_endian]
    detects on this host. *)
Definition endian_cache_ok (host : byte_order) (s : state) : Prop :=
  st_endian s = ENDIAN_UNSET \/ st_endian s = endian_code host.

(** Memory outside buffer [blk] is the same in [s] and [s']. *)
Definition same_outside (blk : block) (s s' : state) : Prop :=
  forall b o, b <> blk -> st_mem s' b o = st_mem s b o.

(** The stores of a log, in order. *)
Definition stores (l : list access) : list access := filter is_store l.

(** [n] consecutive stores of [val], at [p], [p + 1], ...: what a run of
    the loop of [memset_int] with [n] iterations does. *)
Fixpoint store_run (host : byte_order) (n : nat) (p : ptr) (val : Z)
  (s : state) : state :=
  match n with
  | O => s
  | S n' => store_run host n' (padd_int p 1) val (store_int host p val s)
  end.

(** The calls of the block averager made for [n] output pixels: the [k]-th
    one reads the block at [src + ratio * k] and writes the pixel [dst + k]. *)
Definition averager_calls (host : byte_order) (n : nat) (dst src : ptr)
  (src_w ratio : Z) (s : state) : state :=
  fold_left
    (fun st k => bilinear_color host (padd_int src (ratio * Z.of_nat k)) src_w ratio
                                (padd_int dst (Z.of_nat k)) st)
    (seq 0 n) s.

(** Offsets and extents that keep every product of the clipping inside
    an [int]. *)
Definition COORD_MAX : Z := 2 ^ 15.

(** Buffer widths and heights whose byte length still fits an [int]. *)
Definition DIM_MAX : Z := 2 ^ 29 - 1.

Definition small (z : Z) : Prop := - COORD_MAX <= z <= COORD_MAX.

Definition small_geometry (g : geometry) : Prop :=
  small (gsrc_x g) /\ small (gsrc_y g) /\ small (gdst_x g) /\ small (gdst_y g) /\
  small (gwidth g) /\ small (gheight g).

(** What holds of one axis before "Make sure x >= 0" ... *)
Definition low_pre (ratio : Z) (a : Z * Z * Z) : Prop :=
  let '(sp, dp, len) := a in
  small sp /\ small dp /\ 0 < ratio <= len /\ len <= COORD_MAX /\ (ratio | len).

(** ... and after it. *)
Definition low_post (ratio : Z) (a : Z * Z * Z) : Prop :=
  let '(sp, dp, len) := a in
  0 <= sp <= COORD_MAX * COORD_MAX + COORD_MAX /\
  0 <= dp /\ dp * ratio <= COORD_MAX * COORD_MAX + 2 * COORD_MAX /\
  0 < len <= COORD_MAX /\ (ratio | len).

(** The rectangle has positive extents that are multiples of [ratio]. *)
Definition aligned (ratio : Z) (g : geometry) : Prop :=
  0 < gwidth g /\ 0 < gheight g /\ (ratio | gwidth g) /\ (ratio | gheight g).

(** The rectangle lies inside the source buffer and, scaled down by
    [ratio], inside the destination buffer. *)
Definition inside (dst_w dst_h src_w src_h ratio : Z) (g : geometry) : Prop :=
  0 <= gsrc_x g /\ 0 <= gsrc_y g /\
  gsrc_x g + gwidth g <= src_w /\ gsrc_y g + gheight g <= src_h /\
  0 <= gdst_x g /\ 0 <= gdst_y g /\
  gdst_x g + gwidth g / ratio <= dst_w /\ gdst_y g + gheight g / ratio <= dst_h.

(** Buffer widths and heights: non-negative and at most [DIM_MAX]. *)
Definition dims_ok (dst_w dst_h src_w src_h : Z) : Prop :=
  0 <= dst_w <= DIM_MAX /\ 0 <= dst_h <= DIM_MAX /\
  0 <= src_w <= DIM_MAX /\ 0 <= src_h <= DIM_MAX.

(** [s'] has the log of [s] followed by accesses that all satisfy [P]. *)
Definition log_grows (P : access -> Prop) (s s' : state) : Prop :=
  exists evs, st_log s' = st_log s ++ evs /\ Forall P evs.

(** A clipped rectangle given by its offsets and by its extents counted in
    blocks of [ratio] pixels: [Wo] output columns and [R] output rows. *)
Definition clipped (ratio sx sy dx dy Wo R : Z) : geometry :=
  mkGeometry sx sy dx dy (Wo * ratio) (R * ratio).

(** Byte offset of the first pixel of output row [r] in the destination,
    and of the block row it is computed from in the source. *)
Definition dst_row (dst_w dx dy r : Z) : Z := 4 * ((dy + r) * dst_w + dx).

Definition src_row (src_w ratio sx sy r : Z) : Z :=
  4 * ((sy + r * ratio) * src_w + sx).

(** The integers [0, 1, ..., n - 1]. *)
Definition zrange (n : Z) : list Z := map Z.of_nat (seq 0 (Z.to_nat n)).

(** The cells [(i, j)] of a [ratio] by [ratio] block, row by row. *)
Definition block_cells (ratio : Z) : list (Z * Z) :=
  flat_map (fun i => map (fun j => (i, j)) (zrange ratio)) (zrange ratio).

Definition zsum (l : list Z) : Z := fold_right Z.add 0 l.

(** Sum of channel [c] (byte [c] of each pixel) over the block of [ratio] by
    [ratio] pixels that starts at [p] in a buffer [w] pixels wide. *)
Definition channel_sum (m : memory) (p : ptr) (w ratio c : Z) : Z :=
  zsum (map (fun ij => m (fst p) (snd p + 4 * (w * fst ij + snd ij) + c))
            (block_cells ratio)).

(** The channels of the pixel that [q] points to. *)
Definition pixel_rgba (host : byte_order) (m : memory) (q : ptr) : rgba :=
  color_to_rgba host (pixel_at host m (fst q) (snd q)).







(* ================================================================= *)
(** * Properties *)

(** Tactics shared by the proofs. *)
Ltac case_le :=
  match goal with |- context [?x <=? ?y] => destruct (Z.leb_spec x y) end.

Ltac case_lt :=
  match goal with |- context [?x <? ?y] => destruct (Z.ltb_spec x y) end.

Ltac cases_bool := repeat first [case_le | case_lt].

Ltac int_range := unfold in_int, INT_MIN, INT_MAX in *.

(* ================================================================= *)
(** ** Machine integers and bytes *)

Lemma wrap32_id z : in_int z -> wrap32 z = z.
Proof.
  unfold in_int, INT_MIN, INT_MAX, wrap32; intros H.
  rewrite Z.mod_small; lia.
Qed.

Lemma wrap32_in_int z : in_int (wrap32 z).
Proof.
  unfold in_int, INT_MIN, INT_MAX, wrap32.
  pose proof (Z.mod_pos_bound (z + 2 ^ 31) (2 ^ 32) ltac:(lia)); lia.
Qed.

Lemma byte_at_le v k :
  0 <= k -> byte_at LittleEndian v k = (v / 2 ^ (8 * k)) mod 256.
Proof.
  intros Hk; unfold byte_at.
  change 255 with (Z.ones 8).
  rewrite Z.land_ones, Z.shiftr_div_pow2 by lia. reflexivity.
Qed.

Lemma byte_at_be v k :
  k <= 3 -> byte_at BigEndian v k = (v / 2 ^ (8 * (3 - k))) mod 256.
Proof.
  intros Hk; unfold byte_at.
  change 255 with (Z.ones 8).
  rewrite Z.land_ones, Z.shiftr_div_pow2 by lia. reflexivity.
Qed.

Lemma byte_at_is_byte host v k : is_byte (byte_at host v k).
Proof.
  assert (H : forall a, is_byte (Z.land a 255)).
  { intros a; unfold is_byte.
    replace (Z.land a 255) with (a mod 2 ^ 8)
      by (symmetry; apply (Z.land_ones a 8); lia).
    pose proof (Z.mod_pos_bound a (2 ^ 8) ltac:(lia)); lia. }
  unfold byte_at; destruct host; apply H.
Qed.

(** The four bytes of the [int] assembled from [b0 b1 b2 b3] are
    [b0 b1 b2 b3] again. *)
Lemma bytes_of_int_of_bytes host b0 b1 b2 b3 :
  is_byte b0 -> is_byte b1 -> is_byte b2 -> is_byte b3 ->
  let v := int_of_bytes host b0 b1 b2 b3 in
  byte_at host v 0 = b0 /\ byte_at host v 1 = b1 /\
  byte_at host v 2 = b2 /\ byte_at host v 3 = b3.
Proof.
  intros H0 H1 H2 H3 v; subst v; unfold is_byte in *.
  destruct host.
  - rewrite !byte_at_le by lia. unfold int_of_bytes, wrap32.
    change (2 ^ (8 * 0)) with 1; change (2 ^ (8 * 1)) with 256;
    change (2 ^ (8 * 2)) with 65536; change (2 ^ (8 * 3)) with 16777216.
    change (2 ^ 8) with 256; change (2 ^ 16) with 65536;
    change (2 ^ 24) with 16777216; change (2 ^ 31) with 2147483648;
    change (2 ^ 32) with 4294967296.
    repeat split; Z.to_euclidean_division_equations; lia.
  - rewrite !byte_at_be by lia. unfold int_of_bytes, wrap32.
    change (2 ^ (8 * (3 - 0))) with 16777216; change (2 ^ (8 * (3 - 1))) with 65536;
    change (2 ^ (8 * (3 - 2))) with 256; change (2 ^ (8 * (3 - 3))) with 1.
    change (2 ^ 8) with 256; change (2 ^ 16) with 65536;
    change (2 ^ 24) with 16777216; change (2 ^ 31) with 2147483648;
    change (2 ^ 32) with 4294967296.
    repeat split; Z.to_euclidean_division_equations; lia.
Qed.

(** An [int] is the [int] assembled from its four bytes. *)
Lemma int_of_bytes_of_int host v :
  in_int v ->
  int_of_bytes host (byte_at host v 0) (byte_at host v 1)
                    (byte_at host v 2) (byte_at host v 3) = v.
Proof.
  unfold in_int, INT_MIN, INT_MAX; intros Hv.
  destruct host.
  - rewrite !byte_at_le by lia. unfold int_of_bytes, wrap32.
    change (2 ^ (8 * 0)) with 1; change (2 ^ (8 * 1)) with 256;
    change (2 ^ (8 * 2)) with 65536; change (2 ^ (8 * 3)) with 16777216.
    change (2 ^ 8) with 256; change (2 ^ 16) with 65536;
    change (2 ^ 24) with 16777216; change (2 ^ 31) with 2147483648 in *;
    change (2 ^ 32) with 4294967296.
    Z.to_euclidean_division_equations; lia.
  - rewrite !byte_at_be by lia. unfold int_of_bytes, wrap32.
    change (2 ^ (8 * (3 - 0))) with 16777216; change (2 ^ (8 * (3 - 1))) with 65536;
    change (2 ^ (8 * (3 - 2))) with 256; change (2 ^ (8 * (3 - 3))) with 1.
    change (2 ^ 8) with 256; change (2 ^ 16) with 65536;
    change (2 ^ 24) with 16777216; change (2 ^ 31) with 2147483648 in *;
    change (2 ^ 32) with 4294967296.
    Z.to_euclidean_division_equations; lia.
Qed.

(* ================================================================= *)
(** ** Channel codec *)

Lemma get_endian_detects host s :
  endian_cache_ok host s -> fst (get_endian host s) = endian_code host.
Proof.
  unfold endian_cache_ok, get_endian; intros [H | H]; cbn [fst].
  - rewrite H; destruct host; reflexivity.
  - replace (st_endian s =? ENDIAN_UNSET) with false; [exact H|].
    rewrite H; destruct host; reflexivity.
Qed.

Lemma get_endian_state host s :
  st_mem (snd (get_endian host s)) = st_mem s /\
  st_log (snd (get_endian host s)) = st_log s.
Proof.
  unfold get_endian; cbn [snd].
  destruct (st_endian s =? ENDIAN_UNSET); [destruct (1 =? _)|]; auto.
Qed.

Lemma convert_color_state host origin s :
  st_mem (snd (convert_color host origin s)) = st_mem s /\
  st_log (snd (convert_color host origin s)) = st_log s.
Proof.
  unfold convert_color.
  pose proof (get_endian_state host s) as H.
  destruct (get_endian host s) as [e s']; exact H.
Qed.

Lemma convert_color_in_int host origin s :
  in_int (fst (convert_color host origin s)).
Proof.
  unfold convert_color. destruct (get_endian host s) as [e s']; cbn [fst].
  destruct (e =? BIG_ENDIAN); destruct host; apply wrap32_in_int.
Qed.

(** C9: on either byte order, unpacking the converted colour gives the
    R, G, B, A channels that the external value [0xAARRGGBB] stands for. *)
Theorem convert_color_unpack (host : byte_order) (value : Z) (s : state) :
  endian_cache_ok host s ->
  color_to_rgba host (fst (convert_color host value s)) = external_channels value.
Proof.
  intros Hc. pose proof (get_endian_detects host s Hc) as He.
  unfold convert_color. destruct (get_endian host s) as [e s']; cbn [fst] in *.
  subst e. unfold color_to_rgba, external_channels.
  destruct host; cbn [endian_code];
    [change (LITTLE_ENDIAN =? BIG_ENDIAN) with false
    |change (BIG_ENDIAN =? BIG_ENDIAN) with true]; cbv iota.
  - destruct (bytes_of_int_of_bytes LittleEndian
                (byte_at LittleEndian value 2) (byte_at LittleEndian value 1)
                (byte_at LittleEndian value 0) (byte_at LittleEndian value 3))
      as (E0 & E1 & E2 & E3); try apply byte_at_is_byte.
    rewrite E0, E1, E2, E3. reflexivity.
  - destruct (bytes_of_int_of_bytes BigEndian
                (byte_at BigEndian value 1) (byte_at BigEndian value 2)
                (byte_at BigEndian value 3) (byte_at BigEndian value 0))
      as (E0 & E1 & E2 & E3); try apply byte_at_is_byte.
    rewrite E0, E1, E2, E3. reflexivity.
Qed.

Lemma convert_color_unpack_witness :
  color_to_rgba BigEndian
    (fst (convert_color BigEndian (-65536) (start (fun _ _ => 0) ENDIAN_UNSET)))
  = external_channels (-65536).
Proof.
  apply (convert_color_unpack BigEndian (-65536)).
  left; reflexivity.
Defined.

(* ================================================================= *)
(** ** Pointers, stores and fills *)

Lemma block_eqb_eq a b : block_eqb a b = true <-> a = b.
Proof. destruct a, b; cbn; split; congruence. Qed.

Lemma block_eqb_refl a : block_eqb a a = true.
Proof. destruct a; reflexivity. Qed.

Lemma block_eqb_neq a b : a <> b -> block_eqb a b = false.
Proof. destruct a, b; cbn; congruence. Qed.

Lemma padd_int_add p a b : padd_int (padd_int p a) b = padd_int p (a + b).
Proof. unfold padd_int; cbn [fst snd]; f_equal; lia. Qed.

Lemma padd_int_0 p : padd_int p 0 = p.
Proof. destruct p; unfold padd_int; cbn [fst snd]; f_equal; lia. Qed.


(** What [store_run] leaves in memory: [n] copies of the bytes of [val]
    from [p] on, the rest as before. *)
Lemma store_run_mem host n : forall p val s b o,
  st_mem (store_run host n p val s) b o =
  if block_eqb b (fst p) && (snd p <=? o) && (o <? snd p + 4 * Z.of_nat n)
  then byte_at host val ((o - snd p) mod 4)
  else st_mem s b o.
Proof.
  induction n as [|n IH]; intros p val s b o.
  - cbn [store_run]. destruct (block_eqb b (fst p)); cbn [andb]; [|reflexivity].
    cases_bool; cbn [andb]; try reflexivity; lia.
  - cbn [store_run]. rewrite IH. cbn [padd_int fst snd store_int st_mem].
    unfold write_bytes. cbn [length].
    destruct (block_eqb b (fst p)); cbn [andb]; [|reflexivity].
    cases_bool; cbn [andb]; try reflexivity; try lia.
    + f_equal. Z.to_euclidean_division_equations; lia.
    + assert (Hd : o - snd p = 0 \/ o - snd p = 1 \/ o - snd p = 2 \/ o - snd p = 3) by lia.
      destruct Hd as [E | [E | [E | E]]]; rewrite E; reflexivity.
Qed.

Lemma store_run_log host n : forall p val s,
  st_log (store_run host n p val s) =
  st_log s ++ map (fun k => Store (padd_int p (Z.of_nat k)) 4) (seq 0 n).
Proof.
  induction n as [|n IH]; intros p val s.
  - cbn. now rewrite app_nil_r.
  - cbn [store_run]. rewrite IH. cbn [store_int st_log].
    rewrite <- app_assoc. f_equal. cbn [app seq map].
    change (Z.of_nat 0) with 0. rewrite padd_int_0. f_equal.
    rewrite <- seq_shift, map_map. apply map_ext; intros k.
    rewrite padd_int_add. f_equal. f_equal. lia.
Qed.

Lemma store_run_endian host n : forall p val s,
  st_endian (store_run host n p val s) = st_endian s.
Proof.
  induction n as [|n IH]; intros; cbn [store_run]; [reflexivity|].
  rewrite IH; reflexivity.
Qed.

Lemma wrap64_id z : - 2 ^ 63 <= z < 2 ^ 63 -> wrap64 z = z.
Proof. intros H. unfold wrap64. rewrite Z.mod_small; lia. Qed.


Lemma wrap64_le z : - 2 ^ 63 <= z -> wrap64 z <= z.
Proof.
  intros H. unfold wrap64.
  pose proof (Z.mod_le (z + 2 ^ 63) (2 ^ 64) ltac:(lia) ltac:(lia)). lia.
Qed.

(** The loop of [memset_int] with fuel for the whole distance runs until
    its test fails: it makes one store for every 4 bytes, or part of them,
    between [p] and [maxPtr], and none when [maxPtr] is not above [p]. *)
Lemma memset_loop_run host fuel : forall maxPtr p val s,
  snd maxPtr - snd p <= Z.of_nat fuel ->
  memset_loop host fuel maxPtr p val s
  = store_run host (Z.to_nat ((snd maxPtr - snd p + 3) / 4)) p val s.
Proof.
  induction fuel as [|fuel IH]; intros maxPtr p val s Hf; cbn [memset_loop].
  - replace (Z.to_nat ((snd maxPtr - snd p + 3) / 4)) with O; [reflexivity|].
    assert ((snd maxPtr - snd p + 3) / 4 <= 0)
      by (Z.to_euclidean_division_equations; lia).
    lia.
  - unfold ptr_ltb. destruct (Z.ltb_spec (snd p) (snd maxPtr)) as [Hlt | Hge].
    + rewrite IH by (unfold padd_int; cbn [snd]; lia).
      assert (E : (snd maxPtr - snd p + 3) / 4
                  = (snd maxPtr - snd (padd_int p 1) + 3) / 4 + 1)
        by (unfold padd_int; cbn [snd]; Z.to_euclidean_division_equations; lia).
      assert (0 <= (snd maxPtr - snd (padd_int p 1) + 3) / 4)
        by (unfold padd_int; cbn [snd]; Z.to_euclidean_division_equations; lia).
      rewrite E, Z2Nat.inj_add by lia.
      rewrite Nat.add_comm. reflexivity.
    + replace (Z.to_nat ((snd maxPtr - snd p + 3) / 4)) with O; [reflexivity|].
      assert ((snd maxPtr - snd p + 3) / 4 <= 0)
        by (Z.to_euclidean_division_equations; lia).
      lia.
Qed.

(** [memset_int] as a run of stores. *)
Lemma memset_int_run host p val size s :
  memset_int host p val size s
  = store_run host (Z.to_nat ((wrap64 (snd p + 4 * size) - snd p + 3) / 4)) p val s.
Proof.
  unfold memset_int. cbv zeta. rewrite memset_loop_run; [reflexivity|].
  unfold padd_size. cbn [snd]. lia.
Qed.

(** When [dst + size] does not wrap the address space the loop runs
    [size] times. *)
Lemma memset_int_exact host p val size s :
  - 2 ^ 63 <= snd p + 4 * size < 2 ^ 63 ->
  memset_int host p val size s = store_run host (Z.to_nat size) p val s.
Proof.
  intros H. rewrite memset_int_run, wrap64_id by exact H.
  do 2 f_equal. Z.to_euclidean_division_equations; lia.
Qed.


(** The loop never runs more than [size] times. *)
Lemma memset_int_count (p : ptr) size :
  - 2 ^ 63 <= snd p + 4 * size ->
  (wrap64 (snd p + 4 * size) - snd p + 3) / 4 <= Z.max size 0.
Proof.
  intros H. pose proof (wrap64_le _ H).
  Z.to_euclidean_division_equations; lia.
Qed.

(** A pixel of the filled range reads back as the fill value. *)
Lemma memset_int_pixel host p val size s i :
  in_int val -> 0 <= i < size ->
  - 2 ^ 63 <= snd p -> snd p + 4 * size < 2 ^ 63 ->
  pixel_at host (st_mem (memset_int host p val size s)) (fst p) (snd p + 4 * i) = val.
Proof.
  intros Hv Hi Hp0 Hp1. unfold pixel_at.
  rewrite memset_int_exact by lia.
  rewrite !store_run_mem, block_eqb_refl. cbn [andb].
  rewrite Z2Nat.id by lia.
  repeat match goal with
    | |- context [(?a <=? ?b) && (?c <? ?d)] =>
        replace ((a <=? b) && (c <? d)) with true
          by (symmetry; apply andb_true_intro; split;
              [apply Z.leb_le | apply Z.ltb_lt]; lia)
    end.
  replace ((snd p + 4 * i - snd p) mod 4) with 0
    by (Z.to_euclidean_division_equations; lia).
  replace ((snd p + 4 * i + 1 - snd p) mod 4) with 1
    by (Z.to_euclidean_division_equations; lia).
  replace ((snd p + 4 * i + 2 - snd p) mod 4) with 2
    by (Z.to_euclidean_division_equations; lia).
  replace ((snd p + 4 * i + 3 - snd p) mod 4) with 3
    by (Z.to_euclidean_division_equations; lia).
  apply int_of_bytes_of_int; exact Hv.
Qed.

(* ================================================================= *)
(** ** Frame: what a call leaves alone *)



Lemma memset_int_outside host p val size s :
  same_outside (fst p) s (memset_int host p val size s).
Proof.
  intros b o Hb. rewrite memset_int_run, store_run_mem.
  rewrite block_eqb_neq by exact Hb. reflexivity.
Qed.

Lemma memcpy_outside dst src n s : same_outside (fst dst) s (memcpy dst src n s).
Proof.
  intros b o Hb. cbn [memcpy st_mem]. rewrite block_eqb_neq by exact Hb. reflexivity.
Qed.

Lemma bilinear_row_mem host n : forall p w i j count acc s,
  st_mem (snd (bilinear_row host n p w i j count acc s)) = st_mem s.
Proof.
  induction n as [|n IH]; intros; cbn [bilinear_row]; [reflexivity|].
  unfold load_int. rewrite IH. reflexivity.
Qed.

Lemma bilinear_rows_mem host n : forall p w i ratio count acc s,
  st_mem (snd (bilinear_rows host n p w i ratio count acc s)) = st_mem s.
Proof.
  induction n as [|n IH]; intros; cbn [bilinear_rows]; [reflexivity|].
  pose proof (bilinear_row_mem host (Z.to_nat ratio) p w i 0 count acc s) as H.
  destruct (bilinear_row host (Z.to_nat ratio) p w i 0 count acc s) as [acc1 s1].
  rewrite IH. exact H.
Qed.







(* ================================================================= *)
(** ** Failure of the clipping *)

Lemma clip_nonpositive_ratio dst_w dst_h src_w src_h ratio g :
  ratio <= 0 -> clip dst_w dst_h src_w src_h ratio g = None.
Proof.
  intros H. unfold clip, clip_ratio.
  destruct (Z.leb_spec ratio 0); [reflexivity | lia].
Qed.

Lemma copy_pixels_internal_reports host dst dst_w dst_h dst_x dst_y src src_w src_h
    src_x src_y width height ratio fill_blank fill_color s :
  fst (copy_pixels_internal host dst dst_w dst_h dst_x dst_y src src_w src_h
         src_x src_y width height ratio fill_blank fill_color s) = false
  <-> clip dst_w dst_h src_w src_h ratio
           (mkGeometry src_x src_y dst_x dst_y width height) = None.
Proof.
  unfold copy_pixels_internal.
  destruct (clip dst_w dst_h src_w src_h ratio _); cbn [fst]; split; congruence.
Qed.

(** C7: when the clipping fails (any of the [return false] of
    [copy_pixels_internal]) and [fill_blank] is false, the call changes
    nothing: memory, and so every byte of the destination, is as before, and
    no access is made. *)
Theorem copy_pixels_clip_failure_untouched (host : byte_order)
    (dst : ptr) (dst_w dst_h dst_x dst_y : Z)
    (src : ptr) (src_w src_h src_x src_y : Z)
    (width height ratio fill_color : Z) (s : state) :
  clip dst_w dst_h src_w src_h ratio
       (mkGeometry src_x src_y dst_x dst_y width height) = None ->
  copy_pixels host dst dst_w dst_h dst_x dst_y src src_w src_h src_x src_y
              width height ratio false fill_color s = s.
Proof.
  intros H. unfold copy_pixels, copy_pixels_internal. rewrite H. reflexivity.
Qed.

Lemma copy_pixels_clip_failure_untouched_witness :
  copy_pixels LittleEndian dst_buf 4 4 0 0 src_buf 4 4 (-10) 0 4 4 1 false 0
              (start (fun _ _ => 7) ENDIAN_UNSET)
  = start (fun _ _ => 7) ENDIAN_UNSET.
Proof.
  apply (copy_pixels_clip_failure_untouched LittleEndian dst_buf 4 4 0 0
           src_buf 4 4 (-10) 0 4 4 1 0).
  vm_compute. reflexivity.
Defined.

(** C6: with [ratio = 0] and [fill_blank] set, whatever the other
    arguments, every pixel of the destination buffer (its [dst_w * dst_h]
    pixels, a count that fits an [int]) holds the converted fill colour
    after the call, and the call loads nothing. *)
Theorem copy_pixels_ratio0_fills (host : byte_order)
    (dst_w dst_h dst_x dst_y src_w src_h src_x src_y width height fill_color : Z)
    (m : memory) (cache : Z) :
  in_int (dst_w * dst_h) ->
  let s' := copy_pixels host dst_buf dst_w dst_h dst_x dst_y
                        src_buf src_w src_h src_x src_y
                        width height 0 true fill_color (start m cache) in
  (forall i, 0 <= i < dst_w * dst_h ->
     pixel_at host (st_mem s') Dst (4 * i)
     = fst (convert_color host fill_color (start m cache)))
  /\ Forall (fun a => is_load a = false) (st_log s').
Proof.
  intros Hn s'. subst s'. unfold copy_pixels, copy_pixels_internal.
  rewrite clip_nonpositive_ratio by lia.
  pose proof (convert_color_in_int host fill_color (start m cache)) as Hc.
  destruct (convert_color_state host fill_color (start m cache)) as [_ Hlog].
  destruct (convert_color host fill_color (start m cache)) as [color s1].
  cbn [fst snd negb andb] in *. split.
  - intros i Hi.
    change (4 * i) with (snd dst_buf + 4 * i). change Dst with (fst dst_buf).
    assert (En : to_size_t (mul32 dst_w dst_h) = dst_w * dst_h).
    { unfold mul32. rewrite wrap32_id by exact Hn.
      unfold to_size_t. apply Z.mod_small.
      unfold in_int, INT_MIN, INT_MAX in Hn. lia. }
    rewrite En.
    apply memset_int_pixel; [exact Hc | exact Hi | |];
      unfold dst_buf; cbn [snd]; unfold in_int, INT_MIN, INT_MAX in Hn; lia.
  - rewrite memset_int_run, store_run_log, Hlog. cbn [start st_log app].
    apply Forall_forall. intros a Ha. apply in_map_iff in Ha.
    destruct Ha as (k & <- & _). reflexivity.
Qed.

Lemma copy_pixels_ratio0_fills_witness :
  let s' := copy_pixels LittleEndian dst_buf 4 4 1 1 src_buf 4 4 (-10) 0 4 4 0 true
                        (-65536) (start (fun _ _ => 7) ENDIAN_UNSET) in
  (forall i, 0 <= i < 4 * 4 ->
     pixel_at LittleEndian (st_mem s') Dst (4 * i)
     = fst (convert_color LittleEndian (-65536) (start (fun _ _ => 7) ENDIAN_UNSET)))
  /\ Forall (fun a => is_load a = false) (st_log s').
Proof.
  apply (copy_pixels_ratio0_fills LittleEndian 4 4 1 1 4 4 (-10) 0 4 4 (-65536)).
  unfold in_int, INT_MIN, INT_MAX. lia.
Defined.

(* ================================================================= *)
(** ** Row copier *)

Lemma stores_app l1 l2 : stores (l1 ++ l2) = stores l1 ++ stores l2.
Proof. apply filter_app. Qed.

Lemma bilinear_row_stores host n : forall p w i j count acc s,
  stores (st_log (snd (bilinear_row host n p w i j count acc s))) = stores (st_log s).
Proof.
  induction n as [|n IH]; intros; cbn [bilinear_row]; [reflexivity|].
  unfold load_int. rewrite IH. cbn [st_log].
  rewrite stores_app. cbn. apply app_nil_r.
Qed.

Lemma bilinear_rows_stores host n : forall p w i ratio count acc s,
  stores (st_log (snd (bilinear_rows host n p w i ratio count acc s))) = stores (st_log s).
Proof.
  induction n as [|n IH]; intros; cbn [bilinear_rows]; [reflexivity|].
  pose proof (bilinear_row_stores host (Z.to_nat ratio) p w i 0 count acc s) as H.
  destruct (bilinear_row host (Z.to_nat ratio) p w i 0 count acc s) as [acc1 s1].
  rewrite IH. exact H.
Qed.

(** One call of the block averager stores exactly one pixel, at [result]. *)
Lemma bilinear_color_stores host p w ratio result s :
  stores (st_log (bilinear_color host p w ratio result s))
  = stores (st_log s) ++ [Store result 4].
Proof.
  unfold bilinear_color.
  pose proof (bilinear_rows_stores host (Z.to_nat ratio) p w 0 ratio
                (mul32 ratio ratio) accum0 s) as H.
  destruct (bilinear_rows host (Z.to_nat ratio) p w 0 ratio
              (mul32 ratio ratio) accum0 s) as [acc s1].
  cbn [snd] in H. cbn [rgba_to_color st_log].
  rewrite stores_app, H. reflexivity.
Qed.

Lemma copy_color_loop_calls host n : forall dst src src_w ratio s,
  copy_color_loop host n dst src src_w ratio s
  = averager_calls host n dst src src_w ratio s.
Proof.
  unfold averager_calls.
  induction n as [|n IH]; intros; cbn [copy_color_loop]; [reflexivity|].
  rewrite IH. cbn [seq fold_left].
  change (Z.of_nat 0) with 0. rewrite Z.mul_0_r, !padd_int_0.
  rewrite <- seq_shift. generalize (bilinear_color host src src_w ratio dst s).
  generalize (seq 0 n). intros l; induction l as [|k l IHl]; intros st; [reflexivity|].
  cbn [map fold_left]. rewrite <- IHl. f_equal.
  rewrite !padd_int_add. do 2 f_equal; lia.
Qed.

Lemma copy_color_loop_stores host n : forall dst src src_w ratio s,
  stores (st_log (copy_color_loop host n dst src src_w ratio s))
  = stores (st_log s) ++ map (fun k => Store (padd_int dst (Z.of_nat k)) 4) (seq 0 n).
Proof.
  induction n as [|n IH]; intros; cbn [copy_color_loop].
  - cbn. now rewrite app_nil_r.
  - rewrite IH, bilinear_color_stores, <- app_assoc. f_equal.
    cbn [app seq map]. change (Z.of_nat 0) with 0. rewrite padd_int_0. f_equal.
    rewrite <- seq_shift, map_map. apply map_ext; intros k.
    rewrite padd_int_add. do 2 f_equal. lia.
Qed.

Lemma div32_exact count ratio :
  in_int count -> 1 <= ratio -> div32 count ratio = Z.quot count ratio.
Proof.
  intros Hc Hr. apply wrap32_id.
  unfold in_int, INT_MIN, INT_MAX in *.
  Z.to_euclidean_division_equations; nia.
Qed.

(** C4 (as the code has it): for [ratio >= 2] whose square, the [count]
    of the block averager, does not wrap to 0, the row copier called with
    [count] stores exactly [count / ratio] pixels, [dst], [dst + 1], ...,
    each by one call of the block averager on the block [ratio] source
    pixels further than the last; it divides [count] by [ratio] itself. *)
Theorem copy_color_writes_count_over_ratio (host : byte_order) (dst src : ptr)
    (src_w count ratio : Z) (s : state) :
  2 <= ratio -> mul32 ratio ratio <> 0 -> in_int count ->
  let n := Z.to_nat (Z.quot count ratio) in
  copy_color host dst src src_w count ratio s
    = averager_calls host n dst src src_w ratio s
  /\ stores (st_log (copy_color host dst src src_w count ratio s))
     = stores (st_log s) ++ map (fun k => Store (padd_int dst (Z.of_nat k)) 4) (seq 0 n).
Proof.
  intros Hr _ Hc n. subst n. unfold copy_color.
  destruct (Z.eqb_spec ratio 1) as [E | _]; [lia|].
  unfold copy_color_internal. rewrite div32_exact by (assumption || lia).
  split; [apply copy_color_loop_calls | apply copy_color_loop_stores].
Qed.

Lemma copy_color_writes_count_over_ratio_witness :
  let s := start (fun _ _ => 7) ENDIAN_UNSET in
  copy_color LittleEndian dst_buf src_buf 4 4 2 s
    = averager_calls LittleEndian 2 dst_buf src_buf 4 2 s
  /\ stores (st_log (copy_color LittleEndian dst_buf src_buf 4 4 2 s))
     = stores (st_log s) ++ [Store (Dst, 0) 4; Store (Dst, 4) 4].
Proof.
  apply (copy_color_writes_count_over_ratio LittleEndian dst_buf src_buf 4 4 2).
  - lia.
  - vm_compute. discriminate.
  - unfold in_int, INT_MIN, INT_MAX; lia.
Defined.

(** C4 as stated fails: called with [count = 4] and [ratio = 2] the row
    copier stores two pixels, not four. *)
Lemma copy_color_writes_count_counterexample :
  length (stores (st_log (copy_color LittleEndian dst_buf src_buf 4 4 2
                                     (start (fun _ _ => 7) ENDIAN_UNSET))))
  <> Z.to_nat 4.
Proof. vm_compute. discriminate. Qed.

(* ================================================================= *)
(** ** Exact arithmetic of the clipping *)

Lemma add32_exact a b : in_int (a + b) -> add32 a b = a + b.
Proof. apply wrap32_id. Qed.

Lemma sub32_exact a b : in_int (a - b) -> sub32 a b = a - b.
Proof. apply wrap32_id. Qed.

Lemma mul32_exact a b : in_int (a * b) -> mul32 a b = a * b.
Proof. apply wrap32_id. Qed.

Lemma neg32_exact a : in_int (- a) -> neg32 a = - a.
Proof. apply wrap32_id. Qed.

Lemma rem_range n m :
  0 < m ->
  (0 <= n -> 0 <= Z.rem n m <= n) /\ (n <= 0 -> n <= Z.rem n m <= 0).
Proof.
  intros Hm. split; intros Hn.
  - pose proof (Z.rem_bound_pos n m Hn Hm).
    pose proof (Z.rem_le n m Hn Hm). lia.
  - assert (E : Z.rem n m = - Z.rem (- n) m).
    { rewrite Z.rem_opp_l' ; lia. }
    pose proof (Z.rem_bound_pos (- n) m ltac:(lia) Hm).
    pose proof (Z.rem_le (- n) m ltac:(lia) Hm). lia.
Qed.

Lemma rem32_exact n m : in_int n -> 0 < m -> rem32 n m = Z.rem n m.
Proof.
  intros Hn Hm. apply wrap32_id. int_range.
  destruct (rem_range n m Hm). destruct (Z.le_ge_cases 0 n); lia.
Qed.

(** [floor] rounds towards zero to a multiple of [multiple]. *)
Lemma floor_spec n m : in_int n -> 0 < m -> floor n m = m * Z.quot n m.
Proof.
  intros Hn Hm. unfold floor. rewrite rem32_exact by assumption.
  pose proof (Z.quot_rem' n m) as E.
  destruct (Z.eqb_spec (Z.rem n m) 0) as [E0 | _]; [lia|].
  unfold sub32. rewrite wrap32_id; [lia|].
  int_range. destruct (rem_range n m Hm). destruct (Z.le_ge_cases 0 n); lia.
Qed.

(** [ceil] of a non-negative number is the next multiple of [multiple]. *)
Lemma ceil_spec n m :
  0 <= n -> 0 < m -> n + m <= INT_MAX ->
  exists q, ceil n m = m * q /\ 0 <= q /\ n <= m * q < n + m.
Proof.
  intros Hn Hm Hb. unfold ceil.
  assert (Hi : in_int n) by (int_range; lia).
  rewrite rem32_exact by assumption.
  pose proof (Z.quot_rem' n m) as E.
  pose proof (Z.rem_bound_pos n m Hn Hm) as Hr.
  assert (Hq : 0 <= Z.quot n m) by (apply Z.quot_pos; lia).
  destruct (Z.eqb_spec (Z.rem n m) 0) as [E0 | N0].
  - exists (Z.quot n m). lia.
  - exists (Z.quot n m + 1). unfold add32, sub32.
    rewrite (wrap32_id (n - Z.rem n m)) by (int_range; lia).
    rewrite wrap32_id by (int_range; lia). lia.
Qed.

Lemma quot_mul_exact m q : 0 < m -> Z.quot (m * q) m = q.
Proof. intros Hm. rewrite Z.mul_comm. apply Z.quot_mul. lia. Qed.

Lemma mul_bounds a b A B :
  0 <= a <= A -> 0 <= b <= B -> 0 <= a * b <= A * B.
Proof. intros Ha Hb. split; [apply Z.mul_nonneg_nonneg; lia | apply Z.mul_le_mono_nonneg; lia]. Qed.

Lemma clip_low_sound ratio a a' :
  low_pre ratio a -> clip_low ratio a = Some a' -> low_post ratio a'.
Proof.
  destruct a as [[sp dp] len]. unfold low_pre, small.
  intros (Hsp & Hdp & Hr & Hlen & [L HL]) Hc.
  assert (HC : COORD_MAX = 32768) by reflexivity.
  unfold clip_low in Hc.
  (* first adjustment: the source offset *)
  assert (H1 : exists sp1 dp1 len1,
             (if sp <? 0
              then (add32 sp (ceil (neg32 sp) ratio),
                    add32 dp (div32 (ceil (neg32 sp) ratio) ratio),
                    sub32 len (ceil (neg32 sp) ratio))
              else (sp, dp, len)) = (sp1, dp1, len1)
             /\ 0 <= sp1 <= COORD_MAX /\ - COORD_MAX <= dp1
             /\ dp1 * ratio <= COORD_MAX * COORD_MAX + 2 * COORD_MAX
             /\ - 2 * COORD_MAX <= len1 <= COORD_MAX /\ (ratio | len1)).
  { destruct (Z.ltb_spec sp 0) as [Hneg | Hpos].
    - rewrite (neg32_exact sp) by (int_range; lia).
      destruct (ceil_spec (- sp) ratio) as (q & Eq & Hq0 & Hq); try lia.
      { unfold INT_MAX; lia. }
      rewrite Eq.
      pose proof (mul_bounds q ratio COORD_MAX COORD_MAX) as Hm.
      assert (Hqb : q <= COORD_MAX) by nia.
      rewrite (div32_exact (ratio * q) ratio) by (int_range; lia).
      rewrite quot_mul_exact by lia.
      rewrite (add32_exact sp), (add32_exact dp), (sub32_exact len)
        by (int_range; lia).
      do 3 eexists. split; [reflexivity|].
      repeat split; try lia.
      + pose proof (mul_bounds (- dp) ratio COORD_MAX COORD_MAX). nia.
      + exists (L - q). lia.
    - do 3 eexists. split; [reflexivity|].
      repeat split; try lia.
      + pose proof (mul_bounds dp ratio COORD_MAX COORD_MAX).
        destruct (Z.le_gt_cases 0 dp); nia.
      + exists L; lia. }
  destruct H1 as (sp1 & dp1 & len1 & E1 & Hsp1 & Hdp1 & Hdr1 & Hlen1 & [L1 HL1]).
  rewrite E1 in Hc. clear E1.
  (* second adjustment: the destination offset *)
  destruct (Z.ltb_spec dp1 0) as [Hneg | Hpos].
  - rewrite (neg32_exact dp1) in Hc by (int_range; lia).
    pose proof (mul_bounds (- dp1) ratio COORD_MAX COORD_MAX) as Hm.
    rewrite (mul32_exact (- dp1) ratio) in Hc by (int_range; lia).
    rewrite (add32_exact sp1), (sub32_exact len1) in Hc by (int_range; lia).
    destruct (Z.leb_spec (len1 - - dp1 * ratio) 0); [discriminate|].
    injection Hc as <-. unfold low_post.
    repeat split; try lia.
    exists (L1 + dp1). lia.
  - destruct (Z.leb_spec len1 0); [discriminate|].
    injection Hc as <-. unfold low_post.
    repeat split; try lia.
    exists L1; lia.
Qed.

Lemma floor_bounds n m :
  in_int n -> 0 < m ->
  exists q, floor n m = m * q /\
            (0 <= n -> 0 <= m * q <= n) /\ (n <= 0 -> m * q <= 0).
Proof.
  intros Hn Hm. exists (Z.quot n m). split; [apply floor_spec; assumption|].
  pose proof (Z.quot_rem' n m) as E.
  destruct (rem_range n m Hm) as [Hp Hq]. split; intros H.
  - specialize (Hp H). lia.
  - specialize (Hq H). lia.
Qed.

Lemma divide_pos_le ratio len : 0 < len -> (ratio | len) -> 0 < ratio -> ratio <= len.
Proof. intros Hl Hd _. apply Z.divide_pos_le; assumption. Qed.

Lemma clip_high_sound ratio smax dmax sp dp len a' :
  low_post ratio (sp, dp, len) -> 0 < ratio ->
  0 <= smax <= DIM_MAX -> 0 <= dmax <= DIM_MAX ->
  clip_high ratio smax dmax (sp, dp, len) = Some a' ->
  exists len', a' = (sp, dp, len') /\ 0 < len' <= len /\ (ratio | len') /\
               sp + len' <= smax /\ dp + len' / ratio <= dmax.
Proof.
  unfold low_post. intros (Hsp & Hdp & Hdr & Hlen & HL) Hr Hs Hd Hc.
  assert (HC : COORD_MAX = 32768) by reflexivity.
  assert (HD : DIM_MAX = 536870911) by reflexivity.
  pose proof (divide_pos_le ratio len ltac:(lia) HL Hr) as Hrl.
  destruct HL as [L HL].
  unfold clip_high in Hc. rewrite !Z.gtb_ltb in Hc.
  rewrite (add32_exact sp len) in Hc by (int_range; lia).
  rewrite (sub32_exact (sp + len) smax) in Hc by (int_range; lia).
  (* against the source extent *)
  assert (H1 : exists len1,
             (if 0 <? sp + len - smax
              then sub32 len (ceil (sp + len - smax) ratio) else len) = len1
             /\ - (COORD_MAX * COORD_MAX + 4 * COORD_MAX) <= len1 <= len
             /\ (ratio | len1) /\ sp + len1 <= smax).
  { destruct (Z.ltb_spec 0 (sp + len - smax)) as [Hpos | Hneg].
    - destruct (ceil_spec (sp + len - smax) ratio) as (q & Eq & Hq0 & Hq); try lia.
      { unfold INT_MAX; lia. }
      rewrite Eq. rewrite sub32_exact by (int_range; lia).
      eexists. split; [reflexivity|]. repeat split; try lia.
      exists (L - q); lia.
    - exists len. repeat split; try lia. exists L; lia. }
  destruct H1 as (len1 & E1 & Hlen1 & [L1 HL1] & Hs1).
  rewrite E1 in Hc. clear E1.
  (* against the destination extent *)
  assert (HqL : Z.quot len1 ratio = L1).
  { rewrite HL1. apply Z.quot_mul. lia. }
  assert (HdL : len1 / ratio = L1).
  { rewrite HL1. apply Z.div_mul. lia. }
  assert (HL1b : - (COORD_MAX * COORD_MAX + 4 * COORD_MAX) <= L1 <= COORD_MAX) by nia.
  assert (Hdpb : dp <= COORD_MAX * COORD_MAX + 2 * COORD_MAX) by nia.
  rewrite (div32_exact len1 ratio) in Hc by (int_range; lia).
  rewrite HqL in Hc.
  rewrite (add32_exact dp L1) in Hc by (int_range; lia).
  rewrite (sub32_exact (dp + L1) dmax) in Hc by (int_range; lia).
  destruct (Z.ltb_spec 0 (dp + L1 - dmax)) as [Hpos | Hneg].
  - pose proof (Z.mul_nonneg_nonneg dmax ratio ltac:(lia) ltac:(lia)) as Hdm.
    assert (Ht : 0 < (dp + L1 - dmax) * ratio <= COORD_MAX * COORD_MAX + 3 * COORD_MAX) by nia.
    rewrite (mul32_exact (dp + L1 - dmax) ratio) in Hc by (int_range; lia).
    rewrite sub32_exact in Hc by (int_range; lia).
    destruct (Z.leb_spec (len1 - (dp + L1 - dmax) * ratio) 0); [discriminate|].
    injection Hc as <-. eexists. split; [reflexivity|].
    assert (E : len1 - (dp + L1 - dmax) * ratio = (dmax - dp) * ratio) by lia.
    repeat split; try lia.
    + exists (dmax - dp); lia.
    + rewrite E, Z.div_mul by lia. lia.
  - destruct (Z.leb_spec len1 0); [discriminate|].
    injection Hc as <-. eexists. split; [reflexivity|].
    repeat split; try lia.
    exists L1; lia.
Qed.

Lemma clip_ratio_sound ratio g g0 :
  small_geometry g -> clip_ratio ratio g = Some g0 ->
  0 < ratio /\
  gsrc_x g0 = gsrc_x g /\ gsrc_y g0 = gsrc_y g /\
  gdst_x g0 = gdst_x g /\ gdst_y g0 = gdst_y g /\
  ratio <= gwidth g0 <= COORD_MAX /\ (ratio | gwidth g0) /\
  ratio <= gheight g0 <= COORD_MAX /\ (ratio | gheight g0).
Proof.
  unfold small_geometry, small. intros (_ & _ & _ & _ & Hw & Hh) Hc.
  assert (HC : COORD_MAX = 32768) by reflexivity.
  unfold clip_ratio in Hc.
  destruct (Z.leb_spec ratio 0) as [|Hr]; [discriminate|].
  destruct (floor_bounds (gwidth g) ratio) as (qw & Ew & Hwp & Hwn);
    [int_range; lia | lia |].
  destruct (floor_bounds (gheight g) ratio) as (qh & Eh & Hhp & Hhn);
    [int_range; lia | lia |].
  rewrite Ew, Eh, !Z.gtb_ltb in Hc.
  destruct (Z.ltb_spec (ratio * qw) ratio); [discriminate|].
  destruct (Z.ltb_spec (ratio * qh) ratio); [discriminate|].
  cbn [orb] in Hc. injection Hc as <-. cbn [gsrc_x gsrc_y gdst_x gdst_y gwidth gheight].
  split; [assumption|]. do 4 (split; [reflexivity|]).
  assert (0 <= gwidth g) by lia. assert (0 <= gheight g) by lia.
  repeat split; try lia.
  - exists qw; lia.
  - exists qh; lia.
Qed.

(** The four clipping steps, their intermediate rectangles and what holds
    of them when no product leaves the [int] range. *)
Lemma clip_stages dst_w dst_h src_w src_h ratio g gf :
  dims_ok dst_w dst_h src_w src_h -> small_geometry g ->
  clip dst_w dst_h src_w src_h ratio g = Some gf ->
  exists g0 g1 g2 g3,
    clip_ratio ratio g = Some g0 /\
    clip_x_low ratio g0 = Some g1 /\
    clip_y_low ratio g1 = Some g2 /\
    clip_x_high ratio src_w dst_w g2 = Some g3 /\
    clip_y_high ratio src_h dst_h g3 = Some gf /\
    0 < ratio /\
    aligned ratio g0 /\ aligned ratio g1 /\ aligned ratio g2 /\
    aligned ratio g3 /\ aligned ratio gf /\
    inside dst_w dst_h src_w src_h ratio gf.
Proof.
  intros (Hdw & Hdh & Hsw & Hsh) Hg Hc. unfold clip in Hc.
  destruct (clip_ratio ratio g) as [g0|] eqn:E0; [|discriminate].
  cbn [obind] in Hc.
  destruct (clip_x_low ratio g0) as [g1|] eqn:E1; [|discriminate].
  cbn [obind] in Hc.
  destruct (clip_y_low ratio g1) as [g2|] eqn:E2; [|discriminate].
  cbn [obind] in Hc.
  destruct (clip_x_high ratio src_w dst_w g2) as [g3|] eqn:E3; [|discriminate].
  cbn [obind] in Hc.
  exists g0, g1, g2, g3. do 5 (split; [assumption || reflexivity|]).
  destruct (clip_ratio_sound ratio g g0 Hg E0)
    as (Hr & X1 & X2 & X3 & X4 & Hw0 & Dw0 & Hh0 & Dh0).
  destruct Hg as (S1 & S2 & S3 & S4 & _ & _). unfold small in S1, S2, S3, S4.
  (* x, low *)
  unfold clip_x_low in E1.
  destruct (clip_low ratio (x_axis g0)) as [[[sx1 dx1] w1]|] eqn:L1;
    cbn [option_map] in E1; [|discriminate E1].
  injection E1 as <-.
  apply clip_low_sound in L1;
    [|unfold low_pre, small, x_axis; rewrite X1, X3; repeat split; (assumption || lia)].
  destruct L1 as (Hsx1 & Hdx1 & Hdxr1 & Hw1 & Dw1).
  (* y, low *)
  unfold clip_y_low, y_axis in E2. cbn [gsrc_y gdst_y gheight] in E2.
  destruct (clip_low ratio (gsrc_y g0, gdst_y g0, gheight g0))
    as [[[sy2 dy2] h2]|] eqn:L2; cbn [option_map] in E2; [|discriminate E2].
  injection E2 as <-.
  apply clip_low_sound in L2;
    [|unfold low_pre, small; rewrite X2, X4; repeat split; (assumption || lia)].
  destruct L2 as (Hsy2 & Hdy2 & Hdyr2 & Hh2 & Dh2).
  (* x, high *)
  unfold clip_x_high, x_axis in E3. cbn [gsrc_x gdst_x gwidth] in E3.
  destruct (clip_high ratio src_w dst_w (sx1, dx1, w1)) as [a3|] eqn:L3;
    cbn [option_map] in E3; [|discriminate E3].
  injection E3 as <-.
  apply clip_high_sound in L3;
    [|unfold low_post; repeat split; (assumption || lia) | assumption ..].
  destruct L3 as (w3 & -> & Hw3 & Dw3 & Bs3 & Bd3).
  (* y, high *)
  unfold clip_y_high, y_axis, set_x_axis in Hc. cbn [gsrc_y gdst_y gheight] in Hc.
  destruct (clip_high ratio src_h dst_h (sy2, dy2, h2)) as [a4|] eqn:L4;
    cbn [option_map] in Hc; [|discriminate Hc].
  injection Hc as <-.
  apply clip_high_sound in L4;
    [|unfold low_post; repeat split; (assumption || lia) | assumption ..].
  destruct L4 as (h4 & -> & Hh4 & Dh4 & Bs4 & Bd4).
  split; [assumption|].
  unfold aligned, inside; cbn.
  repeat split; try assumption; try lia.
Qed.

(** C8 (within the [int] range): for buffer dimensions between 0 and
    [DIM_MAX] and offsets and extents of magnitude at most [COORD_MAX],
    whenever the clipping succeeds the width and height are
    positive multiples of [ratio] after every clipping step, and the final
    rectangle lies inside the source buffer and inside the destination
    buffer. *)
Theorem clip_invariant (dst_w dst_h src_w src_h ratio : Z) (g gf : geometry) :
  dims_ok dst_w dst_h src_w src_h -> small_geometry g ->
  clip dst_w dst_h src_w src_h ratio g = Some gf ->
  exists g0 g1 g2 g3,
    clip_ratio ratio g = Some g0 /\
    clip_x_low ratio g0 = Some g1 /\
    clip_y_low ratio g1 = Some g2 /\
    clip_x_high ratio src_w dst_w g2 = Some g3 /\
    clip_y_high ratio src_h dst_h g3 = Some gf /\
    0 < ratio /\
    aligned ratio g0 /\ aligned ratio g1 /\ aligned ratio g2 /\
    aligned ratio g3 /\ aligned ratio gf /\
    inside dst_w dst_h src_w src_h ratio gf.
Proof. apply clip_stages. Qed.

(** C8 as stated fails: with [src_x = INT_MIN] the negation in "Make sure
    x >= 0" wraps around, the clipping succeeds and its rectangle starts at
    a negative source column. *)
Lemma clip_invariant_counterexample :
  clip 8 1 2 1 1 (mkGeometry INT_MIN 0 0 0 4 1)
    = Some (mkGeometry INT_MIN 0 0 0 4 1)
  /\ gsrc_x (mkGeometry INT_MIN 0 0 0 4 1) < 0.
Proof. split; [vm_compute; reflexivity | vm_compute; reflexivity]. Qed.

(* ================================================================= *)
(** ** What a call adds to the access log *)

Lemma log_grows_refl P s : log_grows P s s.
Proof. exists []. rewrite app_nil_r. auto. Qed.

Lemma log_grows_trans P s1 s2 s3 :
  log_grows P s1 s2 -> log_grows P s2 s3 -> log_grows P s1 s3.
Proof.
  intros (e1 & E1 & F1) (e2 & E2 & F2). exists (e1 ++ e2). split.
  - rewrite E2, E1, app_assoc. reflexivity.
  - apply Forall_app; auto.
Qed.



Lemma load_int_log P host p s :
  P (Load p 4) -> log_grows P s (snd (load_int host p s)).
Proof. intros H. exists [Load p 4]. split; [reflexivity | auto]. Qed.

Lemma rgba_to_color_log P r g b a p s :
  P (Store p 4) -> log_grows P s (rgba_to_color r g b a p s).
Proof. intros H. exists [Store p 4]. split; [reflexivity | auto]. Qed.

Lemma memcpy_log P dst src n s :
  P (Load src n) -> P (Store dst n) -> log_grows P s (memcpy dst src n s).
Proof. intros H1 H2. exists [Load src n; Store dst n]. split; [reflexivity | auto]. Qed.

Lemma memset_int_log P host p val size s :
  - 2 ^ 63 <= snd p + 4 * size ->
  (forall k, 0 <= k < size -> P (Store (padd_int p k) 4)) ->
  log_grows P s (memset_int host p val size s).
Proof.
  intros Hb H. rewrite memset_int_run. eexists. split; [apply store_run_log|].
  pose proof (memset_int_count p size Hb).
  apply Forall_forall. intros a Ha. apply in_map_iff in Ha.
  destruct Ha as (k & <- & Hk). apply in_seq in Hk. apply H. lia.
Qed.

Lemma bilinear_row_log P host n : forall p w i j count acc s,
  0 <= j -> j + Z.of_nat n <= INT_MAX ->
  (forall t, j <= t < j + Z.of_nat n ->
     P (Load (padd_int (padd_int p (mul32 w i)) t) 4)) ->
  log_grows P s (snd (bilinear_row host n p w i j count acc s)).
Proof.
  induction n as [|n IH]; intros p w i j count acc s Hj Hn HP; cbn [bilinear_row].
  - apply log_grows_refl.
  - pose proof (load_int_log P host (padd_int (padd_int p (mul32 w i)) j) s
                  (HP j ltac:(lia))) as H1.
    destruct (load_int host (padd_int (padd_int p (mul32 w i)) j) s) as [color s1].
    cbn [snd] in H1. eapply log_grows_trans; [exact H1|].
    rewrite add32_exact by (int_range; lia).
    apply IH; try lia. intros t Ht. apply HP. lia.
Qed.

Lemma bilinear_rows_log P host n : forall p w i ratio count acc s,
  0 <= i -> i + Z.of_nat n <= INT_MAX -> 0 <= ratio <= INT_MAX ->
  (forall ti tj, i <= ti < i + Z.of_nat n -> 0 <= tj < ratio ->
     P (Load (padd_int (padd_int p (mul32 w ti)) tj) 4)) ->
  log_grows P s (snd (bilinear_rows host n p w i ratio count acc s)).
Proof.
  induction n as [|n IH]; intros p w i ratio count acc s Hi Hn Hr HP; cbn [bilinear_rows].
  - apply log_grows_refl.
  - pose proof (bilinear_row_log P host (Z.to_nat ratio) p w i 0 count acc s
                  ltac:(lia) ltac:(lia)) as H1.
    destruct (bilinear_row host (Z.to_nat ratio) p w i 0 count acc s) as [acc1 s1].
    cbn [snd] in H1. eapply log_grows_trans.
    + apply H1. intros t Ht. apply HP; lia.
    + rewrite add32_exact by (int_range; lia).
      apply IH; try lia. intros ti tj Hti Htj. apply HP; lia.
Qed.

Lemma bilinear_color_log P host p w ratio result s :
  0 <= ratio <= INT_MAX ->
  (forall i j, 0 <= i < ratio -> 0 <= j < ratio ->
     P (Load (padd_int (padd_int p (mul32 w i)) j) 4)) ->
  P (Store result 4) ->
  log_grows P s (bilinear_color host p w ratio result s).
Proof.
  intros Hr HL HS. unfold bilinear_color.
  pose proof (bilinear_rows_log P host (Z.to_nat ratio) p w 0 ratio
                (mul32 ratio ratio) accum0 s ltac:(lia) ltac:(lia) Hr) as H1.
  destruct (bilinear_rows host (Z.to_nat ratio) p w 0 ratio
              (mul32 ratio ratio) accum0 s) as [acc s1].
  cbn [snd] in H1. eapply log_grows_trans.
  - apply H1. intros ti tj Hti Htj. apply HL; lia.
  - apply rgba_to_color_log. exact HS.
Qed.

Lemma copy_color_loop_log P host n : forall dst src src_w ratio s,
  0 <= ratio <= INT_MAX ->
  (forall k i j, 0 <= k < Z.of_nat n -> 0 <= i < ratio -> 0 <= j < ratio ->
     P (Load (padd_int (padd_int (padd_int src (ratio * k)) (mul32 src_w i)) j) 4)) ->
  (forall k, 0 <= k < Z.of_nat n -> P (Store (padd_int dst k) 4)) ->
  log_grows P s (copy_color_loop host n dst src src_w ratio s).
Proof.
  induction n as [|n IH]; intros dst src src_w ratio s Hr HL HS; cbn [copy_color_loop].
  - apply log_grows_refl.
  - eapply log_grows_trans.
    + apply bilinear_color_log; [exact Hr | |].
      * intros i j Hi Hj. specialize (HL 0 i j ltac:(lia) Hi Hj).
        rewrite Z.mul_0_r, padd_int_0 in HL. exact HL.
      * specialize (HS 0 ltac:(lia)). rewrite padd_int_0 in HS. exact HS.
    + apply IH; [exact Hr | |].
      * intros k i j Hk Hi Hj. specialize (HL (k + 1) i j ltac:(lia) Hi Hj).
        rewrite (padd_int_add src ratio (ratio * k)).
        replace (ratio + ratio * k) with (ratio * (k + 1)) by lia. exact HL.
      * intros k Hk. specialize (HS (k + 1) ltac:(lia)).
        rewrite padd_int_add. replace (1 + k) with (k + 1) by lia. exact HS.
Qed.









(* ================================================================= *)
(** ** Positions inside the buffers *)

Lemma wrap32_add_mul x k : wrap32 (x + k * 2 ^ 32) = wrap32 x.
Proof.
  unfold wrap32. replace (x + k * 2 ^ 32 + 2 ^ 31) with (x + 2 ^ 31 + k * 2 ^ 32) by lia.
  rewrite Z_mod_plus_full. reflexivity.
Qed.

Lemma wrap32_mod64 x : wrap32 (x mod 2 ^ 64) = wrap32 x.
Proof.
  rewrite Z.mod_eq by lia.
  replace (x - 2 ^ 64 * (x / 2 ^ 64)) with (x + (- (2 ^ 32 * (x / 2 ^ 64))) * 2 ^ 32).
  - apply wrap32_add_mul.
  - change (2 ^ 64) with (2 ^ 32 * 2 ^ 32). lia.
Qed.

Lemma wrap32_wrap32_add a x : wrap32 (wrap32 a + x) = wrap32 (a + x).
Proof.
  unfold wrap32 at 2. rewrite Z.mod_eq by lia.
  replace (a + 2 ^ 31 - 2 ^ 32 * ((a + 2 ^ 31) / 2 ^ 32) - 2 ^ 31 + x)
    with (a + x + (- ((a + 2 ^ 31) / 2 ^ 32)) * 2 ^ 32) by lia.
  apply wrap32_add_mul.
Qed.

Lemma wrap32_add_mod64 a x : wrap32 (a + x mod 2 ^ 64) = wrap32 (a + x).
Proof.
  rewrite (Z.mod_eq x) by lia.
  replace (a + (x - 2 ^ 64 * (x / 2 ^ 64)))
    with (a + x + (- (2 ^ 32 * (x / 2 ^ 64))) * 2 ^ 32).
  - apply wrap32_add_mul.
  - change (2 ^ 64) with (2 ^ 32 * 2 ^ 32). lia.
Qed.

(** [dst_pos += dst_blank_length] adds modulo [2 ^ 32], whatever the
    [size_t] detour. *)
Lemma add_size_to_int_wrap a x :
  add_size_to_int (wrap32 a) (to_size_t x) = wrap32 (a + x).
Proof.
  unfold add_size_to_int, to_size_t.
  rewrite wrap32_mod64, wrap32_add_mod64.
  rewrite (Z.add_comm (wrap32 a mod 2 ^ 64) x), wrap32_add_mod64.
  rewrite (Z.add_comm x (wrap32 a)). apply wrap32_wrap32_add.
Qed.



Lemma add_size_to_int_exact a x :
  in_int a -> in_int (a + x) -> add_size_to_int a (to_size_t x) = a + x.
Proof.
  intros Ha Hx. rewrite <- (wrap32_id a Ha) at 1.
  rewrite add_size_to_int_wrap. apply wrap32_id. exact Hx.
Qed.

Lemma add_size_to_int_plain a x :
  in_int a -> 0 <= x -> in_int (a + x) -> add_size_to_int a x = a + x.
Proof.
  intros Ha H0 Hx.
  assert (E : to_size_t x = x).
  { unfold to_size_t. apply Z.mod_small. int_range. lia. }
  rewrite <- E at 1. apply add_size_to_int_exact; assumption.
Qed.

Lemma to_size_t_exact x : 0 <= x <= INT_MAX -> to_size_t x = x.
Proof. intros H. unfold to_size_t. apply Z.mod_small. int_range. lia. Qed.

(** The cell [(row, col)] of a [w] by [h] grid, and the [len] cells after
    it on its row, lie in the grid. *)
Lemma cells_in_grid w h row col len :
  0 <= row -> row + 1 <= h -> 0 <= col -> 0 <= len -> col + len <= w ->
  0 <= row * w + col /\ row * w + col + len <= h * w.
Proof. intros. split; nia. Qed.

Lemma padd_buf b x : padd (b, 0) x = (b, x).
Proof. reflexivity. Qed.

(** Memory after a fill or a copy, byte by byte. *)
Lemma memset_int_below host p val size s b o :
  o < snd p -> st_mem (memset_int host p val size s) b o = st_mem s b o.
Proof.
  intros H. rewrite memset_int_run, store_run_mem.
  destruct (Z.leb_spec (snd p) o); [lia|].
  rewrite andb_false_r. reflexivity.
Qed.

Lemma memcpy_below dst src n s b o :
  o < snd dst -> st_mem (memcpy dst src n s) b o = st_mem s b o.
Proof.
  intros H. cbn [memcpy st_mem].
  destruct (Z.leb_spec (snd dst) o); [lia|].
  rewrite andb_false_r. reflexivity.
Qed.

Lemma memcpy_inside dst src n s o :
  snd dst <= o < snd dst + n ->
  st_mem (memcpy dst src n s) (fst dst) o = st_mem s (fst src) (snd src + (o - snd dst)).
Proof.
  intros H. cbn [memcpy st_mem]. rewrite block_eqb_refl.
  destruct (Z.leb_spec (snd dst) o); [|lia].
  destruct (Z.ltb_spec o (snd dst + n)); [|lia]. reflexivity.
Qed.

Lemma copy_color_ratio1 host dst src src_w count ratio s :
  ratio = 1 ->
  copy_color host dst src src_w count ratio s
  = memcpy dst src (to_size_t (mul32 count 4)) s.
Proof. intros ->. reflexivity. Qed.

Lemma pixel_at_ext host m1 m2 b o :
  (forall k, 0 <= k < 4 -> m1 b (o + k) = m2 b (o + k)) ->
  pixel_at host m1 b o = pixel_at host m2 b o.
Proof.
  intros H. unfold pixel_at.
  rewrite <- (Z.add_0_r o) at 1 5.
  rewrite !H by lia. rewrite Z.add_0_r. reflexivity.
Qed.

(* ================================================================= *)
(** ** Block averager: exact for small ratios *)

(** One step keeps [x * count + y] equal to the sum of the samples, as long
    as neither accumulator leaves the range of an [unsigned char]: [y] stays
    below [2 * count <= 256] and [x] below the largest sample. *)
Lemma average_step_sum num count x y total :
  0 < count <= 128 -> 0 <= num <= 255 ->
  0 <= x -> 0 <= y < count -> x * count + y = total ->
  total + num <= 255 * count ->
  let r := average_step num count (x, y) in
  0 <= fst r /\ 0 <= snd r < count /\ fst r * count + snd r = total + num.
Proof.
  intros Hc Hn Hx Hy Ht Hb r. subst r. unfold average_step. cbn [fst snd].
  pose proof (Z.quot_rem' num count) as E.
  pose proof (Z.rem_bound_pos num count ltac:(lia) ltac:(lia)) as Hr.
  assert (Hq : 0 <= Z.quot num count) by (apply Z.quot_pos; lia).
  assert (Hxq : x + Z.quot num count <= 255) by nia.
  unfold to_uchar.
  rewrite (Z.mod_small (x + Z.quot num count)) by lia.
  rewrite (Z.mod_small (y + Z.rem num count)) by lia.
  destruct (Z.leb_spec count (y + Z.rem num count)) as [Hge | Hlt]; cbn [fst snd].
  - assert (x + Z.quot num count + 1 <= 255) by nia.
    rewrite !Z.mod_small by lia. repeat split; nia.
  - repeat split; nia.
Qed.

Lemma average_fold count vs : forall x y total,
  0 < count <= 128 -> Forall is_byte vs ->
  0 <= x -> 0 <= y < count -> x * count + y = total ->
  total + 255 * Z.of_nat (length vs) <= 255 * count ->
  let r := fold_left (fun xy v => average_step v count xy) vs (x, y) in
  0 <= fst r /\ 0 <= snd r < count /\ fst r * count + snd r = total + zsum vs.
Proof.
  induction vs as [|v vs IH]; intros x y total Hc Hv Hx Hy Ht Hb r; subst r.
  - cbn. repeat split; lia.
  - apply Forall_cons_iff in Hv. destruct Hv as [Hv1 Hv2]. unfold is_byte in Hv1.
    cbn [fold_left]. cbn [length] in Hb.
    destruct (average_step_sum v count x y total Hc Hv1 Hx Hy Ht ltac:(lia))
      as (Hx' & Hy' & Ht').
    destruct (average_step v count (x, y)) as [x' y']. cbn [fst snd] in *.
    destruct (IH x' y' (total + v) Hc Hv2 Hx' Hy' Ht' ltac:(lia)) as (A & B & C).
    repeat split; try assumption; try lia.
    rewrite C. cbn [zsum fold_right]. unfold zsum. lia.
Qed.

Lemma fold_left_through_map {A B C : Type} (f : A -> C -> A) (g : B -> C) l : forall a,
  fold_left f (map g l) a = fold_left (fun a x => f a (g x)) l a.
Proof. induction l as [|x l IH]; intros a; cbn; [reflexivity | apply IH]. Qed.

(** The accumulators of a channel after a list of pixels. *)
Lemma accumulate_fold count pxs : forall acc,
  let r := fold_left (fun a px => accumulate count px a) pxs acc in
  accR r = fold_left (fun xy v => average_step v count xy) (map chR pxs) (accR acc) /\
  accG r = fold_left (fun xy v => average_step v count xy) (map chG pxs) (accG acc) /\
  accB r = fold_left (fun xy v => average_step v count xy) (map chB pxs) (accB acc) /\
  accA r = fold_left (fun xy v => average_step v count xy) (map chA pxs) (accA acc).
Proof.
  induction pxs as [|px pxs IH]; intros acc r; subst r.
  - cbn. auto.
  - cbn [fold_left map]. apply (IH (accumulate count px acc)).
Qed.

(** The loops of [bilinear_color] fold [accumulate] over the pixels of the
    block, row by row. *)
Lemma bilinear_row_acc host n : forall p w i j count acc s,
  0 <= j -> j + Z.of_nat n <= INT_MAX ->
  fst (bilinear_row host n p w i j count acc s)
  = fold_left
      (fun a t => accumulate count
                    (pixel_rgba host (st_mem s) (padd_int (padd_int p (mul32 w i)) t)) a)
      (map (fun t => j + Z.of_nat t) (seq 0 n)) acc.
Proof.
  induction n as [|n IH]; intros p w i j count acc s Hj Hn; cbn [bilinear_row].
  - reflexivity.
  - unfold load_int. rewrite add32_exact by (int_range; lia).
    rewrite IH by lia. cbn [st_mem seq map fold_left].
    rewrite Z.add_0_r. rewrite <- seq_shift, map_map.
    f_equal. apply map_ext. intros t. lia.
Qed.

Lemma bilinear_rows_acc host n : forall p w i ratio count acc s,
  0 <= i -> i + Z.of_nat n <= INT_MAX -> 0 <= ratio <= INT_MAX ->
  fst (bilinear_rows host n p w i ratio count acc s)
  = fold_left
      (fun a ij => accumulate count
                     (pixel_rgba host (st_mem s)
                        (padd_int (padd_int p (mul32 w (fst ij))) (snd ij))) a)
      (flat_map (fun i' => map (fun j => (i', j)) (zrange ratio))
                (map (fun t => i + Z.of_nat t) (seq 0 n))) acc.
Proof.
  induction n as [|n IH]; intros p w i ratio count acc s Hi Hn Hr; cbn [bilinear_rows].
  - reflexivity.
  - pose proof (bilinear_row_acc host (Z.to_nat ratio) p w i 0 count acc s
                  ltac:(lia) ltac:(lia)) as H1.
    pose proof (bilinear_row_mem host (Z.to_nat ratio) p w i 0 count acc s) as M1.
    destruct (bilinear_row host (Z.to_nat ratio) p w i 0 count acc s) as [acc1 s1].
    cbn [fst snd] in H1, M1. rewrite add32_exact by (int_range; lia).
    rewrite IH by lia. rewrite M1, H1.
    cbn [seq map flat_map]. rewrite fold_left_app. rewrite Z.add_0_r.
    f_equal.
    + rewrite <- seq_shift, map_map. f_equal. apply map_ext. intros t. lia.
    + unfold zrange. rewrite !fold_left_through_map. reflexivity.
Qed.

Lemma in_zrange n x : In x (zrange n) -> 0 <= x < n.
Proof.
  unfold zrange. intros H. apply in_map_iff in H. destruct H as (k & <- & Hk).
  apply in_seq in Hk. lia.
Qed.

Lemma in_block_cells ratio ij :
  In ij (block_cells ratio) -> 0 <= fst ij < ratio /\ 0 <= snd ij < ratio.
Proof.
  unfold block_cells. intros H. apply in_flat_map in H. destruct H as (i & Hi & H).
  apply in_map_iff in H. destruct H as (j & <- & Hj).
  apply in_zrange in Hi. apply in_zrange in Hj. cbn [fst snd]. lia.
Qed.

Lemma length_block_cells ratio :
  0 <= ratio -> Z.of_nat (length (block_cells ratio)) = ratio * ratio.
Proof.
  intros Hr. unfold block_cells.
  assert (Hz : length (zrange ratio) = Z.to_nat ratio).
  { unfold zrange. now rewrite length_map, length_seq. }
  assert (H : forall l : list Z,
             length (flat_map (fun i => map (fun j => (i, j)) (zrange ratio)) l)
             = (length l * Z.to_nat ratio)%nat).
  { induction l as [|i l IH]; cbn [flat_map length]; [reflexivity|].
    rewrite length_app, length_map, IH, Hz. lia. }
  rewrite H, Hz. lia.
Qed.

Lemma pixel_rgba_bytes host m b o :
  is_byte (m b o) -> is_byte (m b (o + 1)) ->
  is_byte (m b (o + 2)) -> is_byte (m b (o + 3)) ->
  pixel_rgba host m (b, o) = mkRgba (m b o) (m b (o + 1)) (m b (o + 2)) (m b (o + 3)).
Proof.
  intros H0 H1 H2 H3. unfold pixel_rgba, pixel_at, color_to_rgba. cbn [fst snd].
  destruct (bytes_of_int_of_bytes host _ _ _ _ H0 H1 H2 H3) as (E0 & E1 & E2 & E3).
  rewrite E0, E1, E2, E3. reflexivity.
Qed.

(** The block averager is exact as long as [count = ratio * ratio] is at
    most 128, that is for [ratio] up to 11: every channel of the stored
    pixel is the floor of the channel's sum over the block divided by
    [ratio * ratio]. *)
Lemma bilinear_color_exact host p w ratio result s c :
  2 <= ratio <= 11 -> 0 <= w -> w * ratio <= INT_MAX ->
  (forall i j k, 0 <= i < ratio -> 0 <= j < ratio -> 0 <= k < 4 ->
     is_byte (st_mem s (fst p) (snd p + 4 * (w * i + j) + k))) ->
  0 <= c < 4 ->
  st_mem (bilinear_color host p w ratio result s) (fst result) (snd result + c)
  = channel_sum (st_mem s) p w ratio c / (ratio * ratio).
Proof.
  intros Hr Hw Hwr Hbytes Hc.
  set (m := st_mem s) in *.
  set (F := fun ij : Z * Z =>
              pixel_rgba host m (padd_int (padd_int p (mul32 w (fst ij))) (snd ij))).
  assert (Hcount : mul32 ratio ratio = ratio * ratio)
    by (apply mul32_exact; int_range; nia).
  assert (Hcr : 0 < ratio * ratio <= 128) by nia.
  (* the pixels of the block, as read *)
  assert (HF : forall ij, In ij (block_cells ratio) ->
             F ij = mkRgba (m (fst p) (snd p + 4 * (w * fst ij + snd ij) + 0))
                           (m (fst p) (snd p + 4 * (w * fst ij + snd ij) + 1))
                           (m (fst p) (snd p + 4 * (w * fst ij + snd ij) + 2))
                           (m (fst p) (snd p + 4 * (w * fst ij + snd ij) + 3))).
  { intros [i j] Hij. apply in_block_cells in Hij. cbn [fst snd] in *.
    destruct Hij as [Hi Hj]. unfold F. cbn [fst snd].
    rewrite mul32_exact by (int_range; nia).
    unfold padd_int. cbn [fst snd].
    replace (snd p + 4 * (w * i) + 4 * j) with (snd p + 4 * (w * i + j) + 0) by lia.
    rewrite pixel_rgba_bytes.
    - f_equal; f_equal; lia.
    - apply Hbytes; lia.
    - replace (snd p + 4 * (w * i + j) + 0 + 1) with (snd p + 4 * (w * i + j) + 1) by lia.
      apply Hbytes; lia.
    - replace (snd p + 4 * (w * i + j) + 0 + 2) with (snd p + 4 * (w * i + j) + 2) by lia.
      apply Hbytes; lia.
    - replace (snd p + 4 * (w * i + j) + 0 + 3) with (snd p + 4 * (w * i + j) + 3) by lia.
      apply Hbytes; lia. }
  (* one channel, selected by [sel] *)
  assert (Hch : forall (sel : rgba -> Z) k, 0 <= k < 4 ->
             (forall ij, In ij (block_cells ratio) ->
                sel (F ij) = m (fst p) (snd p + 4 * (w * fst ij + snd ij) + k)) ->
             fst (fold_left (fun xy v => average_step v (ratio * ratio) xy)
                            (map sel (map F (block_cells ratio))) (0, 0))
             = channel_sum m p w ratio k / (ratio * ratio)).
  { intros sel k Hk Hsel.
    assert (Evs : map sel (map F (block_cells ratio))
                  = map (fun ij => m (fst p) (snd p + 4 * (w * fst ij + snd ij) + k))
                        (block_cells ratio)).
    { rewrite map_map. apply map_ext_in. exact Hsel. }
    rewrite Evs.
    destruct (average_fold (ratio * ratio)
                (map (fun ij => m (fst p) (snd p + 4 * (w * fst ij + snd ij) + k))
                     (block_cells ratio)) 0 0 0 Hcr) as (A & B & C); try lia.
    - apply Forall_forall. intros v Hv. apply in_map_iff in Hv.
      destruct Hv as (ij & <- & Hij). apply in_block_cells in Hij.
      apply Hbytes; lia.
    - rewrite length_map, length_block_cells by lia. lia.
    - unfold channel_sum.
      apply (Z.div_unique_pos _ _ _ (snd (fold_left
               (fun xy v => average_step v (ratio * ratio) xy)
               (map (fun ij => m (fst p) (snd p + 4 * (w * fst ij + snd ij) + k))
                    (block_cells ratio)) (0, 0)))); [exact B | lia]. }
  unfold bilinear_color. rewrite Hcount.
  pose proof (bilinear_rows_acc host (Z.to_nat ratio) p w 0 ratio (ratio * ratio)
                accum0 s ltac:(lia) ltac:(int_range; lia) ltac:(int_range; lia)) as Hacc.
  pose proof (bilinear_rows_mem host (Z.to_nat ratio) p w 0 ratio (ratio * ratio)
                accum0 s) as Hmem.
  destruct (bilinear_rows host (Z.to_nat ratio) p w 0 ratio (ratio * ratio) accum0 s)
    as [acc s1]. cbn [fst snd] in Hacc, Hmem.
  change (flat_map (fun i' => map (fun j => (i', j)) (zrange ratio))
                   (map (fun t => 0 + Z.of_nat t) (seq 0 (Z.to_nat ratio))))
    with (block_cells ratio) in Hacc.
  fold m in Hacc. change (fun a ij => accumulate (ratio * ratio)
              (pixel_rgba host m (padd_int (padd_int p (mul32 w (fst ij))) (snd ij))) a)
    with (fun a ij => accumulate (ratio * ratio) (F ij) a) in Hacc.
  rewrite <- (fold_left_through_map (fun a px => accumulate (ratio * ratio) px a) F) in Hacc.
  destruct (accumulate_fold (ratio * ratio) (map F (block_cells ratio)) accum0)
    as (ER & EG & EB & EA).
  rewrite <- Hacc in ER, EG, EB, EA. cbn [accum0 accR accG accB accA] in ER, EG, EB, EA.
  cbn [rgba_to_color st_mem]. unfold write_bytes. rewrite block_eqb_refl. cbn [length andb].
  destruct (Z.leb_spec (snd result) (snd result + c)); [|lia].
  destruct (Z.ltb_spec (snd result + c) (snd result + Z.of_nat 4)); [|lia].
  replace (snd result + c - snd result) with c by lia.
  assert (Hcs : c = 0 \/ c = 1 \/ c = 2 \/ c = 3) by lia.
  destruct Hcs as [-> | [-> | [-> | ->]]]; cbn [Z.to_nat Pos.to_nat Pos.iter_op Nat.add nth].
  - rewrite ER. apply Hch; [lia|]. intros ij Hij. now rewrite (HF ij Hij).
  - rewrite EG. apply Hch; [lia|]. intros ij Hij. now rewrite (HF ij Hij).
  - rewrite EB. apply Hch; [lia|]. intros ij Hij. now rewrite (HF ij Hij).
  - rewrite EA. apply Hch; [lia|]. intros ij Hij. now rewrite (HF ij Hij).
Qed.

(** The bound [ratio <= 11] of [bilinear_color_exact] is tight: for
    [ratio = 12], [count = 144], a block whose channels are all 143 already
    makes the remainder accumulator wrap ([143 + 143 >= 256]) and the stored
    channels are 134. *)
Lemma bilinear_color_ratio12_grey (host : byte_order) :
  let s' := bilinear_color host src_buf 12 12 dst_buf
                           (start (fun _ _ => 143) ENDIAN_UNSET) in
  map (st_mem s' Dst) [0; 1; 2; 3] = [134; 134; 134; 134] /\
  (12 * 12 * 143) / (12 * 12) = 143.
Proof.
  destruct host; vm_compute; split; reflexivity.
Qed.

(* ================================================================= *)
(** ** Row copier: what it leaves in memory *)

(** The block averager changes the four bytes of its result and nothing
    else. *)
Lemma bilinear_color_frame host p w ratio result s b o :
  ~ (b = fst result /\ snd result <= o < snd result + 4) ->
  st_mem (bilinear_color host p w ratio result s) b o = st_mem s b o.
Proof.
  intros Hout. unfold bilinear_color.
  pose proof (bilinear_rows_mem host (Z.to_nat ratio) p w 0 ratio
                (mul32 ratio ratio) accum0 s) as H.
  destruct (bilinear_rows host (Z.to_nat ratio) p w 0 ratio
              (mul32 ratio ratio) accum0 s) as [acc s1].
  cbn [snd] in H. cbn [rgba_to_color st_mem]. rewrite H.
  unfold write_bytes. cbn [length].
  destruct (block_eqb b (fst result)) eqn:Eb; cbn [andb]; [|reflexivity].
  apply block_eqb_eq in Eb.
  destruct (Z.leb_spec (snd result) o); cbn [andb]; [|reflexivity].
  destruct (Z.ltb_spec o (snd result + Z.of_nat 4)); [|reflexivity].
  exfalso. apply Hout. split; [exact Eb | lia].
Qed.

(** The row copier changes the [n] pixels from [dst] on and nothing else. *)
Lemma copy_color_loop_frame host n : forall dst src src_w ratio s b o,
  ~ (b = fst dst /\ snd dst <= o < snd dst + 4 * Z.of_nat n) ->
  st_mem (copy_color_loop host n dst src src_w ratio s) b o = st_mem s b o.
Proof.
  induction n as [|n IH]; intros dst src src_w ratio s b o Hout; cbn [copy_color_loop].
  - reflexivity.
  - rewrite IH.
    + apply bilinear_color_frame. intros [Hb Ho]. apply Hout. split; [exact Hb | lia].
    + unfold padd_int. cbn [fst snd]. intros [Hb Ho]. apply Hout.
      split; [exact Hb | lia].
Qed.

Lemma memcpy_frame dst src n s b o :
  ~ (b = fst dst /\ snd dst <= o < snd dst + n) ->
  st_mem (memcpy dst src n s) b o = st_mem s b o.
Proof.
  intros Hout. cbn [memcpy st_mem].
  destruct (block_eqb b (fst dst)) eqn:Eb; cbn [andb]; [|reflexivity].
  apply block_eqb_eq in Eb.
  destruct (Z.leb_spec (snd dst) o); cbn [andb]; [|reflexivity].
  destruct (Z.ltb_spec o (snd dst + n)); [|reflexivity].
  exfalso. apply Hout. split; [exact Eb | lia].
Qed.

Lemma channel_sum_ext m1 m2 p w ratio c :
  (forall o, m1 (fst p) o = m2 (fst p) o) ->
  channel_sum m1 p w ratio c = channel_sum m2 p w ratio c.
Proof.
  intros H. unfold channel_sum. f_equal. apply map_ext. intros ij. apply H.
Qed.

(** For a [ratio] from 2 to 11 the row copier leaves in output pixel [k]
    the averages of the block that starts [ratio * k] pixels after [src]. *)
Lemma copy_color_loop_avg host n : forall dst src src_w ratio s k c,
  2 <= ratio <= 11 -> 0 <= src_w -> src_w * ratio <= INT_MAX ->
  fst dst <> fst src ->
  (forall o, is_byte (st_mem s (fst src) o)) ->
  0 <= k < Z.of_nat n -> 0 <= c < 4 ->
  st_mem (copy_color_loop host n dst src src_w ratio s) (fst dst) (snd dst + 4 * k + c)
  = channel_sum (st_mem s) (padd_int src (ratio * k)) src_w ratio c / (ratio * ratio).
Proof.
  induction n as [|n IH]; intros dst src src_w ratio s k c Hr Hw Hwr Hne Hbytes Hk Hc;
    [lia|].
  cbn [copy_color_loop].
  assert (Hsrc : forall o, st_mem (bilinear_color host src src_w ratio dst s) (fst src) o
                           = st_mem s (fst src) o).
  { intros o. apply bilinear_color_frame. intros [Hb _]. apply Hne. symmetry. exact Hb. }
  destruct (Z.eq_dec k 0) as [-> | Hk0].
  - rewrite copy_color_loop_frame
      by (unfold padd_int; cbn [fst snd]; intros [_ Ho]; lia).
    rewrite (Z.mul_0_r ratio), padd_int_0.
    replace (snd dst + 4 * 0 + c) with (snd dst + c) by lia.
    apply bilinear_color_exact; try assumption.
    intros i j t _ _ _. apply Hbytes.
  - replace (snd dst + 4 * k + c) with (snd (padd_int dst 1) + 4 * (k - 1) + c)
      by (unfold padd_int; cbn [snd]; lia).
    change (fst dst) with (fst (padd_int dst 1)) at 1.
    rewrite IH; try assumption; try lia.
    + rewrite padd_int_add.
      replace (ratio + ratio * (k - 1)) with (ratio * k) by lia.
      f_equal. apply channel_sum_ext. intros o. apply Hsrc.
    + intros o. change (fst (padd_int src ratio)) with (fst src).
      rewrite Hsrc. apply Hbytes.
Qed.

(** The average over a block of one pixel is that pixel. *)
Lemma channel_sum_ratio1 m p w c :
  channel_sum m p w 1 c / (1 * 1) = m (fst p) (snd p + c).
Proof.
  unfold channel_sum. change (block_cells 1) with [(0, 0)].
  cbn [map zsum fold_right fst snd]. rewrite Z.div_1_r, Z.add_0_r.
  f_equal. lia.
Qed.

(** [copy_color] asked for [n * ratio] source pixels changes the [n] pixels
    from [dst] on and nothing else. *)
Lemma copy_color_frame host dst src src_w n ratio s b o :
  0 < ratio -> 0 <= n -> n * ratio * 4 <= INT_MAX ->
  ~ (b = fst dst /\ snd dst <= o < snd dst + 4 * n) ->
  st_mem (copy_color host dst src src_w (n * ratio) ratio s) b o = st_mem s b o.
Proof.
  intros Hr Hn Hb Hout.
  assert (Hn4 : 0 <= n * ratio) by nia.
  unfold copy_color. destruct (Z.eqb_spec ratio 1) as [E | NE].
  - rewrite mul32_exact by (int_range; lia).
    rewrite to_size_t_exact by lia.
    apply memcpy_frame. intros [Hb' Ho]. apply Hout. split; [exact Hb' | nia].
  - unfold copy_color_internal.
    rewrite div32_exact by (int_range; lia).
    rewrite Z.quot_mul by lia.
    apply copy_color_loop_frame. intros [Hb' Ho]. apply Hout.
    split; [exact Hb' | lia].
Qed.

(** For a [ratio] from 1 to 11, [copy_color] asked for [n * ratio] source
    pixels leaves in output pixel [k] the averages of block [k] of the
    source row: for [ratio = 1] the source pixel itself. *)
Lemma copy_color_avg host dst src src_w n ratio s k c :
  1 <= ratio <= 11 -> 0 <= n -> n * ratio * 4 <= INT_MAX ->
  0 <= src_w -> src_w * ratio <= INT_MAX ->
  fst dst <> fst src ->
  (forall o, is_byte (st_mem s (fst src) o)) ->
  0 <= k < n -> 0 <= c < 4 ->
  st_mem (copy_color host dst src src_w (n * ratio) ratio s) (fst dst) (snd dst + 4 * k + c)
  = channel_sum (st_mem s) (padd_int src (ratio * k)) src_w ratio c / (ratio * ratio).
Proof.
  intros Hr Hn Hb Hw Hwr Hne Hbytes Hk Hc.
  assert (Hn4 : 0 <= n * ratio) by nia.
  unfold copy_color. destruct (Z.eqb_spec ratio 1) as [E | NE].
  - subst ratio. rewrite channel_sum_ratio1.
    rewrite mul32_exact by (int_range; lia).
    rewrite to_size_t_exact by lia.
    rewrite memcpy_inside by lia.
    unfold padd_int. cbn [fst snd]. f_equal. lia.
  - unfold copy_color_internal.
    rewrite div32_exact by (int_range; lia).
    rewrite Z.quot_mul by lia.
    apply copy_color_loop_avg; (assumption || lia).
Qed.

(* ================================================================= *)
(** ** The blit of a clipped rectangle *)

Section Blit.

Variable host : byte_order.
Variables dst_w dst_h src_w src_h ratio fill_color : Z.
(** The clipped rectangle: offsets, and extents counted in blocks. *)
Variables sx sy dx dy Wo R : Z.

Hypothesis Hratio : 0 < ratio.
Hypothesis Hsx : 0 <= sx.
Hypothesis Hsy : 0 <= sy.
Hypothesis Hdx : 0 <= dx.
Hypothesis Hdy : 0 <= dy.
Hypothesis HWo : 1 <= Wo.
Hypothesis HR : 1 <= R.
Hypothesis Hsw : sx + Wo * ratio <= src_w.
Hypothesis Hsh : sy + R * ratio <= src_h.
Hypothesis Hdw : dx + Wo <= dst_w.
Hypothesis Hdh : dy + R <= dst_h.
Hypothesis Hdsize : dst_w * dst_h * 4 <= INT_MAX.
Hypothesis Hssize : src_w * src_h * 4 <= INT_MAX.

Local Abbreviation clipped := (clipped ratio sx sy dx dy Wo R).
Local Abbreviation dst_row := (dst_row dst_w dx dy).
Local Abbreviation src_row := (src_row src_w ratio sx sy).

Lemma ratio_le_extents : Wo * ratio <= src_w /\ R * ratio <= src_h /\
                         ratio <= Wo * ratio /\ ratio <= R * ratio.
Proof. repeat split; nia. Qed.

Lemma block_index r i n :
  0 <= r < n -> 0 <= i < ratio -> 0 <= r * ratio + i /\ r * ratio + i + 1 <= n * ratio.
Proof. intros. split; nia. Qed.

Lemma dst_row_bounds r :
  0 <= r < R -> 0 <= dst_row r /\ dst_row r + 4 * Wo <= dst_w * dst_h * 4.
Proof.
  intros Hr. unfold dst_row.
  destruct (cells_in_grid dst_w dst_h (dy + r) dx Wo); lia.
Qed.

Lemma src_row_bounds r :
  0 <= r < R ->
  0 <= src_row r /\ src_row r + 4 * (Wo * ratio) <= src_w * src_h * 4.
Proof.
  intros Hr. unfold src_row.
  destruct (block_index r 0 R Hr ltac:(lia)).
  destruct (cells_in_grid src_w src_h (sy + r * ratio) sx (Wo * ratio)); nia.
Qed.

Lemma src_cell_bounds r k i j :
  0 <= r < R -> 0 <= k < Wo -> 0 <= i < ratio -> 0 <= j < ratio ->
  0 <= src_row r + 4 * (ratio * k) + 4 * (src_w * i) + 4 * j /\
  src_row r + 4 * (ratio * k) + 4 * (src_w * i) + 4 * j + 4 <= src_w * src_h * 4.
Proof.
  intros Hr Hk Hi Hj. unfold src_row.
  destruct (block_index r i R Hr Hi).
  destruct (block_index k j Wo Hk Hj).
  destruct (cells_in_grid src_w src_h (sy + (r * ratio + i)) (sx + (k * ratio + j)) 1);
    nia.
Qed.

Lemma src_w_times_index i : 0 <= i < ratio -> in_int (src_w * i).
Proof.
  intros Hi. destruct ratio_le_extents as (? & ? & ? & ?). int_range. nia.
Qed.

(** The accesses of the row copier on output row [r] stay in bounds. *)
Lemma copy_color_row_log r s :
  0 <= r < R ->
  log_grows (in_bounds (buffer_size dst_w dst_h src_w src_h)) s
    (copy_color host (Dst, dst_row r) (Src, src_row r) src_w (Wo * ratio) ratio s).
Proof.
  intros Hr.
  destruct (dst_row_bounds r Hr) as [Hd0 Hd1].
  destruct (src_row_bounds r Hr) as [Hs0 Hs1].
  destruct ratio_le_extents as (E1 & E2 & E3 & E4).
  assert (Hw4 : 0 <= Wo * ratio * 4 <= INT_MAX) by nia.
  unfold copy_color. destruct (Z.eqb_spec ratio 1) as [E | NE].
  - rewrite mul32_exact by (int_range; lia).
    rewrite to_size_t_exact by lia.
    apply memcpy_log; cbn [in_bounds buffer_size]; right; nia.
  - unfold copy_color_internal.
    rewrite div32_exact by (int_range; lia).
    rewrite Z.quot_mul by lia.
    apply copy_color_loop_log.
    + int_range; lia.
    + intros k i j Hk Hi Hj. rewrite Z2Nat.id in Hk by lia.
      rewrite mul32_exact by (apply src_w_times_index; exact Hi).
      unfold padd_int; cbn [fst snd in_bounds buffer_size]. right.
      apply src_cell_bounds; assumption.
    + intros k Hk. rewrite Z2Nat.id in Hk by lia.
      unfold padd_int; cbn [fst snd in_bounds buffer_size]. right. lia.
Qed.

Lemma dst_row_next r : dst_row (r - 1) + 4 * (Wo * ratio) + (dst_w - Wo * ratio) * 4 = dst_row r.
Proof. unfold dst_row. lia. Qed.

Lemma src_row_next r : src_row r + src_w * 4 * ratio = src_row (r + 1).
Proof. unfold src_row. lia. Qed.

(** "Other lines" without filling: rows [r], [r + 1], ... *)
Lemma other_lines_nofill_log n : forall r dst_pos src_pos s,
  1 <= r -> r + Z.of_nat n <= R ->
  dst_pos = wrap32 (dst_row (r - 1) + 4 * (Wo * ratio)) ->
  (n <> O -> src_pos = src_row r) ->
  log_grows (in_bounds (buffer_size dst_w dst_h src_w src_h)) s
    (snd (other_lines host n dst_buf src_buf src_w (Wo * ratio) ratio false fill_color
            (to_size_t ((dst_w - Wo * ratio) * 4)) (src_w * 4 * ratio)
            dst_pos src_pos s)).
Proof.
  induction n as [|n IH]; intros r dst_pos src_pos s Hr Hn Hd Hs; cbn [other_lines].
  - apply log_grows_refl.
  - cbn [andb]. rewrite Hd, add_size_to_int_wrap, dst_row_next.
    destruct (dst_row_bounds r ltac:(lia)) as [Hd0 Hd1].
    destruct (src_row_bounds r ltac:(lia)) as [Hs0 Hs1].
    destruct ratio_le_extents as (E1 & E2 & E3 & E4).
    rewrite (wrap32_id (dst_row r)) by (int_range; lia).
    rewrite (Hs ltac:(discriminate)).
    unfold dst_buf, src_buf. rewrite !padd_buf.
    eapply log_grows_trans; [apply (copy_color_row_log r); lia|].
    apply (IH (r + 1)); try lia.
    + rewrite mul32_exact by (int_range; nia).
      unfold add32. replace (r + 1 - 1) with r by lia. f_equal; lia.
    + intros Hn'. assert (0 < Z.of_nat n) by lia.
      destruct (src_row_bounds (r + 1) ltac:(lia)).
      rewrite add32_exact; [apply src_row_next|].
      rewrite src_row_next. int_range; lia.
Qed.

Lemma init_src_pos : mul32 (add32 (mul32 sy src_w) sx) 4 = src_row 0.
Proof.
  destruct (src_row_bounds 0 ltac:(lia)) as [H0 H1]. unfold src_row in *.
  destruct ratio_le_extents as (E1 & E2 & E3 & E4).
  assert (0 <= sy * src_w) by nia.
  rewrite (mul32_exact sy src_w) by (int_range; nia).
  rewrite add32_exact by (int_range; nia).
  rewrite mul32_exact by (int_range; nia). lia.
Qed.

Lemma init_src_stride : mul32 (mul32 src_w 4) ratio = src_w * 4 * ratio.
Proof.
  destruct ratio_le_extents as (E1 & E2 & E3 & E4).
  rewrite (mul32_exact src_w 4) by (int_range; nia).
  apply mul32_exact. int_range; nia.
Qed.

Lemma init_blank :
  to_size_t (to_size_t (add32 (mul32 dy dst_w) dx) * 4) = dst_row 0
  /\ dst_row 0 / 4 = dy * dst_w + dx.
Proof.
  destruct (dst_row_bounds 0 ltac:(lia)) as [H0 H1]. unfold dst_row in *.
  assert (0 <= dy * dst_w) by nia.
  rewrite (mul32_exact dy dst_w) by (int_range; nia).
  rewrite add32_exact by (int_range; nia).
  rewrite (to_size_t_exact (dy * dst_w + dx)) by nia.
  rewrite to_size_t_exact by nia.
  replace (dy + 0) with dy by lia. split; [lia|].
  rewrite Z.mul_comm. apply Z.div_mul. lia.
Qed.

Lemma init_line_blank :
  to_size_t (mul32 (sub32 dst_w (Wo * ratio)) 4) = to_size_t ((dst_w - Wo * ratio) * 4).
Proof.
  destruct ratio_le_extents as (E1 & E2 & E3 & E4).
  assert (1 <= dst_w /\ 1 <= dst_h /\ 1 <= src_h) by nia.
  rewrite sub32_exact by (int_range; nia).
  rewrite mul32_exact by (int_range; nia). reflexivity.
Qed.

Lemma init_width_bytes : mul32 (Wo * ratio) 4 = 4 * (Wo * ratio).
Proof.
  destruct ratio_le_extents as (E1 & E2 & E3 & E4).
  rewrite mul32_exact by (int_range; nia). lia.
Qed.

Lemma init_lines : Z.to_nat (div32 (R * ratio) ratio - 1) = Z.to_nat (R - 1).
Proof.
  destruct ratio_le_extents as (E1 & E2 & E3 & E4).
  rewrite div32_exact by (int_range; nia).
  rewrite Z.quot_mul by lia. reflexivity.
Qed.

Lemma init_dst_size : mul32 (mul32 dst_w dst_h) 4 = dst_w * dst_h * 4.
Proof.
  assert (1 <= dst_w /\ 1 <= dst_h) by nia.
  rewrite (mul32_exact dst_w dst_h) by (int_range; nia).
  apply mul32_exact. int_range; nia.
Qed.

(** [blit] on the clipped rectangle, with its positions in closed form. *)
Lemma blit_unfold fill_blank s :
  blit host dst_buf dst_w dst_h src_buf src_w ratio fill_blank fill_color clipped s =
  let s1 := if fill_blank
            then memset_int host (Dst, 0) fill_color (dy * dst_w + dx) s else s in
  let s2 := copy_color host (Dst, dst_row 0) (Src, src_row 0) src_w (Wo * ratio) ratio s1 in
  let res := other_lines host (Z.to_nat (R - 1)) dst_buf src_buf src_w (Wo * ratio) ratio
               fill_blank fill_color (to_size_t ((dst_w - Wo * ratio) * 4))
               (src_w * 4 * ratio)
               (wrap32 (dst_row 0 + 4 * (Wo * ratio)))
               (add32 (src_row 0) (src_w * 4 * ratio)) s2 in
  if fill_blank
  then memset_int host (Dst, fst (fst res)) fill_color
         (to_size_t (sub32 (dst_w * dst_h * 4) (fst (fst res))) / 4) (snd res)
  else snd res.
Proof.
  unfold blit, clipped. cbn [gsrc_x gsrc_y gdst_x gdst_y gwidth gheight].
  destruct init_blank as [Eb Eq].
  destruct (dst_row_bounds 0 ltac:(lia)) as [H0 H1].
  rewrite init_src_pos, init_src_stride, Eb, Eq, init_line_blank,
    init_width_bytes, init_lines, init_dst_size.
  unfold add_size_to_int.
  rewrite (to_size_t_exact 0) by (int_range; lia).
  rewrite Z.add_0_l.
  assert (Hs4 : 0 <= dst_row 0 <= INT_MAX) by nia.
  rewrite (to_size_t_exact (dst_row 0)) by exact Hs4.
  rewrite (wrap32_id (dst_row 0)) by (int_range; lia).
  unfold dst_buf, src_buf. rewrite !padd_buf.
  cbv zeta. unfold add32 at 1.
  destruct (other_lines host (Z.to_nat (R - 1)) (Dst, 0) (Src, 0) src_w (Wo * ratio) ratio
              fill_blank fill_color (to_size_t ((dst_w - Wo * ratio) * 4))
              (src_w * 4 * ratio) (wrap32 (dst_row 0 + 4 * (Wo * ratio)))
              (add32 (src_row 0) (src_w * 4 * ratio)) _) as [[dp sp] s3].
  cbn [fst snd]. rewrite padd_buf. reflexivity.
Qed.

(** Without [fill_blank] every access of the blit is in bounds. *)
Lemma blit_nofill_log s :
  log_grows (in_bounds (buffer_size dst_w dst_h src_w src_h)) s
    (blit host dst_buf dst_w dst_h src_buf src_w ratio false fill_color clipped s).
Proof.
  rewrite blit_unfold. cbv zeta.
  eapply log_grows_trans; [apply (copy_color_row_log 0); lia|].
  apply (other_lines_nofill_log (Z.to_nat (R - 1)) 1); try lia.
  - reflexivity.
  - intros Hn. assert (2 <= R) by lia.
    destruct (src_row_bounds 1 ltac:(lia)).
    rewrite add32_exact; [apply src_row_next|].
    rewrite src_row_next. change (0 + 1) with 1. int_range; lia.
Qed.





(** "Other lines" for [ratio = 1]: rows [r], [r + 1], ... are copied
    byte for byte, nothing before [dst_pos] changes, and every access is
    in bounds. *)
Lemma other_lines_ratio1 fill_blank n : forall r dst_pos src_pos s,
  ratio = 1 -> 1 <= r -> r + Z.of_nat n <= R ->
  dst_pos = dst_row (r - 1) + 4 * (Wo * ratio) ->
  (n <> O -> src_pos = src_row r) ->
  let res := other_lines host n dst_buf src_buf src_w (Wo * ratio) ratio
               fill_blank fill_color ((dst_w - Wo * ratio) * 4)
               (src_w * 4 * ratio) dst_pos src_pos s in
  fst (fst res) = dst_row (r + Z.of_nat n - 1) + 4 * (Wo * ratio) /\
  log_grows (in_bounds (buffer_size dst_w dst_h src_w src_h)) s (snd res) /\
  (forall o, o < dst_pos -> st_mem (snd res) Dst o = st_mem s Dst o) /\
  (forall t x, r <= t < r + Z.of_nat n -> 0 <= x < 4 * (Wo * ratio) ->
     st_mem (snd res) Dst (dst_row t + x) = st_mem s Src (src_row t + x)).
Proof.
  induction n as [|n IH]; intros r dst_pos src_pos s E1 Hr Hn Hd Hs res; subst res;
    cbn [other_lines].
  - cbn [fst snd]. repeat split.
    + rewrite Hd. do 2 f_equal. lia.
    + apply log_grows_refl.
    + intros; lia.
  - destruct (dst_row_bounds (r - 1) ltac:(lia)) as [Hp0 Hp1].
    destruct (dst_row_bounds r ltac:(lia)) as [Hd0 Hd1].
    destruct (src_row_bounds r ltac:(lia)) as [Hs0 Hs1].
    pose proof (dst_row_next r) as Hnext.
    assert (HW : 0 <= (dst_w - Wo * ratio) * 4 <= INT_MAX) by nia.
    replace ((dst_w - Wo * ratio) * 4 / 4) with (dst_w - Wo * ratio)
      by (symmetry; apply Z.div_mul; lia).
    rewrite add_size_to_int_plain by (int_range; lia).
    rewrite (Hs ltac:(discriminate)).
    replace (dst_pos + (dst_w - Wo * ratio) * 4) with (dst_row r) by lia.
    unfold dst_buf, src_buf in *. rewrite !padd_buf.
    rewrite init_width_bytes.
    rewrite (add32_exact (dst_row r)) by (int_range; nia).
    set (s1 := if fill_blank && negb ((dst_w - Wo * ratio) * 4 =? 0)
               then memset_int host (Dst, dst_pos) fill_color (dst_w - Wo * ratio) s
               else s).
    assert (L1 : log_grows (in_bounds (buffer_size dst_w dst_h src_w src_h)) s s1).
    { subst s1. destruct (fill_blank && negb _); [|apply log_grows_refl].
      apply memset_int_log; [cbn [snd]; unfold dst_row in *; lia|]. intros k Hk.
      unfold padd_int; cbn [fst snd in_bounds buffer_size]. right. lia. }
    assert (M1 : forall o, o < dst_pos -> st_mem s1 Dst o = st_mem s Dst o).
    { intros o Ho. subst s1. destruct (fill_blank && negb _); [|reflexivity].
      apply memset_int_below. exact Ho. }
    assert (F1 : forall o, st_mem s1 Src o = st_mem s Src o).
    { intros o. subst s1. destruct (fill_blank && negb _); [|reflexivity].
      apply (memset_int_outside host (Dst, dst_pos)). cbn; congruence. }
    set (s2 := copy_color host (Dst, dst_row r) (Src, src_row r) src_w (Wo * ratio) ratio s1).
    assert (L2 : log_grows (in_bounds (buffer_size dst_w dst_h src_w src_h)) s1 s2).
    { apply copy_color_row_log. lia. }
    assert (E2 : s2 = memcpy (Dst, dst_row r) (Src, src_row r) (4 * (Wo * ratio)) s1).
    { subst s2. rewrite copy_color_ratio1 by exact E1.
      rewrite init_width_bytes, to_size_t_exact by nia. reflexivity. }
    specialize (IH (r + 1) (dst_row r + 4 * (Wo * ratio))
                   (add32 (src_row r) (src_w * 4 * ratio)) s2 E1
                   ltac:(lia) ltac:(lia)).
    destruct IH as (I1 & I2 & I3 & I4).
    { replace (r + 1 - 1) with r by lia. reflexivity. }
    { intros Hn'. assert (0 < Z.of_nat n) by lia.
      destruct (src_row_bounds (r + 1) ltac:(lia)).
      rewrite add32_exact; [apply src_row_next|].
      rewrite src_row_next. int_range; lia. }
    repeat split.
    + rewrite I1. do 2 f_equal. lia.
    + eapply log_grows_trans; [exact L1|].
      eapply log_grows_trans; [exact L2|exact I2].
    + intros o Ho. rewrite I3 by lia. rewrite E2.
      rewrite memcpy_below by (cbn [snd]; lia). apply M1. exact Ho.
    + intros t x Ht Hx.
      destruct (Z.eq_dec t r) as [-> | Hne].
      * rewrite I3 by lia. rewrite E2.
        rewrite (memcpy_inside (Dst, dst_row r) (Src, src_row r)) by (cbn [snd]; lia).
        cbn [fst snd]. rewrite F1. f_equal. lia.
      * rewrite I4 by lia. rewrite E2.
        rewrite (memcpy_outside (Dst, dst_row r)) by (cbn; congruence).
        apply F1.
Qed.

Lemma dst_row_mono t u : 0 <= t <= u -> dst_row t <= dst_row u.
Proof. intros H. unfold dst_row. assert (0 <= dst_w) by nia. nia. Qed.

(** The blit for [ratio = 1]: every access is in bounds and the rows of
    the rectangle are copied byte for byte. *)
Lemma blit_ratio1 fill_blank s :
  ratio = 1 ->
  let s' := blit host dst_buf dst_w dst_h src_buf src_w ratio fill_blank
                 fill_color clipped s in
  log_grows (in_bounds (buffer_size dst_w dst_h src_w src_h)) s s' /\
  (forall t x, 0 <= t < R -> 0 <= x < 4 * (Wo * ratio) ->
     st_mem s' Dst (dst_row t + x) = st_mem s Src (src_row t + x)).
Proof.
  intros E1 s'. subst s'. rewrite blit_unfold. cbv zeta.
  destruct (dst_row_bounds 0 ltac:(lia)) as [Hd0 Hd1].
  destruct (dst_row_bounds (R - 1) ltac:(lia)) as [He0 He1].
  destruct (src_row_bounds 0 ltac:(lia)) as [Hs0 Hs1].
  assert (HW : 0 <= (dst_w - Wo * ratio) * 4 <= INT_MAX) by nia.
  rewrite (to_size_t_exact ((dst_w - Wo * ratio) * 4)) by exact HW.
  rewrite (wrap32_id (dst_row 0 + 4 * (Wo * ratio))) by (int_range; nia).
  set (s1 := if fill_blank
             then memset_int host (Dst, 0) fill_color (dy * dst_w + dx) s else s).
  assert (L1 : log_grows (in_bounds (buffer_size dst_w dst_h src_w src_h)) s s1).
  { subst s1. destruct fill_blank; [|apply log_grows_refl].
    apply memset_int_log; [cbn [snd]; unfold dst_row in *; lia|]. intros k Hk.
    unfold padd_int; cbn [fst snd in_bounds buffer_size]. right.
    unfold dst_row in Hd0, Hd1. lia. }
  assert (F1 : forall o, st_mem s1 Src o = st_mem s Src o).
  { intros o. subst s1. destruct fill_blank; [|reflexivity].
    apply (memset_int_outside host (Dst, 0)). cbn; congruence. }
  set (s2 := copy_color host (Dst, dst_row 0) (Src, src_row 0) src_w (Wo * ratio) ratio s1).
  assert (L2 : log_grows (in_bounds (buffer_size dst_w dst_h src_w src_h)) s1 s2).
  { apply copy_color_row_log. lia. }
  assert (E2 : s2 = memcpy (Dst, dst_row 0) (Src, src_row 0) (4 * (Wo * ratio)) s1).
  { subst s2. rewrite copy_color_ratio1 by exact E1.
    rewrite init_width_bytes, to_size_t_exact by nia. reflexivity. }
  destruct (other_lines_ratio1 fill_blank (Z.to_nat (R - 1)) 1
              (dst_row 0 + 4 * (Wo * ratio))
              (add32 (src_row 0) (src_w * 4 * ratio)) s2 E1
              ltac:(lia) ltac:(lia)) as (I1 & I2 & I3 & I4).
  { reflexivity. }
  { intros Hn. assert (2 <= R) by lia.
    destruct (src_row_bounds 1 ltac:(lia)).
    rewrite add32_exact; [apply src_row_next|].
    rewrite src_row_next. change (0 + 1) with 1. int_range; lia. }
  set (res := other_lines host (Z.to_nat (R - 1)) dst_buf src_buf src_w (Wo * ratio)
                ratio fill_blank fill_color ((dst_w - Wo * ratio) * 4)
                (src_w * 4 * ratio) (dst_row 0 + 4 * (Wo * ratio))
                (add32 (src_row 0) (src_w * 4 * ratio)) s2) in *.
  replace (1 + Z.of_nat (Z.to_nat (R - 1)) - 1) with (R - 1) in I1 by lia.
  assert (L3 : log_grows (in_bounds (buffer_size dst_w dst_h src_w src_h)) s (snd res)).
  { eapply log_grows_trans; [exact L1|].
    eapply log_grows_trans; [exact L2|exact I2]. }
  assert (M3 : forall t x, 0 <= t < R -> 0 <= x < 4 * (Wo * ratio) ->
             st_mem (snd res) Dst (dst_row t + x) = st_mem s Src (src_row t + x)).
  { intros t x Ht Hx. destruct (Z.eq_dec t 0) as [-> | Hne].
    - rewrite I3 by lia. rewrite E2.
      rewrite (memcpy_inside (Dst, dst_row 0) (Src, src_row 0)) by (cbn [snd]; lia).
      cbn [fst snd]. rewrite F1. f_equal. lia.
    - rewrite I4 by lia. rewrite E2.
      rewrite (memcpy_outside (Dst, dst_row 0)) by (cbn; congruence).
      apply F1. }
  destruct fill_blank; [|split; assumption].
  rewrite I1. split.
  - eapply log_grows_trans; [exact L3|].
    rewrite sub32_exact by (int_range; lia).
    rewrite to_size_t_exact by lia.
    assert (4 * ((dst_w * dst_h * 4 - (dst_row (R - 1) + 4 * (Wo * ratio))) / 4)
            <= dst_w * dst_h * 4 - (dst_row (R - 1) + 4 * (Wo * ratio)))
      by (apply Z.mul_div_le; lia).
    assert (0 <= (dst_w * dst_h * 4 - (dst_row (R - 1) + 4 * (Wo * ratio))) / 4)
      by (apply Z.div_pos; lia).
    apply memset_int_log; [cbn [snd]; lia|]. intros k Hk.
    unfold padd_int; cbn [fst snd in_bounds buffer_size]. right.
    lia.
  - intros t x Ht Hx. rewrite memset_int_below.
    + apply M3; assumption.
    + cbn [snd]. pose proof (dst_row_mono t (R - 1) ltac:(lia)). lia.
Qed.

(** "Other lines" for [ratio = 1] with [fill_blank]: the gap before each
    of the rows [r], [r + 1], ... holds the fill colour. *)
Lemma other_lines_ratio1_gaps n : forall r dst_pos src_pos s,
  ratio = 1 -> in_int fill_color -> 1 <= r -> r + Z.of_nat n <= R ->
  dst_pos = dst_row (r - 1) + 4 * (Wo * ratio) ->
  (n <> O -> src_pos = src_row r) ->
  let res := other_lines host n dst_buf src_buf src_w (Wo * ratio) ratio
               true fill_color ((dst_w - Wo * ratio) * 4)
               (src_w * 4 * ratio) dst_pos src_pos s in
  forall t q, r <= t < r + Z.of_nat n ->
    dst_row (t - 1) + 4 * (Wo * ratio) <= 4 * q < dst_row t ->
    pixel_at host (st_mem (snd res)) Dst (4 * q) = fill_color.
Proof.
  induction n as [|n IH]; intros r dst_pos src_pos s E1 Hfc Hr Hn Hd Hs res t q Ht Hq;
    subst res; [lia|].
  destruct (Z.eq_dec t r) as [-> | Hne].
  - (* the gap filled in this iteration *)
    destruct (dst_row_bounds (r - 1) ltac:(lia)) as [Hp0 Hp1].
    destruct (dst_row_bounds r ltac:(lia)) as [Hd0 Hd1].
    pose proof (dst_row_next r) as Hnext.
    assert (HW : 0 <= (dst_w - Wo * ratio) * 4 <= INT_MAX) by nia.
    cbn [other_lines].
    destruct (Z.eqb_spec ((dst_w - Wo * ratio) * 4) 0) as [E0 | _]; [lia|].
    cbn [andb negb].
    replace ((dst_w - Wo * ratio) * 4 / 4) with (dst_w - Wo * ratio)
      by (symmetry; apply Z.div_mul; lia).
    rewrite add_size_to_int_plain by (int_range; lia).
    replace (dst_pos + (dst_w - Wo * ratio) * 4) with (dst_row r) by lia.
    unfold dst_buf, src_buf. rewrite !padd_buf.
    rewrite init_width_bytes.
    rewrite (add32_exact (dst_row r)) by (int_range; nia).
    set (s1 := memset_int host (Dst, dst_pos) fill_color (dst_w - Wo * ratio) s).
    set (s2 := copy_color host (Dst, dst_row r) (Src, src_row r) src_w (Wo * ratio) ratio s1).
    assert (E2 : s2 = memcpy (Dst, dst_row r) (Src, src_row r) (4 * (Wo * ratio)) s1).
    { subst s2. rewrite copy_color_ratio1 by exact E1.
      rewrite init_width_bytes, to_size_t_exact by nia. reflexivity. }
    destruct (other_lines_ratio1 true n (r + 1) (dst_row r + 4 * (Wo * ratio))
                (add32 (src_row (Z.of_nat 0 + r)) (src_w * 4 * ratio)) s2 E1
                ltac:(lia) ltac:(lia)) as (_ & _ & I3 & _).
    { replace (r + 1 - 1) with r by lia. reflexivity. }
    { intros Hn'. assert (0 < Z.of_nat n) by lia. cbn [Z.of_nat Z.add].
      destruct (src_row_bounds (r + 1) ltac:(lia)).
      rewrite add32_exact; [apply src_row_next|].
      rewrite src_row_next. int_range; lia. }
    cbn [Z.of_nat Z.add] in I3. unfold dst_buf, src_buf in I3.
    rewrite (Hs ltac:(discriminate)).
    transitivity (pixel_at host (st_mem s1) Dst (4 * q)).
    + apply pixel_at_ext. intros k Hk. rewrite I3 by lia. rewrite E2.
      apply memcpy_below. cbn [snd]. unfold dst_row in Hq |- *. lia.
    + subst s1. unfold dst_row in Hd, Hq, Hnext.
      replace (4 * q) with (snd (Dst, dst_pos) + 4 * (q - dst_pos / 4)).
      * apply (memset_int_pixel host (Dst, dst_pos));
          [exact Hfc | | cbn [snd]; unfold dst_row, INT_MAX in *; lia ..].
        cbn [snd]. Z.to_euclidean_division_equations; lia.
      * cbn [snd]. Z.to_euclidean_division_equations; lia.
  - (* a later gap *)
    cbn [other_lines].
    destruct (dst_row_bounds (r - 1) ltac:(lia)) as [Hp0 Hp1].
    destruct (dst_row_bounds r ltac:(lia)) as [Hd0 Hd1].
    pose proof (dst_row_next r) as Hnext.
    assert (HW : 0 <= (dst_w - Wo * ratio) * 4 <= INT_MAX) by nia.
    rewrite add_size_to_int_plain by (int_range; lia).
    replace (dst_pos + (dst_w - Wo * ratio) * 4) with (dst_row r) by lia.
    rewrite init_width_bytes.
    unfold dst_buf at 2. rewrite padd_buf.
    rewrite (add32_exact (dst_row r)) by (int_range; nia).
    apply (IH (r + 1)) with (t := t); try assumption; try lia.
    + replace (r + 1 - 1) with r by lia. reflexivity.
    + intros Hn'. assert (0 < Z.of_nat n) by lia.
      rewrite (Hs ltac:(discriminate)).
      destruct (src_row_bounds (r + 1) ltac:(lia)).
      rewrite add32_exact; [apply src_row_next|].
      rewrite src_row_next. int_range; lia.
Qed.

(** A destination pixel outside the rows of the rectangle lies before the
    first row, in the gap before a later row, or after the last row. *)
Lemma outside_cases q :
  ratio = 1 -> 0 <= q < dst_w * dst_h ->
  (forall t, 0 <= t < R ->
     ~ ((dy + t) * dst_w + dx <= q < (dy + t) * dst_w + dx + Wo)) ->
  q < dy * dst_w + dx \/
  (exists r, 1 <= r < R /\ dst_row (r - 1) + 4 * (Wo * ratio) <= 4 * q < dst_row r) \/
  (dy + R - 1) * dst_w + dx + Wo <= q.
Proof.
  intros E1 Hq Hout. subst ratio. rewrite Z.mul_1_r in *.
  assert (Hdw0 : 0 < dst_w) by lia.
  pose proof (Z.div_mod q dst_w ltac:(lia)) as Eq.
  pose proof (Z.mod_pos_bound q dst_w Hdw0) as Hcol.
  set (row := q / dst_w) in *. set (col := q mod dst_w) in *.
  destruct (Z_lt_le_dec row dy) as [Hlow | Hlow]; [left; nia|].
  destruct (Z_lt_le_dec (dy + R - 1) row) as [Hhigh | Hhigh]; [right; right; nia|].
  specialize (Hout (row - dy) ltac:(lia)).
  replace (dy + (row - dy)) with row in Hout by lia.
  destruct (Z_lt_le_dec col dx) as [Hc | Hc].
  - destruct (Z.eq_dec row dy) as [-> | Hne]; [left; lia|].
    right; left. exists (row - dy). unfold dst_row. split; [lia|]. nia.
  - assert (Hc2 : dx + Wo <= col) by nia.
    destruct (Z.eq_dec row (dy + R - 1)) as [-> | Hne]; [right; right; nia|].
    right; left. exists (row - dy + 1). unfold dst_row. split; [lia|]. nia.
Qed.

(** The blit for [ratio = 1] with [fill_blank]: every destination pixel
    outside the copied rectangle holds the fill colour. *)
Lemma blit_ratio1_fills s q :
  ratio = 1 -> in_int fill_color -> 0 <= q < dst_w * dst_h ->
  (forall t, 0 <= t < R ->
     ~ ((dy + t) * dst_w + dx <= q < (dy + t) * dst_w + dx + Wo)) ->
  pixel_at host
    (st_mem (blit host dst_buf dst_w dst_h src_buf src_w ratio true fill_color clipped s))
    Dst (4 * q) = fill_color.
Proof.
  intros E1 Hfc Hq Hout. rewrite blit_unfold. cbv zeta.
  destruct (dst_row_bounds 0 ltac:(lia)) as [Hd0 Hd1].
  destruct (dst_row_bounds (R - 1) ltac:(lia)) as [He0 He1].
  assert (HW : 0 <= (dst_w - Wo * ratio) * 4 <= INT_MAX) by nia.
  rewrite (to_size_t_exact ((dst_w - Wo * ratio) * 4)) by exact HW.
  rewrite (wrap32_id (dst_row 0 + 4 * (Wo * ratio))) by (int_range; nia).
  set (s1 := memset_int host (Dst, 0) fill_color (dy * dst_w + dx) s).
  set (s2 := copy_color host (Dst, dst_row 0) (Src, src_row 0) src_w (Wo * ratio) ratio s1).
  assert (E2 : s2 = memcpy (Dst, dst_row 0) (Src, src_row 0) (4 * (Wo * ratio)) s1).
  { subst s2. rewrite copy_color_ratio1 by exact E1.
    rewrite init_width_bytes, to_size_t_exact by nia. reflexivity. }
  assert (Hsrc : Z.to_nat (R - 1) <> O ->
                 add32 (src_row 0) (src_w * 4 * ratio) = src_row 1).
  { intros Hn. assert (2 <= R) by lia.
    destruct (src_row_bounds 1 ltac:(lia)).
    rewrite add32_exact; [apply src_row_next|].
    rewrite src_row_next. change (0 + 1) with 1. int_range; lia. }
  destruct (other_lines_ratio1 true (Z.to_nat (R - 1)) 1
              (dst_row 0 + 4 * (Wo * ratio))
              (add32 (src_row 0) (src_w * 4 * ratio)) s2 E1
              ltac:(lia) ltac:(lia) eq_refl Hsrc) as (I1 & _ & I3 & _).
  pose proof (other_lines_ratio1_gaps (Z.to_nat (R - 1)) 1
                (dst_row 0 + 4 * (Wo * ratio))
                (add32 (src_row 0) (src_w * 4 * ratio)) s2 E1 Hfc
                ltac:(lia) ltac:(lia) eq_refl Hsrc) as G.
  cbv zeta in G.
  set (res := other_lines host (Z.to_nat (R - 1)) dst_buf src_buf src_w (Wo * ratio)
                ratio true fill_color ((dst_w - Wo * ratio) * 4)
                (src_w * 4 * ratio) (dst_row 0 + 4 * (Wo * ratio))
                (add32 (src_row 0) (src_w * 4 * ratio)) s2) in *.
  replace (1 + Z.of_nat (Z.to_nat (R - 1)) - 1) with (R - 1) in I1 by lia.
  rewrite I1.
  rewrite sub32_exact by (int_range; lia).
  rewrite to_size_t_exact by lia.
  destruct (outside_cases q E1 Hq Hout) as [C1 | [(r & Hr & C2) | C3]].
  - (* before the first row: the start fill *)
    transitivity (pixel_at host (st_mem s1) Dst (4 * q)).
    + apply pixel_at_ext. intros k Hk.
      unfold dst_row in Hd0, Hd1, He0, He1.
      rewrite memset_int_below by (cbn [snd]; unfold dst_row; nia).
      rewrite I3 by (unfold dst_row; nia). rewrite E2.
      apply memcpy_below. cbn [snd]. unfold dst_row. lia.
    + subst s1. change (4 * q) with (snd (Dst, 0) + 4 * q).
      apply (memset_int_pixel host (Dst, 0));
        [exact Hfc | lia | cbn [snd]; unfold dst_row, INT_MAX in *; lia ..].
  - (* in a gap between two rows *)
    transitivity (pixel_at host (st_mem (snd res)) Dst (4 * q)).
    + apply pixel_at_ext. intros k Hk.
      apply memset_int_below. cbn [snd].
      pose proof (dst_row_mono r (R - 1) ltac:(lia)).
      unfold dst_row in *. lia.
    + apply (G r); [lia | exact C2].
  - (* after the last row: the end fill *)
    unfold dst_row in *.
    replace (4 * q)
      with (snd (Dst, 4 * ((dy + (R - 1)) * dst_w + dx) + 4 * (Wo * ratio))
            + 4 * (q - ((dy + R - 1) * dst_w + dx + Wo))) by (cbn [snd]; nia).
    assert (Hle : q - ((dy + R - 1) * dst_w + dx + Wo) + 1
                  <= (dst_w * dst_h * 4
                      - (4 * ((dy + (R - 1)) * dst_w + dx) + 4 * (Wo * ratio))) / 4)
      by (apply Z.div_le_lower_bound; [lia | nia]).
    assert (Hup : 4 * ((dst_w * dst_h * 4
                        - (4 * ((dy + (R - 1)) * dst_w + dx) + 4 * (Wo * ratio))) / 4)
                  <= dst_w * dst_h * 4
                     - (4 * ((dy + (R - 1)) * dst_w + dx) + 4 * (Wo * ratio)))
      by (apply Z.mul_div_le; lia).
    apply (memset_int_pixel host (Dst, _));
      [exact Hfc | | cbn [snd]; unfold INT_MAX in *; lia ..].
    split; [lia|]. lia.
Qed.

(** The row copier on output row [r] changes the [Wo] pixels of that row
    and nothing else. *)
Lemma copy_color_row_frame r s b o :
  0 <= r < R ->
  ~ (b = Dst /\ dst_row r <= o < dst_row r + 4 * Wo) ->
  st_mem (copy_color host (Dst, dst_row r) (Src, src_row r) src_w (Wo * ratio) ratio s) b o
  = st_mem s b o.
Proof.
  intros Hr Hout.
  destruct ratio_le_extents as (E1 & E2 & E3 & E4).
  apply copy_color_frame; try lia; [nia | exact Hout].
Qed.

(** For a [ratio] up to 11, output pixel [k] of row [r] receives the
    averages of its block of the source. *)
Lemma copy_color_row_avg r s k c :
  ratio <= 11 -> (forall o, is_byte (st_mem s Src o)) ->
  0 <= r < R -> 0 <= k < Wo -> 0 <= c < 4 ->
  st_mem (copy_color host (Dst, dst_row r) (Src, src_row r) src_w (Wo * ratio) ratio s)
         Dst (dst_row r + 4 * k + c)
  = channel_sum (st_mem s) (Src, src_row r + 4 * (ratio * k)) src_w ratio c
    / (ratio * ratio).
Proof.
  intros H2 Hbytes Hr Hk Hc.
  destruct ratio_le_extents as (E1 & E2 & E3 & E4).
  pose proof (copy_color_avg host (Dst, dst_row r) (Src, src_row r)
                src_w Wo ratio s k c) as H.
  cbn [fst snd] in H. unfold padd_int in H. cbn [fst snd] in H.
  apply H; try assumption; try lia; try nia.
  discriminate.
Qed.

(** "Other lines" without filling: outside the rows [r], [r + 1], ...
    memory is unchanged, and for a [ratio] up to 11 each pixel of these
    rows holds the averages of its block. *)
Lemma other_lines_nofill_mem n : forall r dst_pos src_pos s,
  1 <= r -> r + Z.of_nat n <= R ->
  dst_pos = wrap32 (dst_row (r - 1) + 4 * (Wo * ratio)) ->
  (n <> O -> src_pos = src_row r) ->
  let s' := snd (other_lines host n dst_buf src_buf src_w (Wo * ratio) ratio false
                   fill_color (to_size_t ((dst_w - Wo * ratio) * 4)) (src_w * 4 * ratio)
                   dst_pos src_pos s) in
  (forall b o,
     ~ (b = Dst /\ exists t, r <= t < r + Z.of_nat n /\
                             dst_row t <= o < dst_row t + 4 * Wo) ->
     st_mem s' b o = st_mem s b o) /\
  (ratio <= 11 -> (forall o, is_byte (st_mem s Src o)) ->
   forall t k c, r <= t < r + Z.of_nat n -> 0 <= k < Wo -> 0 <= c < 4 ->
     st_mem s' Dst (dst_row t + 4 * k + c)
     = channel_sum (st_mem s) (Src, src_row t + 4 * (ratio * k)) src_w ratio c
       / (ratio * ratio)).
Proof.
  induction n as [|n IH]; intros r dst_pos src_pos s Hr Hn Hd Hs s'; subst s';
    cbn [other_lines].
  - cbn [snd]. split; [reflexivity | intros; lia].
  - cbn [andb]. rewrite Hd, add_size_to_int_wrap, dst_row_next.
    destruct (dst_row_bounds r ltac:(lia)) as [Hd0 Hd1].
    destruct (src_row_bounds r ltac:(lia)) as [Hs0 Hs1].
    destruct ratio_le_extents as (E1 & E2 & E3 & E4).
    rewrite (wrap32_id (dst_row r)) by (int_range; lia).
    rewrite (Hs ltac:(discriminate)).
    unfold dst_buf, src_buf in *. rewrite !padd_buf.
    set (s2 := copy_color host (Dst, dst_row r) (Src, src_row r) src_w (Wo * ratio) ratio s).
    assert (F2 : forall o, st_mem s2 Src o = st_mem s Src o).
    { intros o. apply copy_color_row_frame; [lia|]. intros [Hb _]. discriminate Hb. }
    specialize (IH (r + 1) (add32 (dst_row r) (mul32 (Wo * ratio) 4))
                   (add32 (src_row r) (src_w * 4 * ratio)) s2 ltac:(lia) ltac:(lia)).
    destruct IH as [I1 I2].
    { rewrite mul32_exact by (int_range; nia).
      unfold add32. replace (r + 1 - 1) with r by lia. f_equal; lia. }
    { intros Hn'. assert (0 < Z.of_nat n) by lia.
      destruct (src_row_bounds (r + 1) ltac:(lia)).
      rewrite add32_exact; [apply src_row_next|].
      rewrite src_row_next. int_range; lia. }
    split.
    + intros b o Hout. rewrite I1.
      * apply copy_color_row_frame; [lia|]. intros [Hb Ho]. apply Hout.
        split; [exact Hb | exists r; lia].
      * intros [Hb (t & Ht & Ho)]. apply Hout. split; [exact Hb | exists t; lia].
    + intros H2 Hbytes t k c Ht Hk Hc.
      destruct (Z.eq_dec t r) as [-> | Hne].
      * rewrite I1; [apply copy_color_row_avg; (assumption || lia)|].
        intros [_ (t & Ht' & Ho)].
        assert (dst_row r + 4 * Wo <= dst_row t) by (unfold dst_row; nia).
        lia.
      * rewrite I2; try assumption; try lia.
        -- f_equal. apply channel_sum_ext. intros o. apply F2.
        -- intros o. rewrite F2. apply Hbytes.
Qed.

(** The blit without [fill_blank]: outside the rows of the output
    rectangle memory is unchanged, and for a [ratio] up to 11 each pixel
    of the rectangle holds the averages of its block of the source. *)
Lemma blit_nofill_mem s :
  let s' := blit host dst_buf dst_w dst_h src_buf src_w ratio false fill_color clipped s in
  (forall b o,
     ~ (b = Dst /\ exists t, 0 <= t < R /\ dst_row t <= o < dst_row t + 4 * Wo) ->
     st_mem s' b o = st_mem s b o) /\
  (ratio <= 11 -> (forall o, is_byte (st_mem s Src o)) ->
   forall t k c, 0 <= t < R -> 0 <= k < Wo -> 0 <= c < 4 ->
     st_mem s' Dst (dst_row t + 4 * k + c)
     = channel_sum (st_mem s) (Src, src_row t + 4 * (ratio * k)) src_w ratio c
       / (ratio * ratio)).
Proof.
  intros s'. subst s'. rewrite blit_unfold. cbv zeta.
  set (s2 := copy_color host (Dst, dst_row 0) (Src, src_row 0) src_w (Wo * ratio) ratio s).
  assert (F2 : forall o, st_mem s2 Src o = st_mem s Src o).
  { intros o. apply copy_color_row_frame; [lia|]. intros [Hb _]. discriminate Hb. }
  destruct (other_lines_nofill_mem (Z.to_nat (R - 1)) 1
              (wrap32 (dst_row 0 + 4 * (Wo * ratio)))
              (add32 (src_row 0) (src_w * 4 * ratio)) s2 ltac:(lia) ltac:(lia))
    as [I1 I2].
  { reflexivity. }
  { intros Hn. assert (2 <= R) by lia.
    destruct (src_row_bounds 1 ltac:(lia)).
    rewrite add32_exact; [apply src_row_next|].
    rewrite src_row_next. change (0 + 1) with 1. int_range; lia. }
  split.
  - intros b o Hout. rewrite I1.
    + apply copy_color_row_frame; [lia|]. intros [Hb Ho]. apply Hout.
      split; [exact Hb | exists 0; lia].
    + intros [Hb (t & Ht & Ho)]. apply Hout. split; [exact Hb | exists t; lia].
  - intros H2 Hbytes t k c Ht Hk Hc.
    destruct (Z.eq_dec t 0) as [-> | Hne].
    + rewrite I1; [apply copy_color_row_avg; (assumption || lia)|].
      intros [_ (t & Ht' & Ho)].
      assert (dst_row 0 + 4 * Wo <= dst_row t) by (unfold dst_row; nia).
      lia.
    + rewrite I2; try assumption; try lia.
      * f_equal. apply channel_sum_ext. intros o. apply F2.
      * intros o. rewrite F2. apply Hbytes.
Qed.

End Blit.

(* ================================================================= *)
(** ** Whole calls *)

Lemma floor_by_1 n : in_int n -> floor n 1 = n.
Proof.
  intros H. rewrite floor_spec by (assumption || lia).
  rewrite Z.quot_1_r. lia.
Qed.

Lemma clip_low_inside sp dp len :
  0 <= sp -> 0 <= dp -> 0 < len -> clip_low 1 (sp, dp, len) = Some (sp, dp, len).
Proof.
  intros Hs Hd Hl. unfold clip_low.
  destruct (Z.ltb_spec sp 0); [lia|].
  destruct (Z.ltb_spec dp 0); [lia|].
  destruct (Z.leb_spec len 0); [lia|]. reflexivity.
Qed.

Lemma clip_high_inside smax dmax sp dp len :
  0 <= sp -> 0 <= dp -> 0 < len ->
  sp + len <= smax -> dp + len <= dmax -> smax <= INT_MAX -> dmax <= INT_MAX ->
  clip_high 1 smax dmax (sp, dp, len) = Some (sp, dp, len).
Proof.
  intros Hs Hd Hl Hsm Hdm Hsi Hdi. unfold clip_high. rewrite !Z.gtb_ltb.
  rewrite (add32_exact sp len) by (int_range; lia).
  rewrite (sub32_exact (sp + len) smax) by (int_range; lia).
  destruct (Z.ltb_spec 0 (sp + len - smax)); [lia|].
  rewrite (div32_exact len 1) by (int_range; lia).
  rewrite Z.quot_1_r.
  rewrite (add32_exact dp len) by (int_range; lia).
  rewrite (sub32_exact (dp + len) dmax) by (int_range; lia).
  destruct (Z.ltb_spec 0 (dp + len - dmax)); [lia|].
  destruct (Z.leb_spec len 0); [lia|]. reflexivity.
Qed.

(** With [ratio = 1] a rectangle that is inside both buffers is left as it
    is by the clipping. *)
Lemma clip_inside_ratio1 dst_w dst_h src_w src_h sx sy dx dy W H :
  0 <= sx -> 0 <= sy -> 0 <= dx -> 0 <= dy -> 0 < W -> 0 < H ->
  sx + W <= src_w -> sy + H <= src_h -> dx + W <= dst_w -> dy + H <= dst_h ->
  dst_w * dst_h * 4 <= INT_MAX -> src_w * src_h * 4 <= INT_MAX ->
  clip dst_w dst_h src_w src_h 1 (mkGeometry sx sy dx dy W H)
  = Some (mkGeometry sx sy dx dy W H).
Proof.
  intros Hsx Hsy Hdx Hdy HW HH Hsw Hsh Hdw Hdh Hds Hss.
  assert (Hb : src_w <= INT_MAX /\ src_h <= INT_MAX /\
               dst_w <= INT_MAX /\ dst_h <= INT_MAX) by nia.
  unfold clip, clip_ratio. cbn [gwidth gheight gsrc_x gsrc_y gdst_x gdst_y].
  rewrite !floor_by_1 by (int_range; lia). rewrite !Z.gtb_ltb.
  destruct (Z.leb_spec 1 0); [lia|].
  destruct (Z.ltb_spec W 1); [lia|].
  destruct (Z.ltb_spec H 1); [lia|].
  cbn [orb obind].
  unfold clip_x_low, x_axis. cbn [gwidth gheight gsrc_x gsrc_y gdst_x gdst_y].
  rewrite clip_low_inside by lia. cbn [option_map set_x_axis obind].
  cbn [gwidth gheight gsrc_x gsrc_y gdst_x gdst_y].
  unfold clip_y_low, y_axis. cbn [gwidth gheight gsrc_x gsrc_y gdst_x gdst_y].
  rewrite clip_low_inside by lia. cbn [option_map set_y_axis obind].
  cbn [gwidth gheight gsrc_x gsrc_y gdst_x gdst_y].
  unfold clip_x_high, x_axis. cbn [gwidth gheight gsrc_x gsrc_y gdst_x gdst_y].
  rewrite clip_high_inside by lia. cbn [option_map set_x_axis obind].
  cbn [gwidth gheight gsrc_x gsrc_y gdst_x gdst_y].
  unfold clip_y_high, y_axis. cbn [gwidth gheight gsrc_x gsrc_y gdst_x gdst_y].
  rewrite clip_high_inside by lia. reflexivity.
Qed.

(** The state in which [copy_pixels_internal] starts: the colour
    conversion touches neither memory nor the log. *)
Lemma copy_pixels_prologue host (fill_blank : bool) fill_color s :
  let cs := if fill_blank then convert_color host fill_color s else (0, s) in
  st_mem (snd cs) = st_mem s /\ st_log (snd cs) = st_log s.
Proof.
  destruct fill_blank; cbn zeta; [apply convert_color_state | split; reflexivity].
Qed.

(** C5 (for buffers whose byte size fits an [int]): with [ratio = 1] and
    both rectangles inside their buffers, each byte of the destination
    rectangle is the corresponding byte of the source rectangle. *)
Theorem copy_pixels_ratio1_exact_copy (host : byte_order)
    (dst_w dst_h dst_x dst_y src_w src_h src_x src_y width height : Z)
    (fill_blank : bool) (fill_color : Z) (m : memory) (cache : Z) :
  0 <= src_x -> 0 <= src_y -> 0 <= dst_x -> 0 <= dst_y ->
  0 < width -> 0 < height ->
  src_x + width <= src_w -> src_y + height <= src_h ->
  dst_x + width <= dst_w -> dst_y + height <= dst_h ->
  dst_w * dst_h * 4 <= INT_MAX -> src_w * src_h * 4 <= INT_MAX ->
  forall i j k, 0 <= i < width -> 0 <= j < height -> 0 <= k < 4 ->
  st_mem (copy_pixels host dst_buf dst_w dst_h dst_x dst_y
                      src_buf src_w src_h src_x src_y
                      width height 1 fill_blank fill_color (start m cache))
         Dst (4 * ((dst_y + j) * dst_w + dst_x + i) + k)
  = m Src (4 * ((src_y + j) * src_w + src_x + i) + k).
Proof.
  intros Hsx Hsy Hdx Hdy HW HH Hsw Hsh Hdw Hdh Hds Hss i j k Hi Hj Hk.
  unfold copy_pixels, copy_pixels_internal.
  destruct (copy_pixels_prologue host fill_blank fill_color (start m cache)) as [Pm _].
  destruct (if fill_blank then convert_color host fill_color (start m cache)
            else (0, start m cache)) as [color s1]. cbn [snd] in Pm.
  rewrite clip_inside_ratio1 by assumption. cbn [negb andb].
  replace (mkGeometry src_x src_y dst_x dst_y width height)
    with (clipped 1 src_x src_y dst_x dst_y width height)
    by (unfold clipped; now rewrite !Z.mul_1_r).
  destruct (blit_ratio1 host dst_w dst_h src_w src_h 1 color
              src_x src_y dst_x dst_y width height)
    with (fill_blank := fill_blank) (s := s1) as [_ BM]; try lia.
  specialize (BM j (4 * i + k) Hj ltac:(lia)).
  unfold dst_row, src_row in BM. rewrite Pm in BM. cbn [start st_mem] in BM.
  replace (4 * ((dst_y + j) * dst_w + dst_x + i) + k)
    with (4 * ((dst_y + j) * dst_w + dst_x) + (4 * i + k)) by lia.
  rewrite BM. f_equal. lia.
Qed.

(** A rectangle that is aligned and inside the buffers, with its extents
    counted in blocks. *)
Lemma clipped_form dst_w dst_h src_w src_h ratio gf :
  0 < ratio -> aligned ratio gf -> inside dst_w dst_h src_w src_h ratio gf ->
  exists Wo R,
    gf = clipped ratio (gsrc_x gf) (gsrc_y gf) (gdst_x gf) (gdst_y gf) Wo R /\
    1 <= Wo /\ 1 <= R /\
    0 <= gsrc_x gf /\ 0 <= gsrc_y gf /\ 0 <= gdst_x gf /\ 0 <= gdst_y gf /\
    gsrc_x gf + Wo * ratio <= src_w /\ gsrc_y gf + R * ratio <= src_h /\
    gdst_x gf + Wo <= dst_w /\ gdst_y gf + R <= dst_h.
Proof.
  intros Hr (Hw & Hh & [Wo EW] & [R EH]) (I1 & I2 & I3 & I4 & I5 & I6 & I7 & I8).
  destruct gf as [sx sy dx dy W H]. cbn [gsrc_x gsrc_y gdst_x gdst_y gwidth gheight] in *.
  subst W H. rewrite Z.div_mul in I7, I8 by lia.
  exists Wo, R. unfold clipped. repeat split; try assumption; nia.
Qed.







(* ================================================================= *)
(** ** Concrete calls *)





Lemma copy_pixels_ratio1_exact_copy_witness :
  st_mem (copy_pixels BigEndian dst_buf 4 4 1 1 src_buf 5 6 2 3 2 3 1 true (-65536)
                      (start (fun b o => o mod 256) ENDIAN_UNSET))
         Dst (4 * ((1 + 2) * 4 + 1 + 1) + 3)
  = (fun (b : block) o => o mod 256) Src (4 * ((3 + 2) * 5 + 2 + 1) + 3).
Proof.
  apply (copy_pixels_ratio1_exact_copy BigEndian 4 4 1 1 5 6 2 3 2 3 true (-65536)
           (fun b o => o mod 256) ENDIAN_UNSET); unfold INT_MAX; lia.
Defined.

(** C5 as stated fails for a source buffer of 2 GiB and more: the byte
    offset of row 16384 of a source 32768 pixels wide is [2 ^ 31], which
    wraps to [- 2 ^ 31], and the copy reads from there. *)
Lemma copy_pixels_ratio1_exact_copy_counterexample :
  let m : memory := fun b o => if o <? 0 then 255 else 0 in
  (0 + 1 <= 32768 /\ 16384 + 1 <= 16385 /\ 0 + 1 <= 1 /\ 0 + 1 <= 1) /\
  st_mem (copy_pixels LittleEndian dst_buf 1 1 0 0 src_buf 32768 16385 0 16384 1 1 1
                      false 0 (start m ENDIAN_UNSET))
         Dst (4 * ((0 + 0) * 1 + 0 + 0) + 0)
  <> m Src (4 * ((16384 + 0) * 32768 + 0 + 0) + 0).
Proof. split; [lia | vm_compute; discriminate]. Qed.

(** C6 as stated fails when [dst_w * dst_h] does not fit an [int]: for a
    65536 by 65536 destination the product wraps to 0 and nothing is
    filled. *)
Lemma copy_pixels_ratio0_fills_counterexample :
  let s0 := start (fun _ _ => 0) ENDIAN_UNSET in
  let s' := copy_pixels LittleEndian dst_buf 65536 65536 0 0 src_buf 4 4 0 0 4 4 0 true
                        (-65536) s0 in
  0 <= 0 < 65536 * 65536 /\
  pixel_at LittleEndian (st_mem s') Dst (4 * 0)
  <> fst (convert_color LittleEndian (-65536) s0).
Proof. split; [lia | vm_compute; discriminate]. Qed.

Lemma clip_invariant_witness :
  exists g0 g1 g2 g3,
    clip_ratio 2 (mkGeometry (-3) 2 1 0 9 8) = Some g0 /\
    clip_x_low 2 g0 = Some g1 /\
    clip_y_low 2 g1 = Some g2 /\
    clip_x_high 2 8 4 g2 = Some g3 /\
    clip_y_high 2 8 4 g3 = Some (mkGeometry 1 2 3 0 2 6) /\
    0 < 2 /\
    aligned 2 g0 /\ aligned 2 g1 /\ aligned 2 g2 /\
    aligned 2 g3 /\ aligned 2 (mkGeometry 1 2 3 0 2 6) /\
    inside 4 4 8 8 2 (mkGeometry 1 2 3 0 2 6).
Proof.
  apply (clip_invariant 4 4 8 8 2 (mkGeometry (-3) 2 1 0 9 8)).
  - unfold dims_ok, DIM_MAX; lia.
  - unfold small_geometry, small, COORD_MAX; cbn; lia.
  - vm_compute; reflexivity.
Defined.

(** C2 at a concrete call: a 4 by 4 source blitted with [ratio = 2] and
    [fill_blank] into a 4 by 4 destination.  The clipping keeps the whole
    rectangle, so the copied pixels are columns 0 and 1 of rows 0 and 1; the
    code advances by [width] pixels after a row and fills gaps of
    [dst_w - width = 0] pixels, so the stores are the four averaged pixels
    and the pixels from row 2 on, and pixel (row 0, column 2) keeps its old
    contents instead of the fill colour. *)
Theorem copy_pixels_ratio2_leaves_gap (host : byte_order) :
  let m : memory := fun b o => match b with Src => 200 | Dst => 17 end in
  let s0 := start m ENDIAN_UNSET in
  let s' := copy_pixels host dst_buf 4 4 0 0 src_buf 4 4 0 0 4 4 2 true (-65536) s0 in
  clip 4 4 4 4 2 (mkGeometry 0 0 0 0 4 4) = Some (mkGeometry 0 0 0 0 4 4) /\
  stores (st_log s')
  = [Store (Dst, 0) 4; Store (Dst, 4) 4; Store (Dst, 16) 4; Store (Dst, 20) 4;
     Store (Dst, 32) 4; Store (Dst, 36) 4; Store (Dst, 40) 4; Store (Dst, 44) 4;
     Store (Dst, 48) 4; Store (Dst, 52) 4; Store (Dst, 56) 4; Store (Dst, 60) 4] /\
  pixel_at host (st_mem s') Dst (4 * 2) = pixel_at host m Dst (4 * 2) /\
  pixel_at host (st_mem s') Dst (4 * 2) <> fst (convert_color host (-65536) s0).
Proof.
  destruct host; vm_compute; repeat split; discriminate.
Qed.

(** C3 at a concrete block: for [ratio = 16] and a block of 256 pixels whose
    four channels are all 255, the average of every channel is 255, but
    [count = 256] does not fit the [unsigned char] accumulators: the
    quotient part is always 0 and the remainder part never reaches [count],
    so the block averager stores the pixel (0, 0, 0, 0). *)
Theorem bilinear_color_ratio16_white (host : byte_order) :
  let s' := bilinear_color host src_buf 16 16 dst_buf
                           (start (fun _ _ => 255) ENDIAN_UNSET) in
  map (st_mem s' Dst) [0; 1; 2; 3] = [0; 0; 0; 0] /\
  (16 * 16 * 255) / (16 * 16) = 255.
Proof.
  destruct host; vm_compute; split; reflexivity.
Qed.

(* ================================================================= *)
(** ** The fills of a blit *)

(** A blit with [ratio = 2] and [fill_blank] whose [dst_pos] ends past the
    end of the destination: it advances by [width] pixels per row and after
    the last row stands at byte 72 of a destination of 64 bytes.  The length
    of the last fill is then a negative [int] converted to [size_t],
    [dst + size] wraps to a pointer below [dst], and the last fill stores
    nothing: the stores are the start fill, pixels 0 and 1, and the two
    pixels of each of the four rows. *)
Lemma copy_pixels_fill_ratio2_past_end :
  stores (st_log (copy_pixels LittleEndian dst_buf 4 4 2 0 src_buf 4 8 0 0 4 8 2
                              true 0 (start (fun _ _ => 7) ENDIAN_UNSET)))
  = [Store (Dst, 0) 4; Store (Dst, 4) 4; Store (Dst, 8) 4; Store (Dst, 12) 4;
     Store (Dst, 24) 4; Store (Dst, 28) 4; Store (Dst, 40) 4; Store (Dst, 44) 4;
     Store (Dst, 56) 4; Store (Dst, 60) 4].
Proof. vm_compute. reflexivity. Qed.

(** With [ratio = 1], a rectangle inside both buffers and [fill_blank], every
    destination pixel outside the copied rectangle holds the converted fill
    colour after the call: on this path the gaps are filled as intended. *)
Lemma copy_pixels_ratio1_fills_outside (host : byte_order)
    (dst_w dst_h dst_x dst_y src_w src_h src_x src_y width height fill_color : Z)
    (m : memory) (cache : Z) (q : Z) :
  0 <= src_x -> 0 <= src_y -> 0 <= dst_x -> 0 <= dst_y ->
  0 < width -> 0 < height ->
  src_x + width <= src_w -> src_y + height <= src_h ->
  dst_x + width <= dst_w -> dst_y + height <= dst_h ->
  dst_w * dst_h * 4 <= INT_MAX -> src_w * src_h * 4 <= INT_MAX ->
  0 <= q < dst_w * dst_h ->
  (forall j, 0 <= j < height ->
     ~ ((dst_y + j) * dst_w + dst_x <= q < (dst_y + j) * dst_w + dst_x + width)) ->
  pixel_at host
    (st_mem (copy_pixels host dst_buf dst_w dst_h dst_x dst_y
                         src_buf src_w src_h src_x src_y
                         width height 1 true fill_color (start m cache)))
    Dst (4 * q)
  = fst (convert_color host fill_color (start m cache)).
Proof.
  intros Hsx Hsy Hdx Hdy HW HH Hsw Hsh Hdw Hdh Hds Hss Hq Hout.
  unfold copy_pixels, copy_pixels_internal.
  pose proof (convert_color_in_int host fill_color (start m cache)) as Hc.
  destruct (convert_color host fill_color (start m cache)) as [color s1].
  cbn [fst] in *.
  rewrite clip_inside_ratio1 by assumption. cbn [negb andb].
  replace (mkGeometry src_x src_y dst_x dst_y width height)
    with (clipped 1 src_x src_y dst_x dst_y width height)
    by (unfold clipped; now rewrite !Z.mul_1_r).
  apply (blit_ratio1_fills host dst_w dst_h src_w src_h 1 color
           src_x src_y dst_x dst_y width height); (assumption || lia).
Qed.

(* ================================================================= *)
(** ** Channel codec: the cache and the round trips *)

(** X1: [get_endian] touches neither memory nor the log, returns what the
    cache holds afterwards, never the "unset" mark; when the cache was unset
    it returns the byte order of the host; and a second call returns the
    same value and changes nothing. *)
Theorem get_endian_cached (host : byte_order) (s : state) :
  let r := get_endian host s in
  st_mem (snd r) = st_mem s /\ st_log (snd r) = st_log s /\
  st_endian (snd r) = fst r /\
  fst r <> ENDIAN_UNSET /\
  (st_endian s = ENDIAN_UNSET -> fst r = endian_code host) /\
  get_endian host (snd r) = r.
Proof.
  cbv zeta. destruct (get_endian_state host s) as [Hm Hl].
  split; [exact Hm|]. split; [exact Hl|].
  split; [reflexivity|].
  split; [|split].
  - unfold get_endian. cbn [fst].
    destruct (Z.eqb_spec (st_endian s) ENDIAN_UNSET) as [E | NE]; [|exact NE].
    destruct (1 =? byte_at host 1 0); cbn [st_endian]; discriminate.
  - intros E. apply get_endian_detects. left. exact E.
  - unfold get_endian. cbn [fst snd].
    destruct (Z.eqb_spec (st_endian s) ENDIAN_UNSET) as [E | NE].
    + destruct (1 =? byte_at host 1 0); cbn [st_endian st_mem st_log]; reflexivity.
    + destruct (Z.eqb_spec (st_endian s) ENDIAN_UNSET); [contradiction | reflexivity].
Qed.

Lemma write_bytes_4 p b0 b1 b2 b3 m k :
  0 <= k < 4 ->
  write_bytes p [b0; b1; b2; b3] m (fst p) (snd p + k)
  = nth (Z.to_nat k) [b0; b1; b2; b3] 0.
Proof.
  intros Hk. unfold write_bytes. cbn [length].
  rewrite block_eqb_refl. cbn [andb].
  destruct (Z.leb_spec (snd p) (snd p + k)); [|lia].
  destruct (Z.ltb_spec (snd p + k) (snd p + Z.of_nat 4)); [|lia].
  cbn [andb]. f_equal. f_equal. lia.
Qed.

(** The [int] read back from where [rgba_to_color] stored four channels. *)
Lemma load_after_rgba_to_color host r g b a color s :
  fst (load_int host color (rgba_to_color r g b a color s)) = int_of_bytes host r g b a.
Proof.
  unfold load_int, rgba_to_color. cbn [fst snd st_mem].
  pose proof (write_bytes_4 color r g b a (st_mem s) 0 ltac:(lia)) as W0.
  rewrite Z.add_0_r in W0.
  rewrite W0, !write_bytes_4 by lia.
  reflexivity.
Qed.

(** X2: packing four channel bytes with [rgba_to_color] and unpacking the
    stored pixel with [color_to_rgba] gives the four channels back, on
    either byte order. *)
Theorem rgba_to_color_unpack (host : byte_order) (r g b a : Z) (color : ptr)
    (s : state) :
  is_byte r -> is_byte g -> is_byte b -> is_byte a ->
  color_to_rgba host (fst (load_int host color (rgba_to_color r g b a color s)))
  = mkRgba r g b a.
Proof.
  intros Hr Hg Hb Ha. rewrite load_after_rgba_to_color. unfold color_to_rgba.
  destruct (bytes_of_int_of_bytes host r g b a Hr Hg Hb Ha) as (E0 & E1 & E2 & E3).
  rewrite E0, E1, E2, E3. reflexivity.
Qed.

Lemma rgba_to_color_unpack_witness :
  color_to_rgba BigEndian
    (fst (load_int BigEndian (Dst, 8)
            (rgba_to_color 10 20 30 255 (Dst, 8) (start (fun _ _ => 0) ENDIAN_UNSET))))
  = mkRgba 10 20 30 255.
Proof.
  apply (rgba_to_color_unpack BigEndian 10 20 30 255 (Dst, 8)); unfold is_byte; lia.
Defined.

(** X3: unpacking an [int] with [color_to_rgba] and packing the channels
    with [rgba_to_color] stores that [int] again. *)
Theorem color_to_rgba_pack (host : byte_order) (v : Z) (color : ptr) (s : state) :
  in_int v ->
  let c := color_to_rgba host v in
  fst (load_int host color (rgba_to_color (chR c) (chG c) (chB c) (chA c) color s)) = v.
Proof.
  intros Hv c. subst c. rewrite load_after_rgba_to_color.
  unfold color_to_rgba. cbn [chR chG chB chA].
  apply int_of_bytes_of_int. exact Hv.
Qed.

Lemma color_to_rgba_pack_witness :
  let c := color_to_rgba LittleEndian (-16711936) in
  fst (load_int LittleEndian (Dst, 4)
         (rgba_to_color (chR c) (chG c) (chB c) (chA c) (Dst, 4)
                        (start (fun _ _ => 0) ENDIAN_UNSET)))
  = -16711936.
Proof.
  apply (color_to_rgba_pack LittleEndian (-16711936) (Dst, 4)).
  unfold in_int, INT_MIN, INT_MAX. lia.
Defined.

Lemma int_of_bytes_inj host a0 a1 a2 a3 b0 b1 b2 b3 :
  is_byte a0 -> is_byte a1 -> is_byte a2 -> is_byte a3 ->
  is_byte b0 -> is_byte b1 -> is_byte b2 -> is_byte b3 ->
  int_of_bytes host a0 a1 a2 a3 = int_of_bytes host b0 b1 b2 b3 ->
  a0 = b0 /\ a1 = b1 /\ a2 = b2 /\ a3 = b3.
Proof.
  intros A0 A1 A2 A3 B0 B1 B2 B3 E.
  destruct (bytes_of_int_of_bytes host a0 a1 a2 a3 A0 A1 A2 A3) as (P0 & P1 & P2 & P3).
  destruct (bytes_of_int_of_bytes host b0 b1 b2 b3 B0 B1 B2 B3) as (Q0 & Q1 & Q2 & Q3).
  rewrite E in P0, P1, P2, P3. repeat split; congruence.
Qed.

(** X4: [convert_color] only permutes the bytes of its argument, so two
    different colours never convert to the same pixel, whatever the
    [endian] cache holds. *)
Theorem convert_color_injective (host : byte_order) (v1 v2 : Z) (s : state) :
  in_int v1 -> in_int v2 -> v1 <> v2 ->
  fst (convert_color host v1 s) <> fst (convert_color host v2 s).
Proof.
  intros H1 H2 Hne. unfold convert_color.
  destruct (get_endian host s) as [e s']. cbn [fst].
  intros E. apply Hne.
  rewrite <- (int_of_bytes_of_int host v1 H1), <- (int_of_bytes_of_int host v2 H2).
  destruct (e =? BIG_ENDIAN);
    apply int_of_bytes_inj in E; try apply byte_at_is_byte;
    destruct E as (E0 & E1 & E2 & E3); congruence.
Qed.

Lemma convert_color_injective_witness :
  fst (convert_color BigEndian (-65536) (start (fun _ _ => 0) ENDIAN_UNSET))
  <> fst (convert_color BigEndian 16711680 (start (fun _ _ => 0) ENDIAN_UNSET)).
Proof.
  apply (convert_color_injective BigEndian (-65536) 16711680);
    unfold in_int, INT_MIN, INT_MAX; lia.
Defined.

(* ================================================================= *)
(** ** The helpers [memset_int], [ceil] and [floor] *)

Lemma memset_int_changes host p val size s :
  in_int val -> 0 <= size -> - 2 ^ 63 <= snd p -> snd p + 4 * size < 2 ^ 63 ->
  let s' := memset_int host p val size s in
  (forall i, 0 <= i < size ->
     pixel_at host (st_mem s') (fst p) (snd p + 4 * i) = val) /\
  (forall b o, ~ (b = fst p /\ snd p <= o < snd p + 4 * size) ->
     st_mem s' b o = st_mem s b o) /\
  st_log s' = st_log s ++ map (fun i => Store (padd_int p i) 4) (zrange size) /\
  st_endian s' = st_endian s.
Proof.
  intros Hv Hs Hp0 Hp1 s'. subst s'. repeat split.
  - intros i Hi. apply memset_int_pixel; assumption.
  - intros b o Hout. rewrite memset_int_exact, store_run_mem by lia.
    destruct (block_eqb b (fst p)) eqn:Eb; cbn [andb]; [|reflexivity].
    apply block_eqb_eq in Eb.
    destruct (Z.leb_spec (snd p) o); cbn [andb]; [|reflexivity].
    destruct (Z.ltb_spec o (snd p + 4 * Z.of_nat (Z.to_nat size))); [|reflexivity].
    exfalso. apply Hout. split; [exact Eb | lia].
  - rewrite memset_int_exact, store_run_log by lia. f_equal.
    unfold zrange. now rewrite map_map.
  - rewrite memset_int_exact by lia. apply store_run_endian.
Qed.



(** X6: for a non-negative [num] and a positive [multiple], [ceil] returns
    the least multiple of [multiple] that is not below [num]. *)
Theorem ceil_least_multiple (n m : Z) :
  0 <= n -> 0 < m -> n + m <= INT_MAX ->
  (m | ceil n m) /\ n <= ceil n m < n + m.
Proof.
  intros Hn Hm Hb. destruct (ceil_spec n m Hn Hm Hb) as (q & E & _ & Hq).
  rewrite E. split; [exists q; lia | exact Hq].
Qed.

Lemma ceil_least_multiple_witness :
  (4 | ceil 13 4) /\ 13 <= ceil 13 4 < 13 + 4.
Proof. apply (ceil_least_multiple 13 4); unfold INT_MAX; lia. Defined.

(** X7: for a positive [multiple], [floor] returns a multiple of
    [multiple] and rounds towards zero: down for a non-negative [num], up
    for a negative one. *)
Theorem floor_toward_zero (n m : Z) :
  in_int n -> 0 < m ->
  (m | floor n m) /\
  (0 <= n -> n - m < floor n m <= n) /\
  (n <= 0 -> n <= floor n m < n + m).
Proof.
  intros Hn Hm. rewrite floor_spec by assumption.
  pose proof (Z.quot_rem' n m) as E.
  split; [exists (Z.quot n m); lia|]. split; intros H.
  - pose proof (Z.rem_bound_pos n m H Hm). lia.
  - assert (Er : Z.rem n m = - Z.rem (- n) m) by (rewrite Z.rem_opp_l'; lia).
    pose proof (Z.rem_bound_pos (- n) m ltac:(lia) Hm). lia.
Qed.

Lemma floor_toward_zero_witness :
  (4 | floor (-13) 4) /\
  (0 <= -13 -> -13 - 4 < floor (-13) 4 <= -13) /\
  (-13 <= 0 -> -13 <= floor (-13) 4 < -13 + 4).
Proof.
  apply (floor_toward_zero (-13) 4); [unfold in_int, INT_MIN, INT_MAX|]; lia.
Defined.

(* ================================================================= *)
(** ** Block averager: order, exactness, accesses *)

Lemma zsum_perm vs ws : Permutation vs ws -> zsum vs = zsum ws.
Proof. unfold zsum. induction 1; cbn [fold_right]; lia. Qed.

(** X8: as long as [count] is at most 128 and no more than [count] samples
    are fed, the accumulators of [average_step] after a list of byte samples
    do not depend on the order of the samples. *)
Theorem average_order_independent (count : Z) (vs ws : list Z) :
  0 < count <= 128 -> Forall is_byte vs -> Z.of_nat (length vs) <= count ->
  Permutation vs ws ->
  fold_left (fun xy v => average_step v count xy) ws (0, 0)
  = fold_left (fun xy v => average_step v count xy) vs (0, 0).
Proof.
  intros Hc Hv Hl Hp.
  assert (Hw : Forall is_byte ws) by (eapply Permutation_Forall; eassumption).
  pose proof (Permutation_length Hp) as El.
  pose proof (zsum_perm vs ws Hp) as Es.
  destruct (average_fold count vs 0 0 0 Hc Hv ltac:(lia) ltac:(lia) ltac:(lia)
              ltac:(lia)) as (A1 & B1 & C1).
  destruct (average_fold count ws 0 0 0 Hc Hw ltac:(lia) ltac:(lia) ltac:(lia)
              ltac:(lia)) as (A2 & B2 & C2).
  destruct (fold_left _ vs (0, 0)) as [x1 y1].
  destruct (fold_left _ ws (0, 0)) as [x2 y2].
  cbn [fst snd] in *.
  assert (x2 = x1) by nia. subst x2. f_equal. lia.
Qed.

Lemma average_order_independent_witness :
  fold_left (fun xy v => average_step v 4 xy) [255; 3; 0; 7] (0, 0)
  = fold_left (fun xy v => average_step v 4 xy) [3; 255; 7; 0] (0, 0).
Proof.
  apply (average_order_independent 4 [3; 255; 7; 0] [255; 3; 0; 7]).
  - lia.
  - repeat constructor; unfold is_byte; lia.
  - cbn. lia.
  - apply perm_trans with (l' := [255; 3; 7; 0]).
    + apply perm_swap.
    + do 2 apply perm_skip. apply perm_swap.
Defined.

(** X9: for a [ratio] from 2 to 11 ([ratio * ratio <= 128]) and a block of
    byte-valued channels, every channel of the pixel that [bilinear_color]
    stores is the floor of that channel's sum over the block divided by
    [ratio * ratio]. *)
Theorem bilinear_color_floor_average (host : byte_order) (p : ptr) (w ratio : Z)
    (result : ptr) (s : state) (c : Z) :
  2 <= ratio <= 11 -> 0 <= w -> w * ratio <= INT_MAX ->
  (forall i j k, 0 <= i < ratio -> 0 <= j < ratio -> 0 <= k < 4 ->
     is_byte (st_mem s (fst p) (snd p + 4 * (w * i + j) + k))) ->
  0 <= c < 4 ->
  st_mem (bilinear_color host p w ratio result s) (fst result) (snd result + c)
  = channel_sum (st_mem s) p w ratio c / (ratio * ratio).
Proof. apply bilinear_color_exact. Qed.

Lemma bilinear_color_floor_average_witness :
  st_mem (bilinear_color LittleEndian (Src, 0) 4 2 (Dst, 0)
            (start (fun _ o => o mod 256) ENDIAN_UNSET))
         (fst (Dst, 0)) (snd (Dst, 0) + 1)
  = channel_sum (st_mem (start (fun _ o => o mod 256) ENDIAN_UNSET)) (Src, 0) 4 2 1
    / (2 * 2).
Proof.
  apply (bilinear_color_floor_average LittleEndian (Src, 0) 4 2 (Dst, 0)).
  - lia.
  - lia.
  - unfold INT_MAX; lia.
  - intros i j k _ _ _. cbn [start st_mem]. unfold is_byte.
    pose proof (Z.mod_pos_bound (snd (Src, 0) + 4 * (4 * i + j) + k) 256 ltac:(lia)).
    lia.
  - lia.
Defined.

Lemma zsum_const {A : Type} (f : A -> Z) v l :
  (forall x, In x l -> f x = v) -> zsum (map f l) = Z.of_nat (length l) * v.
Proof.
  induction l as [|x l IH]; intros H.
  - reflexivity.
  - cbn [map length]. unfold zsum in *. cbn [fold_right].
    rewrite IH by (intros y Hy; apply H; right; exact Hy).
    rewrite (H x) by (left; reflexivity). lia.
Qed.

(** X10: for a [ratio] from 2 to 11, a block in which a channel has the
    same value in every pixel averages to that value. *)
Theorem bilinear_color_uniform (host : byte_order) (p : ptr) (w ratio : Z)
    (result : ptr) (s : state) (c v : Z) :
  2 <= ratio <= 11 -> 0 <= w -> w * ratio <= INT_MAX ->
  (forall i j k, 0 <= i < ratio -> 0 <= j < ratio -> 0 <= k < 4 ->
     is_byte (st_mem s (fst p) (snd p + 4 * (w * i + j) + k))) ->
  0 <= c < 4 ->
  (forall i j, 0 <= i < ratio -> 0 <= j < ratio ->
     st_mem s (fst p) (snd p + 4 * (w * i + j) + c) = v) ->
  st_mem (bilinear_color host p w ratio result s) (fst result) (snd result + c) = v.
Proof.
  intros Hr Hw Hwr Hbytes Hc Hv.
  rewrite bilinear_color_exact by assumption.
  unfold channel_sum. rewrite zsum_const with (v := v).
  - rewrite length_block_cells by lia.
    rewrite Z.mul_comm. apply Z.div_mul. nia.
  - intros [i j] Hij. apply in_block_cells in Hij. cbn [fst snd] in *.
    apply Hv; lia.
Qed.

Lemma bilinear_color_uniform_witness :
  st_mem (bilinear_color BigEndian (Src, 0) 11 11 (Dst, 0)
            (start (fun _ _ => 255) ENDIAN_UNSET))
         (fst (Dst, 0)) (snd (Dst, 0) + 3)
  = 255.
Proof.
  apply (bilinear_color_uniform BigEndian (Src, 0) 11 11 (Dst, 0)).
  - lia.
  - lia.
  - unfold INT_MAX; lia.
  - intros i j k _ _ _. cbn [start st_mem]. unfold is_byte. lia.
  - lia.
  - intros i j _ _. reflexivity.
Defined.

Lemma bilinear_row_reads host n : forall p w i j count acc s,
  0 <= j -> j + Z.of_nat n <= INT_MAX ->
  st_log (snd (bilinear_row host n p w i j count acc s))
  = st_log s ++ map (fun t => Load (padd_int (padd_int p (mul32 w i)) (j + Z.of_nat t)) 4)
                    (seq 0 n).
Proof.
  induction n as [|n IH]; intros p w i j count acc s Hj Hn; cbn [bilinear_row].
  - cbn. now rewrite app_nil_r.
  - unfold load_int. rewrite add32_exact by (int_range; lia).
    rewrite IH by lia. cbn [st_log seq map]. rewrite <- app_assoc. cbn [app].
    rewrite Z.add_0_r. do 2 f_equal.
    rewrite <- seq_shift, map_map. apply map_ext. intros t. do 2 f_equal. lia.
Qed.

Lemma bilinear_rows_reads host n : forall p w i ratio count acc s,
  0 <= i -> i + Z.of_nat n <= INT_MAX -> ratio <= INT_MAX ->
  st_log (snd (bilinear_rows host n p w i ratio count acc s))
  = st_log s ++ map (fun ij => Load (padd_int (padd_int p (mul32 w (fst ij))) (snd ij)) 4)
                    (flat_map (fun i' => map (fun j => (i', j)) (zrange ratio))
                              (map (fun t => i + Z.of_nat t) (seq 0 n))).
Proof.
  induction n as [|n IH]; intros p w i ratio count acc s Hi Hn Hr; cbn [bilinear_rows].
  - cbn. now rewrite app_nil_r.
  - pose proof (bilinear_row_reads host (Z.to_nat ratio) p w i 0 count acc s
                  ltac:(lia) ltac:(lia)) as H1.
    destruct (bilinear_row host (Z.to_nat ratio) p w i 0 count acc s) as [acc1 s1].
    cbn [snd] in H1. rewrite add32_exact by (int_range; lia).
    rewrite IH by lia. rewrite H1.
    cbn [seq map flat_map]. rewrite map_app, <- app_assoc, Z.add_0_r.
    f_equal. f_equal.
    + unfold zrange. rewrite !map_map. reflexivity.
    + rewrite <- seq_shift, map_map. do 2 f_equal. apply map_ext. intros t. lia.
Qed.

(** X11: for a [ratio] whose square, the [count] of [average_step], does
    not wrap to 0, one call of [bilinear_color] loads each pixel of the
    [ratio] by [ratio] block exactly once, row by row, and then stores the
    one result pixel; for [ratio <= 0] it loads nothing. *)
Theorem bilinear_color_accesses (host : byte_order) (p : ptr) (w ratio : Z)
    (result : ptr) (s : state) :
  ratio <= INT_MAX -> ratio <= 0 \/ mul32 ratio ratio <> 0 ->
  st_log (bilinear_color host p w ratio result s)
  = st_log s
    ++ map (fun ij => Load (padd_int (padd_int p (mul32 w (fst ij))) (snd ij)) 4)
           (block_cells ratio)
    ++ [Store result 4].
Proof.
  intros Hr _. unfold bilinear_color.
  pose proof (bilinear_rows_reads host (Z.to_nat ratio) p w 0 ratio (mul32 ratio ratio)
                accum0 s ltac:(lia) ltac:(unfold INT_MAX in *; lia) Hr) as H1.
  destruct (bilinear_rows host (Z.to_nat ratio) p w 0 ratio (mul32 ratio ratio) accum0 s)
    as [acc s1].
  cbn [snd] in H1. cbn [rgba_to_color st_log]. rewrite H1, <- app_assoc. reflexivity.
Qed.

Lemma bilinear_color_accesses_witness :
  st_log (bilinear_color LittleEndian (Src, 16) 8 3 (Dst, 4)
            (start (fun _ _ => 0) ENDIAN_UNSET))
  = st_log (start (fun _ _ => 0) ENDIAN_UNSET)
    ++ map (fun ij => Load (padd_int (padd_int (Src, 16) (mul32 8 (fst ij))) (snd ij)) 4)
           (block_cells 3)
    ++ [Store (Dst, 4) 4].
Proof.
  apply (bilinear_color_accesses LittleEndian (Src, 16) 8 3 (Dst, 4)).
  - unfold INT_MAX. lia.
  - right. vm_compute. discriminate.
Defined.

(* ================================================================= *)
(** ** Clipping: what it rejects, accepts and keeps *)

(** X12: the clipping fails whenever [ratio] is not positive or exceeds the
    requested width or height (negative extents included), whatever the
    offsets and the buffer sizes are. *)
Theorem clip_rejects (dst_w dst_h src_w src_h ratio : Z) (g : geometry) :
  in_int (gwidth g) -> in_int (gheight g) ->
  ratio <= 0 \/ gwidth g < ratio \/ gheight g < ratio ->
  clip dst_w dst_h src_w src_h ratio g = None.
Proof.
  intros Hw Hh H. unfold clip, clip_ratio.
  destruct (Z.leb_spec ratio 0) as [|Hr]; [reflexivity|].
  destruct H as [H | H]; [lia|].
  destruct (floor_bounds (gwidth g) ratio Hw Hr) as (qw & Ew & Hwp & Hwn).
  destruct (floor_bounds (gheight g) ratio Hh Hr) as (qh & Eh & Hhp & Hhn).
  rewrite Ew, Eh, !Z.gtb_ltb.
  destruct (Z.ltb_spec (ratio * qw) ratio); [reflexivity|].
  destruct (Z.ltb_spec (ratio * qh) ratio); [reflexivity|].
  exfalso. destruct H as [H | H].
  - destruct (Z.le_gt_cases 0 (gwidth g)); lia.
  - destruct (Z.le_gt_cases 0 (gheight g)); lia.
Qed.

Lemma clip_rejects_witness :
  clip 16 16 16 16 4 (mkGeometry 0 0 0 0 3 8) = None.
Proof.
  apply (clip_rejects 16 16 16 16 4 (mkGeometry 0 0 0 0 3 8));
    cbn [gwidth gheight]; unfold in_int, INT_MIN, INT_MAX; lia.
Defined.

(** Offsets that are not negative are left alone by "Make sure x >= 0". *)
Lemma clip_low_nonneg ratio sp dp len :
  0 <= sp -> 0 <= dp -> 0 < len -> clip_low ratio (sp, dp, len) = Some (sp, dp, len).
Proof.
  intros Hs Hd Hl. unfold clip_low.
  destruct (Z.ltb_spec sp 0); [lia|].
  destruct (Z.ltb_spec dp 0); [lia|].
  destruct (Z.leb_spec len 0); [lia|]. reflexivity.
Qed.

(** An extent that fits both buffers is left alone by
    "Make sure x + width <= w". *)
Lemma clip_high_fits ratio smax dmax sp dp len :
  0 < ratio -> 0 <= sp -> 0 <= dp -> 0 < len ->
  sp + len <= smax -> dp + len / ratio <= dmax -> smax <= INT_MAX -> dmax <= INT_MAX ->
  clip_high ratio smax dmax (sp, dp, len) = Some (sp, dp, len).
Proof.
  intros Hr Hs Hd Hl Hsm Hdm Hsi Hdi. unfold clip_high. rewrite !Z.gtb_ltb.
  assert (Hq : Z.quot len ratio = len / ratio) by (apply Z.quot_div_nonneg; lia).
  assert (Hq0 : 0 <= len / ratio) by (apply Z.div_pos; lia).
  rewrite (add32_exact sp len) by (int_range; lia).
  rewrite (sub32_exact (sp + len) smax) by (int_range; lia).
  destruct (Z.ltb_spec 0 (sp + len - smax)); [lia|].
  rewrite (div32_exact len ratio) by (int_range; lia).
  rewrite Hq.
  rewrite (add32_exact dp (len / ratio)) by (int_range; lia).
  rewrite (sub32_exact (dp + len / ratio) dmax) by (int_range; lia).
  destruct (Z.ltb_spec 0 (dp + len / ratio - dmax)); [lia|].
  destruct (Z.leb_spec len 0); [lia|]. reflexivity.
Qed.

Lemma floor_of_multiple n m : in_int n -> 0 < m -> (m | n) -> floor n m = n.
Proof.
  intros Hn Hm [q ->]. rewrite floor_spec by assumption.
  rewrite Z.quot_mul by lia. lia.
Qed.

Lemma clip_fixpoint dst_w dst_h src_w src_h ratio g :
  0 < ratio ->
  dst_w <= INT_MAX -> dst_h <= INT_MAX -> src_w <= INT_MAX -> src_h <= INT_MAX ->
  aligned ratio g -> inside dst_w dst_h src_w src_h ratio g ->
  clip dst_w dst_h src_w src_h ratio g = Some g.
Proof.
  intros Hr Hdw Hdh Hsw Hsh (Hw & Hh & Dw & Dh) (I1 & I2 & I3 & I4 & I5 & I6 & I7 & I8).
  destruct g as [sx sy dx dy W H]. cbn [gsrc_x gsrc_y gdst_x gdst_y gwidth gheight] in *.
  pose proof (divide_pos_le ratio W Hw Dw Hr) as HrW.
  pose proof (divide_pos_le ratio H Hh Dh Hr) as HrH.
  unfold clip, clip_ratio. cbn [gwidth gheight gsrc_x gsrc_y gdst_x gdst_y].
  rewrite !floor_of_multiple by (assumption || (int_range; lia)).
  rewrite !Z.gtb_ltb.
  destruct (Z.leb_spec ratio 0); [lia|].
  destruct (Z.ltb_spec W ratio); [lia|].
  destruct (Z.ltb_spec H ratio); [lia|].
  cbn [orb obind].
  unfold clip_x_low, x_axis. cbn [gwidth gheight gsrc_x gsrc_y gdst_x gdst_y].
  rewrite clip_low_nonneg by lia. cbn [option_map set_x_axis obind].
  cbn [gwidth gheight gsrc_x gsrc_y gdst_x gdst_y].
  unfold clip_y_low, y_axis. cbn [gwidth gheight gsrc_x gsrc_y gdst_x gdst_y].
  rewrite clip_low_nonneg by lia. cbn [option_map set_y_axis obind].
  cbn [gwidth gheight gsrc_x gsrc_y gdst_x gdst_y].
  unfold clip_x_high, x_axis. cbn [gwidth gheight gsrc_x gsrc_y gdst_x gdst_y].
  rewrite clip_high_fits by lia. cbn [option_map set_x_axis obind].
  cbn [gwidth gheight gsrc_x gsrc_y gdst_x gdst_y].
  unfold clip_y_high, y_axis. cbn [gwidth gheight gsrc_x gsrc_y gdst_x gdst_y].
  rewrite clip_high_fits by lia. reflexivity.
Qed.

(** X13: a rectangle whose extents are positive multiples of [ratio] and
    that lies inside the source buffer and, scaled down, inside the
    destination buffer passes the clipping unchanged. *)
Theorem clip_accepts_inside (dst_w dst_h src_w src_h ratio : Z) (g : geometry) :
  0 < ratio ->
  dst_w <= INT_MAX -> dst_h <= INT_MAX -> src_w <= INT_MAX -> src_h <= INT_MAX ->
  aligned ratio g -> inside dst_w dst_h src_w src_h ratio g ->
  clip dst_w dst_h src_w src_h ratio g = Some g.
Proof. apply clip_fixpoint. Qed.

Lemma clip_accepts_inside_witness :
  clip 4 4 16 16 3 (mkGeometry 2 4 1 0 9 12) = Some (mkGeometry 2 4 1 0 9 12).
Proof.
  apply (clip_accepts_inside 4 4 16 16 3 (mkGeometry 2 4 1 0 9 12));
    try (unfold INT_MAX; lia).
  - unfold aligned. cbn [gwidth gheight].
    repeat split; try lia; [exists 3 | exists 4]; reflexivity.
  - unfold inside. cbn [gsrc_x gsrc_y gdst_x gdst_y gwidth gheight].
    change (9 / 3) with 3. change (12 / 3) with 4. lia.
Defined.

(** X14: clipping is idempotent: the rectangle it returns is one that it
    accepts unchanged. *)
Theorem clip_idempotent (dst_w dst_h src_w src_h ratio : Z) (g gf : geometry) :
  dims_ok dst_w dst_h src_w src_h -> small_geometry g ->
  clip dst_w dst_h src_w src_h ratio g = Some gf ->
  clip dst_w dst_h src_w src_h ratio gf = Some gf.
Proof.
  intros Hd Hg Hc.
  destruct (clip_stages _ _ _ _ _ _ _ Hd Hg Hc)
    as (g0 & g1 & g2 & g3 & _ & _ & _ & _ & _ & Hr & _ & _ & _ & _ & Ha & Hi).
  destruct Hd as (Hdw & Hdh & Hsw & Hsh).
  assert (HD : DIM_MAX <= INT_MAX) by (vm_compute; discriminate).
  apply clip_fixpoint; (assumption || lia).
Qed.

Lemma clip_idempotent_witness :
  clip 4 4 8 8 2 (mkGeometry 1 6 1 0 6 2) = Some (mkGeometry 1 6 1 0 6 2).
Proof.
  apply (clip_idempotent 4 4 8 8 2 (mkGeometry (-3) 2 (-1) (-2) 11 9)).
  - unfold dims_ok, DIM_MAX; lia.
  - unfold small_geometry, small, COORD_MAX; cbn; lia.
  - vm_compute. reflexivity.
Defined.

(** "Make sure x >= 0" moves an axis by a whole number [k] of output
    pixels: the source offset by [ratio * k], the destination offset by
    [k], and the extent shrinks by [ratio * k].  The move is the smallest
    one that makes both offsets non-negative. *)
Lemma clip_low_shift ratio sp dp len sp' dp' len' :
  low_pre ratio (sp, dp, len) ->
  clip_low ratio (sp, dp, len) = Some (sp', dp', len') ->
  exists k, 0 <= k /\ sp' = sp + ratio * k /\ dp' = dp + k /\
            len' = len - ratio * k /\
            (0 < k -> sp' < ratio \/ dp' = 0).
Proof.
  unfold low_pre, small. intros (Hsp & Hdp & Hr & Hlen & _) Hc.
  assert (HC : COORD_MAX = 32768) by reflexivity.
  unfold clip_low in Hc.
  assert (H1 : exists q,
             (if sp <? 0
              then (add32 sp (ceil (neg32 sp) ratio),
                    add32 dp (div32 (ceil (neg32 sp) ratio) ratio),
                    sub32 len (ceil (neg32 sp) ratio))
              else (sp, dp, len)) = (sp + ratio * q, dp + q, len - ratio * q)
             /\ 0 <= q <= COORD_MAX /\ 0 <= sp + ratio * q <= COORD_MAX
             /\ ratio * q <= 2 * COORD_MAX
             /\ (0 < q -> sp + ratio * q < ratio)).
  { destruct (Z.ltb_spec sp 0) as [Hneg | Hpos].
    - rewrite (neg32_exact sp) by (int_range; lia).
      destruct (ceil_spec (- sp) ratio) as (q & Eq & Hq0 & Hq); try lia.
      { unfold INT_MAX; lia. }
      rewrite Eq.
      assert (Hqb : q <= COORD_MAX) by nia.
      rewrite (div32_exact (ratio * q) ratio) by (int_range; lia).
      rewrite quot_mul_exact by lia.
      rewrite (add32_exact sp), (add32_exact dp), (sub32_exact len)
        by (int_range; lia).
      exists q. split; [reflexivity|]. repeat split; lia.
    - exists 0. rewrite Z.mul_0_r, !Z.add_0_r, Z.sub_0_r.
      split; [reflexivity|]. repeat split; lia. }
  destruct H1 as (q & E1 & Hq & Hsq & Hrq & Hmin).
  rewrite E1 in Hc. clear E1.
  destruct (Z.ltb_spec (dp + q) 0) as [Hneg | Hpos].
  - pose proof (mul_bounds (- (dp + q)) ratio COORD_MAX COORD_MAX) as Hm.
    rewrite (neg32_exact (dp + q)) in Hc by (int_range; lia).
    rewrite (mul32_exact (- (dp + q)) ratio) in Hc by (int_range; lia).
    rewrite (add32_exact (sp + ratio * q)), (sub32_exact (len - ratio * q)) in Hc
      by (int_range; lia).
    destruct (Z.leb_spec (len - ratio * q - - (dp + q) * ratio) 0); [discriminate|].
    injection Hc as <- <- <-. exists (- dp). repeat split; lia.
  - destruct (Z.leb_spec (len - ratio * q) 0); [discriminate|].
    injection Hc as <- <- <-. exists q. repeat split; lia.
Qed.

Lemma clip_ratio_floor ratio g g0 :
  clip_ratio ratio g = Some g0 ->
  g0 = mkGeometry (gsrc_x g) (gsrc_y g) (gdst_x g) (gdst_y g)
                  (floor (gwidth g) ratio) (floor (gheight g) ratio).
Proof.
  unfold clip_ratio. destruct (ratio <=? 0); [discriminate|].
  destruct (_ || _); [discriminate|]. intros H. injection H as <-. reflexivity.
Qed.

(** "Make sure x + width <= w" trims no more than it has to: the extent
    is unchanged, or one more block would pass the end of the source, or
    the rectangle ends exactly at the end of the destination. *)
Lemma clip_high_tight ratio smax dmax sp dp len a' :
  low_post ratio (sp, dp, len) -> 0 < ratio ->
  0 <= smax <= DIM_MAX -> 0 <= dmax <= DIM_MAX ->
  clip_high ratio smax dmax (sp, dp, len) = Some a' ->
  exists len', a' = (sp, dp, len') /\
               (len' = len \/ smax < sp + len' + ratio \/ dp + len' / ratio = dmax).
Proof.
  unfold low_post. intros (Hsp & Hdp & Hdr & Hlen & HL) Hr Hs Hd Hc.
  assert (HC : COORD_MAX = 32768) by reflexivity.
  assert (HD : DIM_MAX = 536870911) by reflexivity.
  pose proof (divide_pos_le ratio len ltac:(lia) HL Hr) as Hrl.
  destruct HL as [L HL].
  unfold clip_high in Hc. rewrite !Z.gtb_ltb in Hc.
  rewrite (add32_exact sp len) in Hc by (int_range; lia).
  rewrite (sub32_exact (sp + len) smax) in Hc by (int_range; lia).
  assert (H1 : exists len1,
             (if 0 <? sp + len - smax
              then sub32 len (ceil (sp + len - smax) ratio) else len) = len1
             /\ - (COORD_MAX * COORD_MAX + 4 * COORD_MAX) <= len1 <= len
             /\ (ratio | len1)
             /\ (len1 = len \/ smax < sp + len1 + ratio)).
  { destruct (Z.ltb_spec 0 (sp + len - smax)) as [Hpos | Hneg].
    - destruct (ceil_spec (sp + len - smax) ratio) as (q & Eq & Hq0 & Hq); try lia.
      { unfold INT_MAX; lia. }
      rewrite Eq. rewrite sub32_exact by (int_range; lia).
      eexists. split; [reflexivity|]. repeat split; try lia.
      exists (L - q); lia.
    - exists len. repeat split; try lia. exists L; lia. }
  destruct H1 as (len1 & E1 & Hlen1 & [L1 HL1] & T1).
  rewrite E1 in Hc. clear E1.
  assert (HqL : Z.quot len1 ratio = L1).
  { rewrite HL1. apply Z.quot_mul. lia. }
  assert (HL1b : - (COORD_MAX * COORD_MAX + 4 * COORD_MAX) <= L1 <= COORD_MAX) by nia.
  assert (Hdpb : dp <= COORD_MAX * COORD_MAX + 2 * COORD_MAX) by nia.
  rewrite (div32_exact len1 ratio) in Hc by (int_range; lia).
  rewrite HqL in Hc.
  rewrite (add32_exact dp L1) in Hc by (int_range; lia).
  rewrite (sub32_exact (dp + L1) dmax) in Hc by (int_range; lia).
  destruct (Z.ltb_spec 0 (dp + L1 - dmax)) as [Hpos | Hneg].
  - pose proof (Z.mul_nonneg_nonneg dmax ratio ltac:(lia) ltac:(lia)) as Hdm.
    assert (Ht : 0 < (dp + L1 - dmax) * ratio <= COORD_MAX * COORD_MAX + 3 * COORD_MAX) by nia.
    rewrite (mul32_exact (dp + L1 - dmax) ratio) in Hc by (int_range; lia).
    rewrite sub32_exact in Hc by (int_range; lia).
    destruct (Z.leb_spec (len1 - (dp + L1 - dmax) * ratio) 0); [discriminate|].
    injection Hc as <-. eexists. split; [reflexivity|].
    assert (E : len1 - (dp + L1 - dmax) * ratio = (dmax - dp) * ratio) by lia.
    right; right. rewrite E, Z.div_mul by lia. lia.
  - destruct (Z.leb_spec len1 0); [discriminate|].
    injection Hc as <-. eexists. split; [reflexivity|].
    destruct T1 as [T1 | T1]; [left | right; left]; exact T1.
Qed.

(** What a successful clipping does to the rectangle, axis by axis. *)
Lemma clip_shape dst_w dst_h src_w src_h ratio g gf :
  dims_ok dst_w dst_h src_w src_h -> small_geometry g ->
  clip dst_w dst_h src_w src_h ratio g = Some gf ->
  exists kx ky,
    0 <= kx /\ 0 <= ky /\
    gsrc_x gf = gsrc_x g + ratio * kx /\ gdst_x gf = gdst_x g + kx /\
    gsrc_y gf = gsrc_y g + ratio * ky /\ gdst_y gf = gdst_y g + ky /\
    gwidth gf <= floor (gwidth g) ratio - ratio * kx /\
    gheight gf <= floor (gheight g) ratio - ratio * ky /\
    floor (gwidth g) ratio <= gwidth g /\ floor (gheight g) ratio <= gheight g /\
    (0 < kx -> gsrc_x gf < ratio \/ gdst_x gf = 0) /\
    (0 < ky -> gsrc_y gf < ratio \/ gdst_y gf = 0) /\
    (gwidth gf = floor (gwidth g) ratio - ratio * kx \/
     src_w < gsrc_x gf + gwidth gf + ratio \/
     gdst_x gf + gwidth gf / ratio = dst_w) /\
    (gheight gf = floor (gheight g) ratio - ratio * ky \/
     src_h < gsrc_y gf + gheight gf + ratio \/
     gdst_y gf + gheight gf / ratio = dst_h).
Proof.
  intros (Hdw & Hdh & Hsw & Hsh) Hg Hc. unfold clip in Hc.
  destruct (clip_ratio ratio g) as [g0|] eqn:E0; [|discriminate].
  cbn [obind] in Hc.
  destruct (clip_x_low ratio g0) as [g1|] eqn:E1; [|discriminate].
  cbn [obind] in Hc.
  destruct (clip_y_low ratio g1) as [g2|] eqn:E2; [|discriminate].
  cbn [obind] in Hc.
  destruct (clip_x_high ratio src_w dst_w g2) as [g3|] eqn:E3; [|discriminate].
  cbn [obind] in Hc.
  destruct (clip_ratio_sound ratio g g0 Hg E0)
    as (Hr & X1 & X2 & X3 & X4 & Hw0 & Dw0 & Hh0 & Dh0).
  pose proof (clip_ratio_floor ratio g g0 E0) as F0.
  assert (HC : COORD_MAX = 32768) by reflexivity.
  destruct Hg as (S1 & S2 & S3 & S4 & S5 & S6).
  unfold small in S1, S2, S3, S4, S5, S6.
  destruct (floor_bounds (gwidth g) ratio) as (qw & Ew & Hwp & _);
    [int_range; lia | lia |].
  destruct (floor_bounds (gheight g) ratio) as (qh & Eh & Hhp & _);
    [int_range; lia | lia |].
  assert (Fw : gwidth g0 <= gwidth g).
  { rewrite F0 in Hw0 |- *. cbn [gwidth] in *. rewrite Ew in *.
    destruct (Z.le_gt_cases 0 (gwidth g)) as [P | N]; [apply Hwp; exact P|].
    destruct (floor_bounds (gwidth g) ratio) as (q' & E' & _ & Hn);
      [int_range; lia | lia |]. rewrite Ew in E'. specialize (Hn ltac:(lia)). lia. }
  assert (Fh : gheight g0 <= gheight g).
  { rewrite F0 in Hh0 |- *. cbn [gheight] in *. rewrite Eh in *.
    destruct (Z.le_gt_cases 0 (gheight g)) as [P | N]; [apply Hhp; exact P|].
    destruct (floor_bounds (gheight g) ratio) as (q' & E' & _ & Hn);
      [int_range; lia | lia |]. rewrite Eh in E'. specialize (Hn ltac:(lia)). lia. }
  (* x, low *)
  unfold clip_x_low, x_axis in E1.
  destruct (clip_low ratio (gsrc_x g0, gdst_x g0, gwidth g0))
    as [[[sx1 dx1] w1]|] eqn:L1; cbn [option_map] in E1; [|discriminate E1].
  injection E1 as <-.
  assert (P1 : low_pre ratio (gsrc_x g0, gdst_x g0, gwidth g0))
    by (unfold low_pre, small; rewrite X1, X3; repeat split; (assumption || lia)).
  destruct (clip_low_shift _ _ _ _ _ _ _ P1 L1) as (kx & Hkx & Kx1 & Kx2 & Kx3 & Kx4).
  apply (clip_low_sound ratio _ _ P1) in L1.
  destruct L1 as (Hsx1 & Hdx1 & Hdxr1 & Hw1 & Dw1).
  (* y, low *)
  unfold clip_y_low, y_axis in E2. cbn [set_x_axis gsrc_y gdst_y gheight] in E2.
  destruct (clip_low ratio (gsrc_y g0, gdst_y g0, gheight g0))
    as [[[sy2 dy2] h2]|] eqn:L2; cbn [option_map] in E2; [|discriminate E2].
  injection E2 as <-.
  assert (P2 : low_pre ratio (gsrc_y g0, gdst_y g0, gheight g0))
    by (unfold low_pre, small; rewrite X2, X4; repeat split; (assumption || lia)).
  destruct (clip_low_shift _ _ _ _ _ _ _ P2 L2) as (ky & Hky & Ky1 & Ky2 & Ky3 & Ky4).
  apply (clip_low_sound ratio _ _ P2) in L2.
  destruct L2 as (Hsy2 & Hdy2 & Hdyr2 & Hh2 & Dh2).
  (* x, high *)
  unfold clip_x_high, x_axis in E3. cbn [set_y_axis set_x_axis gsrc_x gdst_x gwidth] in E3.
  destruct (clip_high ratio src_w dst_w (sx1, dx1, w1)) as [a3|] eqn:L3;
    cbn [option_map] in E3; [|discriminate E3].
  injection E3 as <-.
  assert (Q3 : low_post ratio (sx1, dx1, w1))
    by (unfold low_post; repeat split; (assumption || lia)).
  destruct (clip_high_tight _ _ _ _ _ _ _ Q3 Hr Hsw Hdw L3) as (w3' & Ew3 & T3).
  apply clip_high_sound in L3; [|assumption ..].
  destruct L3 as (w3 & -> & Hw3 & Dw3 & Bs3 & Bd3).
  injection Ew3 as <-.
  (* y, high *)
  unfold clip_y_high, y_axis, set_x_axis in Hc. cbn [set_y_axis gsrc_y gdst_y gheight] in Hc.
  destruct (clip_high ratio src_h dst_h (sy2, dy2, h2)) as [a4|] eqn:L4;
    cbn [option_map] in Hc; [|discriminate Hc].
  injection Hc as <-.
  assert (Q4 : low_post ratio (sy2, dy2, h2))
    by (unfold low_post; repeat split; (assumption || lia)).
  destruct (clip_high_tight _ _ _ _ _ _ _ Q4 Hr Hsh Hdh L4) as (h4' & Eh4 & T4).
  apply clip_high_sound in L4; [|assumption ..].
  destruct L4 as (h4 & -> & Hh4 & Dh4 & Bs4 & Bd4).
  injection Eh4 as <-.
  exists kx, ky. cbn [set_y_axis gsrc_x gsrc_y gdst_x gdst_y gwidth gheight].
  rewrite F0 in Kx1, Kx2, Kx3, Ky1, Ky2, Ky3, Fw, Fh.
  cbn [gsrc_x gsrc_y gdst_x gdst_y gwidth gheight] in *.
  repeat split; lia.
Qed.


(** X15: a successful clipping keeps the correspondence between source
    and destination pixels: along each axis the rectangle moves by a whole
    number [k] of output pixels, that is [ratio * k] source pixels, and its
    far edge in the source never moves outwards. *)
Theorem clip_keeps_pixel_correspondence
    (dst_w dst_h src_w src_h ratio : Z) (g gf : geometry) :
  dims_ok dst_w dst_h src_w src_h -> small_geometry g ->
  clip dst_w dst_h src_w src_h ratio g = Some gf ->
  exists kx ky,
    0 <= kx /\ 0 <= ky /\
    gsrc_x gf = gsrc_x g + ratio * kx /\ gdst_x gf = gdst_x g + kx /\
    gsrc_y gf = gsrc_y g + ratio * ky /\ gdst_y gf = gdst_y g + ky /\
    gsrc_x gf + gwidth gf <= gsrc_x g + gwidth g /\
    gsrc_y gf + gheight gf <= gsrc_y g + gheight g.
Proof.
  intros Hd Hg Hc.
  destruct (clip_shape _ _ _ _ _ _ _ Hd Hg Hc)
    as (kx & ky & A1 & A2 & A3 & A4 & A5 & A6 & A7 & A8 & A9 & A10 & _).
  exists kx, ky. repeat split; lia.
Qed.

Lemma clip_keeps_pixel_correspondence_witness :
  exists kx ky,
    0 <= kx /\ 0 <= ky /\
    gsrc_x (mkGeometry 1 6 1 0 6 2) = gsrc_x (mkGeometry (-3) 2 (-1) (-2) 11 9) + 2 * kx /\
    gdst_x (mkGeometry 1 6 1 0 6 2) = gdst_x (mkGeometry (-3) 2 (-1) (-2) 11 9) + kx /\
    gsrc_y (mkGeometry 1 6 1 0 6 2) = gsrc_y (mkGeometry (-3) 2 (-1) (-2) 11 9) + 2 * ky /\
    gdst_y (mkGeometry 1 6 1 0 6 2) = gdst_y (mkGeometry (-3) 2 (-1) (-2) 11 9) + ky /\
    gsrc_x (mkGeometry 1 6 1 0 6 2) + gwidth (mkGeometry 1 6 1 0 6 2)
      <= gsrc_x (mkGeometry (-3) 2 (-1) (-2) 11 9) + gwidth (mkGeometry (-3) 2 (-1) (-2) 11 9) /\
    gsrc_y (mkGeometry 1 6 1 0 6 2) + gheight (mkGeometry 1 6 1 0 6 2)
      <= gsrc_y (mkGeometry (-3) 2 (-1) (-2) 11 9) + gheight (mkGeometry (-3) 2 (-1) (-2) 11 9).
Proof.
  apply (clip_keeps_pixel_correspondence 4 4 8 8 2 (mkGeometry (-3) 2 (-1) (-2) 11 9)).
  - unfold dims_ok, DIM_MAX; lia.
  - unfold small_geometry, small, COORD_MAX; cbn; lia.
  - vm_compute. reflexivity.
Defined.

(** X16: a request that lies entirely outside the source buffer or, scaled
    down, entirely outside the destination buffer is rejected. *)
Theorem clip_rejects_outside (dst_w dst_h src_w src_h ratio : Z) (g : geometry) :
  dims_ok dst_w dst_h src_w src_h -> small_geometry g -> 0 < ratio ->
  src_w <= gsrc_x g \/ src_h <= gsrc_y g \/
  gsrc_x g + gwidth g <= 0 \/ gsrc_y g + gheight g <= 0 \/
  dst_w <= gdst_x g \/ dst_h <= gdst_y g \/
  gdst_x g + gwidth g / ratio <= 0 \/ gdst_y g + gheight g / ratio <= 0 ->
  clip dst_w dst_h src_w src_h ratio g = None.
Proof.
  intros Hd Hg Hr Hout.
  destruct (clip dst_w dst_h src_w src_h ratio g) as [gf|] eqn:Hc; [|reflexivity].
  exfalso.
  destruct (clip_stages _ _ _ _ _ _ _ Hd Hg Hc)
    as (g0 & g1 & g2 & g3 & _ & _ & _ & _ & _ & _ & _ & _ & _ & _ & Ha & Hi).
  destruct (clip_shape _ _ _ _ _ _ _ Hd Hg Hc)
    as (kx & ky & A1 & A2 & A3 & A4 & A5 & A6 & A7 & A8 & A9 & A10 & _).
  destruct Ha as (W0 & H0 & DW & DH).
  destruct Hi as (I1 & I2 & I3 & I4 & I5 & I6 & I7 & I8).
  pose proof (divide_pos_le ratio (gwidth gf) W0 DW Hr) as HrW.
  pose proof (divide_pos_le ratio (gheight gf) H0 DH Hr) as HrH.
  assert (QW : 1 <= gwidth gf / ratio)
    by (apply Z.div_le_lower_bound; lia).
  assert (QH : 1 <= gheight gf / ratio)
    by (apply Z.div_le_lower_bound; lia).
  assert (KW : kx + 1 <= gwidth g / ratio)
    by (apply Z.div_le_lower_bound; lia).
  assert (KH : ky + 1 <= gheight g / ratio)
    by (apply Z.div_le_lower_bound; lia).
  lia.
Qed.

Lemma clip_rejects_outside_witness :
  clip 4 4 8 8 2 (mkGeometry 3 0 (-5) 0 5 8) = None.
Proof.
  apply (clip_rejects_outside 4 4 8 8 2 (mkGeometry 3 0 (-5) 0 5 8)).
  - unfold dims_ok, DIM_MAX; lia.
  - unfold small_geometry, small, COORD_MAX; cbn; lia.
  - lia.
  - cbn [gsrc_x gsrc_y gdst_x gdst_y gwidth gheight]. change (5 / 2) with 2. lia.
Defined.

(** X17: a successful clipping trims no more than it has to.  At the near
    edge the move [k] is the smallest that makes both offsets non-negative;
    at the far edge the extent left is all that remained after rounding and
    the near-edge move, or one more block would pass the end of the source,
    or the rectangle ends exactly at the end of the destination. *)
Theorem clip_trims_only_what_it_must
    (dst_w dst_h src_w src_h ratio : Z) (g gf : geometry) :
  dims_ok dst_w dst_h src_w src_h -> small_geometry g ->
  clip dst_w dst_h src_w src_h ratio g = Some gf ->
  exists kx ky,
    gdst_x gf = gdst_x g + kx /\ gdst_y gf = gdst_y g + ky /\
    (0 < kx -> gsrc_x gf < ratio \/ gdst_x gf = 0) /\
    (0 < ky -> gsrc_y gf < ratio \/ gdst_y gf = 0) /\
    (gwidth gf = floor (gwidth g) ratio - ratio * kx \/
     src_w < gsrc_x gf + gwidth gf + ratio \/
     gdst_x gf + gwidth gf / ratio = dst_w) /\
    (gheight gf = floor (gheight g) ratio - ratio * ky \/
     src_h < gsrc_y gf + gheight gf + ratio \/
     gdst_y gf + gheight gf / ratio = dst_h).
Proof.
  intros Hd Hg Hc.
  destruct (clip_shape _ _ _ _ _ _ _ Hd Hg Hc)
    as (kx & ky & _ & _ & _ & A4 & _ & A6 & _ & _ & _ & _ & B1 & B2 & B3 & B4).
  exists kx, ky. repeat split; assumption.
Qed.

Lemma clip_trims_only_what_it_must_witness :
  exists kx ky,
    gdst_x (mkGeometry 1 6 1 0 6 2) = gdst_x (mkGeometry (-3) 2 (-1) (-2) 11 9) + kx /\
    gdst_y (mkGeometry 1 6 1 0 6 2) = gdst_y (mkGeometry (-3) 2 (-1) (-2) 11 9) + ky /\
    (0 < kx -> gsrc_x (mkGeometry 1 6 1 0 6 2) < 2 \/ gdst_x (mkGeometry 1 6 1 0 6 2) = 0) /\
    (0 < ky -> gsrc_y (mkGeometry 1 6 1 0 6 2) < 2 \/ gdst_y (mkGeometry 1 6 1 0 6 2) = 0) /\
    (gwidth (mkGeometry 1 6 1 0 6 2)
       = floor (gwidth (mkGeometry (-3) 2 (-1) (-2) 11 9)) 2 - 2 * kx \/
     8 < gsrc_x (mkGeometry 1 6 1 0 6 2) + gwidth (mkGeometry 1 6 1 0 6 2) + 2 \/
     gdst_x (mkGeometry 1 6 1 0 6 2) + gwidth (mkGeometry 1 6 1 0 6 2) / 2 = 4) /\
    (gheight (mkGeometry 1 6 1 0 6 2)
       = floor (gheight (mkGeometry (-3) 2 (-1) (-2) 11 9)) 2 - 2 * ky \/
     8 < gsrc_y (mkGeometry 1 6 1 0 6 2) + gheight (mkGeometry 1 6 1 0 6 2) + 2 \/
     gdst_y (mkGeometry 1 6 1 0 6 2) + gheight (mkGeometry 1 6 1 0 6 2) / 2 = 4).
Proof.
  apply (clip_trims_only_what_it_must 4 4 8 8 2 (mkGeometry (-3) 2 (-1) (-2) 11 9)).
  - unfold dims_ok, DIM_MAX; lia.
  - unfold small_geometry, small, COORD_MAX; cbn; lia.
  - vm_compute. reflexivity.
Defined.

(* ================================================================= *)
(** ** Row copier: one output row *)



(* ================================================================= *)
(** ** Whole calls: buffers, failure, down-sampling *)



(** X20: when the clipping fails, on any of its [return false], and
    [fill_blank] is set, every pixel of the destination holds the converted
    fill colour after the call, no byte outside the destination buffer
    changes, and the accesses of the call are exactly one store per
    destination pixel, in order: nothing is loaded. *)
Theorem copy_pixels_clip_failure_fills (host : byte_order)
    (dst_w dst_h dst_x dst_y src_w src_h src_x src_y width height ratio fill_color : Z)
    (m : memory) (cache : Z) :
  clip dst_w dst_h src_w src_h ratio
       (mkGeometry src_x src_y dst_x dst_y width height) = None ->
  0 <= dst_w * dst_h <= INT_MAX ->
  let s' := copy_pixels host dst_buf dst_w dst_h dst_x dst_y
                        src_buf src_w src_h src_x src_y
                        width height ratio true fill_color (start m cache) in
  (forall i, 0 <= i < dst_w * dst_h ->
     pixel_at host (st_mem s') Dst (4 * i)
     = fst (convert_color host fill_color (start m cache))) /\
  (forall b o, ~ (b = Dst /\ 0 <= o < 4 * (dst_w * dst_h)) ->
     st_mem s' b o = m b o) /\
  st_log s' = map (fun i => Store (Dst, 4 * i) 4) (zrange (dst_w * dst_h)).
Proof.
  intros Hclip Hn s'. subst s'. unfold copy_pixels, copy_pixels_internal.
  rewrite Hclip.
  pose proof (convert_color_in_int host fill_color (start m cache)) as Hc.
  destruct (convert_color_state host fill_color (start m cache)) as [Hmem Hlog].
  destruct (convert_color host fill_color (start m cache)) as [color s1].
  cbn [fst snd negb andb] in *.
  assert (En : to_size_t (mul32 dst_w dst_h) = dst_w * dst_h).
  { rewrite mul32_exact by (int_range; lia). apply to_size_t_exact. exact Hn. }
  rewrite En.
  destruct (memset_int_changes host dst_buf color (dst_w * dst_h) s1 Hc)
    as (Hpix & Hframe & Hst & _);
    [lia | unfold dst_buf; cbn [snd]; unfold INT_MAX in *; lia ..|].
  repeat split.
  - intros i Hi. apply (Hpix i Hi).
  - intros b o Hout. rewrite Hframe; [rewrite Hmem; reflexivity|].
    cbn [dst_buf fst snd]. intros [Hb Ho]. apply Hout. split; [exact Hb | lia].
  - rewrite Hst, Hlog. cbn [start st_log app]. apply map_ext. intros i.
    unfold padd_int, dst_buf. cbn [fst snd]. reflexivity.
Qed.

Lemma copy_pixels_clip_failure_fills_witness :
  let m : memory := fun _ _ => 7 in
  let s' := copy_pixels BigEndian dst_buf 3 2 0 0 src_buf 4 4 9 0 4 4 1 true (-65536)
                        (start m ENDIAN_UNSET) in
  (forall i, 0 <= i < 3 * 2 ->
     pixel_at BigEndian (st_mem s') Dst (4 * i)
     = fst (convert_color BigEndian (-65536) (start m ENDIAN_UNSET))) /\
  (forall b o, ~ (b = Dst /\ 0 <= o < 4 * (3 * 2)) -> st_mem s' b o = m b o) /\
  st_log s' = map (fun i => Store (Dst, 4 * i) 4) (zrange (3 * 2)).
Proof.
  apply (copy_pixels_clip_failure_fills BigEndian 3 2 0 0 4 4 9 0 4 4 1 (-65536)
           (fun _ _ => 7) ENDIAN_UNSET).
  - vm_compute. reflexivity.
  - unfold INT_MAX. lia.
Defined.

(** X21: with [ratio = 1], a rectangle inside both buffers and
    [fill_blank], every destination pixel outside the copied rectangle holds
    the converted fill colour after the call. *)
Theorem copy_pixels_ratio1_fill_complete (host : byte_order)
    (dst_w dst_h dst_x dst_y src_w src_h src_x src_y width height fill_color : Z)
    (m : memory) (cache : Z) (q : Z) :
  0 <= src_x -> 0 <= src_y -> 0 <= dst_x -> 0 <= dst_y ->
  0 < width -> 0 < height ->
  src_x + width <= src_w -> src_y + height <= src_h ->
  dst_x + width <= dst_w -> dst_y + height <= dst_h ->
  dst_w * dst_h * 4 <= INT_MAX -> src_w * src_h * 4 <= INT_MAX ->
  0 <= q < dst_w * dst_h ->
  (forall j, 0 <= j < height ->
     ~ ((dst_y + j) * dst_w + dst_x <= q < (dst_y + j) * dst_w + dst_x + width)) ->
  pixel_at host
    (st_mem (copy_pixels host dst_buf dst_w dst_h dst_x dst_y
                         src_buf src_w src_h src_x src_y
                         width height 1 true fill_color (start m cache)))
    Dst (4 * q)
  = fst (convert_color host fill_color (start m cache)).
Proof. apply copy_pixels_ratio1_fills_outside. Qed.

Lemma copy_pixels_ratio1_fill_complete_witness :
  pixel_at LittleEndian
    (st_mem (copy_pixels LittleEndian dst_buf 4 4 1 1 src_buf 5 6 2 3 2 2 1 true
                         (-65536) (start (fun _ o => o mod 256) ENDIAN_UNSET)))
    Dst (4 * 8)
  = fst (convert_color LittleEndian (-65536)
           (start (fun _ o => o mod 256) ENDIAN_UNSET)).
Proof.
  apply (copy_pixels_ratio1_fill_complete LittleEndian 4 4 1 1 5 6 2 3 2 2 (-65536)
           (fun _ o => o mod 256) ENDIAN_UNSET 8); unfold INT_MAX; lia.
Defined.

(** X22: down-sampling.  For a [ratio] from 1 to 11, without [fill_blank],
    when no product leaves the [int] range and the clipping succeeds with
    rectangle [gf], output pixel [(i, j)] of the rectangle holds in each
    channel the floor of the average of that channel over the [ratio] by
    [ratio] block [(i, j)] of the clipped source rectangle. *)
Theorem copy_pixels_downsamples (host : byte_order)
    (dst_w dst_h dst_x dst_y src_w src_h src_x src_y width height ratio fill_color : Z)
    (m : memory) (cache : Z) (gf : geometry) :
  dims_ok dst_w dst_h src_w src_h ->
  dst_w * dst_h * 4 <= INT_MAX -> src_w * src_h * 4 <= INT_MAX ->
  small_geometry (mkGeometry src_x src_y dst_x dst_y width height) ->
  1 <= ratio <= 11 ->
  (forall o, is_byte (m Src o)) ->
  clip dst_w dst_h src_w src_h ratio
       (mkGeometry src_x src_y dst_x dst_y width height) = Some gf ->
  forall i j c,
    0 <= i < gwidth gf / ratio -> 0 <= j < gheight gf / ratio -> 0 <= c < 4 ->
    st_mem (copy_pixels host dst_buf dst_w dst_h dst_x dst_y
                        src_buf src_w src_h src_x src_y
                        width height ratio false fill_color (start m cache))
           Dst (4 * ((gdst_y gf + j) * dst_w + gdst_x gf + i) + c)
    = channel_sum m (Src, 4 * ((gsrc_y gf + j * ratio) * src_w + gsrc_x gf + i * ratio))
                  src_w ratio c
      / (ratio * ratio).
Proof.
  intros Hdims Hds Hss Hg Hr2 Hbytes Ec i j c Hi Hj Hc.
  unfold copy_pixels, copy_pixels_internal. rewrite Ec. cbn [negb andb].
  destruct (clip_stages _ _ _ _ _ _ _ Hdims Hg Ec)
    as (g0 & g1 & g2 & g3 & _ & _ & _ & _ & _ & Hr & _ & _ & _ & _ & Hal & Hin).
  destruct (clipped_form _ _ _ _ _ _ Hr Hal Hin)
    as (Wo & R & Egf & HWo & HR & Hsx & Hsy & Hdx & Hdy & Hsw & Hsh & Hdw & Hdh).
  assert (EW : gwidth gf / ratio = Wo)
    by (rewrite Egf; unfold clipped; cbn [gwidth]; apply Z.div_mul; lia).
  assert (EH : gheight gf / ratio = R)
    by (rewrite Egf; unfold clipped; cbn [gheight]; apply Z.div_mul; lia).
  rewrite EW in Hi. rewrite EH in Hj.
  rewrite Egf at 1.
  destruct (blit_nofill_mem host dst_w dst_h src_w src_h ratio 0
              (gsrc_x gf) (gsrc_y gf) (gdst_x gf) (gdst_y gf) Wo R)
    with (s := start m cache) as [_ V]; try (assumption || lia).
  specialize (V ltac:(lia) Hbytes j i c Hj Hi Hc).
  unfold dst_row, src_row in V. cbn [start st_mem] in V.
  replace (4 * ((gdst_y gf + j) * dst_w + gdst_x gf + i) + c)
    with (4 * ((gdst_y gf + j) * dst_w + gdst_x gf) + 4 * i + c) by lia.
  rewrite V. do 2 f_equal. f_equal. lia.
Qed.

Lemma copy_pixels_downsamples_witness :
  st_mem (copy_pixels LittleEndian dst_buf 4 4 1 0 src_buf 8 8 (-3) 2 8 8 2 false 0
                      (start (fun _ o => o mod 256) ENDIAN_UNSET))
         Dst (4 * ((gdst_y (mkGeometry 1 2 3 0 2 6) + 2) * 4
                   + gdst_x (mkGeometry 1 2 3 0 2 6) + 0) + 1)
  = channel_sum (fun _ o => o mod 256)
                (Src, 4 * ((gsrc_y (mkGeometry 1 2 3 0 2 6) + 2 * 2) * 8
                           + gsrc_x (mkGeometry 1 2 3 0 2 6) + 0 * 2))
                8 2 1
    / (2 * 2).
Proof.
  apply (copy_pixels_downsamples LittleEndian 4 4 1 0 8 8 (-3) 2 8 8 2 0
           (fun _ o => o mod 256) ENDIAN_UNSET (mkGeometry 1 2 3 0 2 6)).
  - unfold dims_ok, DIM_MAX; lia.
  - unfold INT_MAX; lia.
  - unfold INT_MAX; lia.
  - unfold small_geometry, small, COORD_MAX; cbn; lia.
  - lia.
  - intros o. unfold is_byte. pose proof (Z.mod_pos_bound o 256 ltac:(lia)). lia.
  - vm_compute. reflexivity.
  - cbn [gwidth]. change (2 / 2) with 1. lia.
  - cbn [gheight]. change (6 / 2) with 3. lia.
  - lia.
Defined.

(** X23: without [fill_blank], when no product leaves the [int] range and
    the clipping succeeds with rectangle [gf], a call changes no byte outside
    the output rectangle of the destination: rows [gdst_y gf] and following,
    [gheight gf / ratio] of them, columns [gdst_x gf] and following,
    [gwidth gf / ratio] of them. *)
Theorem copy_pixels_nofill_frame (host : byte_order)
    (dst_w dst_h dst_x dst_y src_w src_h src_x src_y width height ratio fill_color : Z)
    (m : memory) (cache : Z) (gf : geometry) :
  dims_ok dst_w dst_h src_w src_h ->
  dst_w * dst_h * 4 <= INT_MAX -> src_w * src_h * 4 <= INT_MAX ->
  small_geometry (mkGeometry src_x src_y dst_x dst_y width height) ->
  clip dst_w dst_h src_w src_h ratio
       (mkGeometry src_x src_y dst_x dst_y width height) = Some gf ->
  forall b o,
    ~ (b = Dst /\
       exists j, 0 <= j < gheight gf / ratio /\
                 4 * ((gdst_y gf + j) * dst_w + gdst_x gf) <= o
                 < 4 * ((gdst_y gf + j) * dst_w + gdst_x gf + gwidth gf / ratio)) ->
    st_mem (copy_pixels host dst_buf dst_w dst_h dst_x dst_y
                        src_buf src_w src_h src_x src_y
                        width height ratio false fill_color (start m cache)) b o
    = m b o.
Proof.
  intros Hdims Hds Hss Hg Ec b o Hout.
  unfold copy_pixels, copy_pixels_internal. rewrite Ec. cbn [negb andb].
  destruct (clip_stages _ _ _ _ _ _ _ Hdims Hg Ec)
    as (g0 & g1 & g2 & g3 & _ & _ & _ & _ & _ & Hr & _ & _ & _ & _ & Hal & Hin).
  destruct (clipped_form _ _ _ _ _ _ Hr Hal Hin)
    as (Wo & R & Egf & HWo & HR & Hsx & Hsy & Hdx & Hdy & Hsw & Hsh & Hdw & Hdh).
  assert (EW : gwidth gf / ratio = Wo)
    by (rewrite Egf; unfold clipped; cbn [gwidth]; apply Z.div_mul; lia).
  assert (EH : gheight gf / ratio = R)
    by (rewrite Egf; unfold clipped; cbn [gheight]; apply Z.div_mul; lia).
  rewrite EW, EH in Hout.
  rewrite Egf at 1.
  destruct (blit_nofill_mem host dst_w dst_h src_w src_h ratio 0
              (gsrc_x gf) (gsrc_y gf) (gdst_x gf) (gdst_y gf) Wo R)
    with (s := start m cache) as [F _]; try (assumption || lia).
  rewrite F; [reflexivity|].
  intros [Hb (t & Ht & Ho)]. apply Hout. split; [exact Hb|].
  exists t. unfold dst_row in Ho. split; lia.
Qed.

Lemma copy_pixels_nofill_frame_witness :
  st_mem (copy_pixels LittleEndian dst_buf 4 4 1 0 src_buf 8 8 (-3) 2 8 8 2 false 0
                      (start (fun _ o => o mod 256) ENDIAN_UNSET)) Dst 8
  = (fun (_ : block) o => o mod 256) Dst 8.
Proof.
  apply (copy_pixels_nofill_frame LittleEndian 4 4 1 0 8 8 (-3) 2 8 8 2 0
           (fun _ o => o mod 256) ENDIAN_UNSET (mkGeometry 1 2 3 0 2 6)).
  - unfold dims_ok, DIM_MAX; lia.
  - unfold INT_MAX; lia.
  - unfold INT_MAX; lia.
  - unfold small_geometry, small, COORD_MAX; cbn; lia.
  - vm_compute. reflexivity.
  - cbn [gdst_x gdst_y gwidth gheight]. change (2 / 2) with 1. change (6 / 2) with 3.
    intros [_ (j & Hj & Ho)]. lia.
Defined.
